(** * Sourcify monitor: the source fetcher, the chain monitor and the injector

    A shallow embedding of [src/monitor/source-fetcher.ts] (and of its older
    variant), of [src/monitor/monitor.ts], and of the injector's
    verify-and-store path, followed by the properties the specification
    states about them.

    JavaScript runs one handler at a time.  Every handler of the program
    (a timer callback, a promise reaction, a call of a public method) is a
    function on an explicit state; the event loop is a step function that
    picks the handler an event triggers.  Objects that closures keep a
    reference to live in a heap and are addressed by location, so that a
    write through a stale reference is visible as such. *)

From stdpp Require Import base list strings pretty.
From Stdlib Require Import ZArith Lia.
From Equations Require Import Equations.

Local Open Scope string_scope.
Local Open Scope list_scope.

(** ** JavaScript objects used as dictionaries

    [{}] with string keys: [k in o], [o[k]], [o[k] = v], [delete o[k]] and
    [Object.keys(o)].  Keys that are not array indices are enumerated in
    insertion order, and assigning to an existing key keeps its place. *)

Section js_object.
Context {V : Type}.

Fixpoint obj_get (k : string) (o : list (string * V)) : option V :=
  match o with
  | [] => None
  | (k', v) :: o' => if decide (k = k') then Some v else obj_get k o'
  end.

Definition obj_has (k : string) (o : list (string * V)) : bool :=
  match obj_get k o with Some _ => true | None => false end.

Fixpoint obj_set (k : string) (v : V) (o : list (string * V)) : list (string * V) :=
  match o with
  | [] => [(k, v)]
  | (k', v') :: o' =>
      if decide (k = k') then (k, v) :: o' else (k', v') :: obj_set k v o'
  end.

Fixpoint obj_delete (k : string) (o : list (string * V)) : list (string * V) :=
  match o with
  | [] => []
  | (k', v') :: o' =>
      if decide (k = k') then obj_delete k o' else (k', v') :: obj_delete k o'
  end.

Definition obj_keys (o : list (string * V)) : list string := o.*1.
End js_object.

(** ** Handlers: state plus exceptions

    A handler reads and writes the state and either completes or throws.
    What it wrote before throwing stays written. *)

Inductive Completion (A : Type) : Type :=
| Normal (a : A)
| Throw (message : string).
Arguments Normal {A} a.
Arguments Throw {A} message.

Definition JS (S A : Type) : Type := S → Completion A * S.

Global Instance JS_ret {S} : MRet (JS S) := λ A a s, (Normal a, s).
Global Instance JS_bind {S} : MBind (JS S) := λ A B f m s,
  match m s with
  | (Normal a, s') => f a s'
  | (Throw e, s') => (Throw e, s')
  end.

Definition throw {S A} (message : string) : JS S A := λ s, (Throw message, s).
Definition get_state {S} : JS S S := λ s, (Normal s, s).
Definition modify {S} (f : S → S) : JS S () := λ s, (Normal (), f s).

(** A call of a library function, which returns or throws and leaves the
    state alone. *)
Definition library_call {S A} (outcome : Completion A) : JS S A :=
  λ s, (outcome, s).

(** The state a handler leaves behind, whether it completed or threw. *)
Definition exec {S A} (m : JS S A) (s : S) : S := (m s).2.

(** [p.catch(handler)]: the handler runs when [p] was rejected or a reaction
    before it threw. *)
Definition try_catch {S A} (m : JS S A) (handler : string → JS S A) : JS S A :=
  λ s, match m s with
       | (Normal a, s') => (Normal a, s')
       | (Throw e, s') => handler e s'
       end.

(** [p.finally(after)]: [after] runs either way, and the outcome of [p] is
    kept unless [after] itself throws. *)
Definition try_finally {S A} (m : JS S A) (after : JS S ()) : JS S A :=
  λ s, match m s with
       | (outcome, s') =>
           match after s' with
           | (Normal _, s'') => (outcome, s'')
           | (Throw e, s'') => (Throw e, s'')
           end
       end.

(** ** Content addresses and gateways *)

Record SourceAddress := { origin : string; id : string }.

(** Modelled from the spec: [SourceAddress.getUniqueIdentifier] is declared
    in [util.ts], which is not among the sources.  The specification gives
    the unique identifier as [origin || ":" || id]. *)
Definition getUniqueIdentifier (sa : SourceAddress) : string :=
  origin sa +:+ ":" +:+ id sa.

(** Modelled from the spec: [SimpleGateway] is declared in [gateway.ts], which
    is not among the sources.  A simple gateway has a set of accepted origins
    and a URL prefix; [worksWith] tests membership and [createUrl] is string
    concatenation. *)
Record SimpleGateway := { origins : list string; baseUrl : string }.

(** Modelled from the spec: [worksWith(origin)], absent with [gateway.ts]:
    does this gateway serve the given origin? *)
Definition worksWith (g : SimpleGateway) (o : string) : bool :=
  bool_decide (o ∈ origins g).

(** Modelled from the spec: [createUrl(id)], absent with [gateway.ts]: the
    URL prefix followed by the hash. *)
Definition createUrl (g : SimpleGateway) (fetchId : string) : string :=
  baseUrl g +:+ fetchId.

(** [parseInt(process.env.X) || d]: [None] stands for [NaN]; [NaN] and [0]
    are falsy. *)
Definition or_default (parsed : option Z) (d : Z) : Z :=
  match parsed with
  | Some n => if decide (n = 0)%Z then d else n
  | None => d
  end.

(** [x++] on a number that holds the integer [x].  Numbers are IEEE
    doubles: an integer of magnitude up to 2^53 is held exactly, and [x + 1]
    is rounded to the nearest double, a tie going to the even mantissa.
    From 2^53 on the doubles are 2 apart, from 2^54 on 4 and more, so there
    [x + 1] is [x] again or [x + 2]. *)
Definition js_increment (x : Z) : Z :=
  if decide (- 2 ^ 53 ≤ x < 2 ^ 53)%Z then (x + 1)%Z
  else if decide (2 ^ 54 ≤ Z.abs x)%Z then x
  else if Z.even (x / 2) then x else (x + 2)%Z.

(** [process.env.X || d] on strings: undefined and the empty string are
    falsy. *)
Definition str_or_default (v : option string) (d : string) : string :=
  match v with
  | Some s => if decide (s = "") then d else s
  | None => d
  end.

(** A subscriber callback is a closure owned by the assembler.  The fetcher
    never looks inside it: it stores it and later calls it with the fetched
    file.  Callbacks are kept by identity, and every call is recorded with
    its argument. *)
Definition FetchedFileCallback : Type := nat.

(** How a call of a callback ends: it returns ([None]) or throws an error
    with a message.  The fetcher cannot tell beforehand, and the same
    closure may end differently from one call to the next, so the outcome is
    given for each call: [outcome k callback file] is how the call of
    [callback] with [file] ends when [k] calls were made before it. *)
Definition CallbackOutcome : Type :=
  nat → FetchedFileCallback → string → option string.

(** Callbacks that always return. *)
Definition returning : CallbackOutcome := λ _ _ _, None.

Inductive LogLevel := LvInfo | LvError.
Record LogEntry := { level : LogLevel; loc : string }.

(** A [nodeFetch] call.  Its promise is [Pending] until it settles; once it
    has resolved, the reaction has called [resp.text()] and the body is
    awaited; [Closed] when nothing more will come of it. *)
Inductive Phase :=
| Pending
| AwaitingBody (status : Z)
| Closed.

Global Instance Phase_eq_dec : EqDecision Phase.
Proof. solve_decision. Defined.

Definition HTTP_OK : Z := 200.

(** ** The source fetcher ([src/monitor/source-fetcher.ts]) *)

Module Fetcher.

Definition STARTING_INDEX : nat := 0.
Definition NO_PAUSE : Z := 0.

Record Subscription := {
  sourceAddress : SourceAddress;
  fetchUrl : string;
  beingProcessed : bool;
  subscribers : list FetchedFileCallback
}.

(** [new Subscription(sourceAddress, fetchUrl)] *)
Definition new_Subscription (sa : SourceAddress) (url : string) : Subscription :=
  {| sourceAddress := sa; fetchUrl := url;
     beingProcessed := false; subscribers := [] |}.

Definition set_beingProcessed (b : bool) (s : Subscription) : Subscription :=
  {| sourceAddress := sourceAddress s; fetchUrl := fetchUrl s;
     beingProcessed := b; subscribers := subscribers s |}.

(** [subscribers.push(callback)] *)
Definition push_subscriber (cb : FetchedFileCallback) (s : Subscription) : Subscription :=
  {| sourceAddress := sourceAddress s; fetchUrl := fetchUrl s;
     beingProcessed := beingProcessed s; subscribers := subscribers s ++ [cb] |}.

(** What the environment of the process provides, after [parseInt]. *)
Record Env := {
  IPFS_URL : option string;
  MONITOR_FETCH_TIMEOUT : option Z;
  MONITOR_FETCH_PAUSE : option Z;
  MONITOR_CLEANUP_PERIOD : option Z
}.

(** What is fixed while a fetcher runs: the fields the constructor sets
    once and nothing writes again, and, from its surroundings, how the calls
    of the subscriber callbacks end. *)
Record Config := {
  fetchTimeout : Z;
  fetchPause : Z;
  cleanupTime : Z;
  gateways : list SimpleGateway;
  callback_outcome : CallbackOutcome
}.

Definition config_of (env : Env) (outcome : CallbackOutcome) : Config :=
  {| fetchTimeout := or_default (MONITOR_FETCH_TIMEOUT env) (5 * 60 * 1000);
     fetchPause := or_default (MONITOR_FETCH_PAUSE env) (1 * 1000);
     cleanupTime := or_default (MONITOR_CLEANUP_PERIOD env) (30 * 60 * 1000);
     gateways :=
       [ {| origins := ["ipfs"];
            baseUrl := str_or_default (IPFS_URL env)
                         "https://ipfs.infura.io:5001/api/v0/cat?arg=" |};
         {| origins := ["bzzr0"; "bzzr1"];
            baseUrl := "https://swarm-gateways.net/bzz-raw:/" |} ];
     callback_outcome := outcome |}.

(** The closure of one [nodeFetch] call: the variables [sourceHash],
    [subscription] (a reference) and [fetchUrl] its reactions captured. *)
Record Request := {
  req_sourceHash : string;
  req_subscription : nat;
  req_fetchUrl : string;
  req_timeout : Z;
  req_phase : Phase
}.

Definition set_phase (p : Phase) (r : Request) : Request :=
  {| req_sourceHash := req_sourceHash r; req_subscription := req_subscription r;
     req_fetchUrl := req_fetchUrl r; req_timeout := req_timeout r;
     req_phase := p |}.

(** A pending [setTimeout(this.fetch, delay, sourceHashes, index)]. *)
Record Timer := {
  delay : Z;
  arg_sourceHashes : list string;
  arg_index : nat
}.

(** The fetcher's mutable fields ([subscriptions], [timestamps] and the two
    counters), the heap of [Subscription] objects the map and the closures
    point into, and what the fetcher has asked of its surroundings: HTTP
    requests, timers, calls of subscriber callbacks and log lines. *)
Record State := {
  subscriptions : list (string * nat);
  timestamps : list (string * Z);
  fileCounter : Z;
  subscriptionCounter : Z;
  heap : list Subscription;
  requests : list Request;
  timers : list Timer;
  called : list (FetchedFileCallback * string);
  logged : list LogEntry
}.

Definition with_subscriptions (f : list (string * nat) → list (string * nat))
    (s : State) : State :=
  {| subscriptions := f (subscriptions s); timestamps := timestamps s;
     fileCounter := fileCounter s; subscriptionCounter := subscriptionCounter s;
     heap := heap s; requests := requests s; timers := timers s;
     called := called s; logged := logged s |}.

Definition with_timestamps (f : list (string * Z) → list (string * Z))
    (s : State) : State :=
  {| subscriptions := subscriptions s; timestamps := f (timestamps s);
     fileCounter := fileCounter s; subscriptionCounter := subscriptionCounter s;
     heap := heap s; requests := requests s; timers := timers s;
     called := called s; logged := logged s |}.

Definition with_fileCounter (f : Z → Z) (s : State) : State :=
  {| subscriptions := subscriptions s; timestamps := timestamps s;
     fileCounter := f (fileCounter s); subscriptionCounter := subscriptionCounter s;
     heap := heap s; requests := requests s; timers := timers s;
     called := called s; logged := logged s |}.

Definition with_subscriptionCounter (f : Z → Z) (s : State) : State :=
  {| subscriptions := subscriptions s; timestamps := timestamps s;
     fileCounter := fileCounter s; subscriptionCounter := f (subscriptionCounter s);
     heap := heap s; requests := requests s; timers := timers s;
     called := called s; logged := logged s |}.

Definition with_heap (f : list Subscription → list Subscription)
    (s : State) : State :=
  {| subscriptions := subscriptions s; timestamps := timestamps s;
     fileCounter := fileCounter s; subscriptionCounter := subscriptionCounter s;
     heap := f (heap s); requests := requests s; timers := timers s;
     called := called s; logged := logged s |}.

Definition with_requests (f : list Request → list Request) (s : State) : State :=
  {| subscriptions := subscriptions s; timestamps := timestamps s;
     fileCounter := fileCounter s; subscriptionCounter := subscriptionCounter s;
     heap := heap s; requests := f (requests s); timers := timers s;
     called := called s; logged := logged s |}.

Definition with_timers (f : list Timer → list Timer) (s : State) : State :=
  {| subscriptions := subscriptions s; timestamps := timestamps s;
     fileCounter := fileCounter s; subscriptionCounter := subscriptionCounter s;
     heap := heap s; requests := requests s; timers := f (timers s);
     called := called s; logged := logged s |}.

Definition with_called
    (f : list (FetchedFileCallback * string) → list (FetchedFileCallback * string))
    (s : State) : State :=
  {| subscriptions := subscriptions s; timestamps := timestamps s;
     fileCounter := fileCounter s; subscriptionCounter := subscriptionCounter s;
     heap := heap s; requests := requests s; timers := timers s;
     called := f (called s); logged := logged s |}.

Definition with_logged (f : list LogEntry → list LogEntry) (s : State) : State :=
  {| subscriptions := subscriptions s; timestamps := timestamps s;
     fileCounter := fileCounter s; subscriptionCounter := subscriptionCounter s;
     heap := heap s; requests := requests s; timers := timers s;
     called := called s; logged := f (logged s) |}.

(** The fields of a freshly constructed object, before the constructor
    body runs. *)
Definition fresh : State :=
  {| subscriptions := []; timestamps := []; fileCounter := 0;
     subscriptionCounter := 0; heap := []; requests := []; timers := [];
     called := []; logged := [] |}.

(** *** Primitive effects *)

Definition setTimeout (d : Z) (sourceHashes : list string) (index : nat) : JS State () :=
  modify (with_timers (λ ts, ts ++
    [{| delay := d; arg_sourceHashes := sourceHashes; arg_index := index |}])).

Definition log (lv : LogLevel) (tag : string) : JS State () :=
  modify (with_logged (λ l, l ++ [{| level := lv; loc := tag |}])).

(** [nodeFetch(fetchUrl, { timeout })] together with the closure of its
    reactions. *)
Definition nodeFetch (sourceHash : string) (subscription : nat)
    (url : string) (timeout : Z) : JS State () :=
  modify (with_requests (λ rs, rs ++
    [{| req_sourceHash := sourceHash; req_subscription := subscription;
        req_fetchUrl := url; req_timeout := timeout; req_phase := Pending |}])).

(** Reading through a reference.  A location that was never allocated
    stands for [undefined]; reading a field of it is a [TypeError]. *)
Definition deref (l : nat) : JS State Subscription :=
  λ s, match heap s !! l with
       | Some o => (Normal o, s)
       | None => (Throw "TypeError: Cannot read property of undefined", s)
       end.

(** Writing a field through a reference. *)
Definition update (l : nat) (f : Subscription → Subscription) : JS State () :=
  modify (with_heap (alter f l)).

(** [this.subscriptions[sourceHash]] where a [Subscription] is expected. *)
Definition the_subscription (sourceHash : string) : JS State nat :=
  λ s, match obj_get sourceHash (subscriptions s) with
       | Some l => (Normal l, s)
       | None => (Throw "TypeError: Cannot read property of undefined", s)
       end.

(** [array.forEach(f)]: the elements in order; an exception thrown by [f]
    ends the loop and leaves [forEach]. *)
Fixpoint forEach {A} (f : A → JS State ()) (l : list A) : JS State () :=
  match l with
  | [] => mret ()
  | x :: l' => f x;; forEach f l'
  end.

(** *** The methods *)

Section methods.
Variable cfg : Config.

(** [callback(file)]: the call is recorded, and it returns or throws as the
    surroundings have it.  Nothing catches what it throws.  What the
    assembler does in the call reaches the fetcher only through later
    [subscribe] calls. *)
Definition invoke (file : string) (callback : FetchedFileCallback) : JS State () :=
  this ← get_state;
  modify (with_called (λ c, c ++ [(callback, file)]));;
  match callback_outcome cfg (length (called this)) callback file with
  | None => mret ()
  | Some message => throw message
  end.

Definition shouldCleanup (now : Z) (sourceHash : string) : JS State bool :=
  this ← get_state;
  match obj_get sourceHash (timestamps this) with
  | None => mret false
  | Some timestamp => mret (bool_decide (timestamp + cleanupTime cfg < now)%Z)
  end.

Definition cleanup (sourceHash : string) : JS State () :=
  modify (with_timestamps (obj_delete sourceHash));;
  l ← the_subscription sourceHash;
  subscription ← deref l;
  (* [Object.keys] of an array without holes lists every index. *)
  let subscriptionsDelta := Z.of_nat (length (subscribers subscription)) in
  modify (with_subscriptions (obj_delete sourceHash));;
  modify (with_fileCounter (λ n, n - 1)%Z);;
  modify (with_subscriptionCounter (λ n, n - subscriptionsDelta)%Z);;
  log LvInfo "[SOURCE_FETCHER:CLEANUP]".

Fixpoint find_gateway (gs : list SimpleGateway) (o : string) : option SimpleGateway :=
  match gs with
  | [] => None
  | gateway :: gs' => if worksWith gateway o then Some gateway else find_gateway gs' o
  end.

Definition findGateway (sa : SourceAddress) : JS State SimpleGateway :=
  match find_gateway (gateways cfg) (origin sa) with
  | Some gateway => mret gateway
  | None => throw ("Gateway not found for " +:+ origin sa)
  end.

Definition notifySubscribers (id : string) (file : string) : JS State () :=
  this ← get_state;
  if negb (obj_has id (subscriptions this)) then mret ()
  else
    l ← the_subscription id;
    cleanup id;;
    subscription ← deref l;
    log LvInfo "[SOURCE_FETCHER:NOTIFY]";;
    forEach (invoke file) (subscribers subscription).

Definition subscribe (now : Z) (sa : SourceAddress)
    (callback : FetchedFileCallback) : JS State () :=
  let sourceHash := getUniqueIdentifier sa in
  gateway ← findGateway sa;
  let url := createUrl gateway (id sa) in
  this ← get_state;
  (if negb (obj_has sourceHash (subscriptions this)) then
     modify (with_heap (λ h, h ++ [new_Subscription sa url]));;
     modify (with_subscriptions (obj_set sourceHash (length (heap this))));;
     modify (with_fileCounter (λ n, n + 1)%Z)
   else mret ());;
  modify (with_timestamps (obj_set sourceHash now));;
  l ← the_subscription sourceHash;
  _ ← deref l;
  update l (push_subscriber callback);;
  modify (with_subscriptionCounter (λ n, n + 1)%Z);;
  log LvInfo "[SOURCE_FETCHER:NEW_SUBSCRIPTION]".

Definition fetch (now : Z) (sourceHashes : list string) (index : nat) : JS State () :=
  match sourceHashes !! index with
  | None =>
      (* [index >= sourceHashes.length] *)
      this ← get_state;
      let newSourceHashes := obj_keys (subscriptions this) in
      setTimeout NO_PAUSE newSourceHashes STARTING_INDEX
  | Some sourceHash =>
      this ← get_state;
      match obj_get sourceHash (subscriptions this) with
      | None =>
          (* [!(sourceHash in this.subscriptions)] *)
          setTimeout NO_PAUSE sourceHashes (index + 1)
      | Some l =>
          subscription ← deref l;
          if beingProcessed subscription then
            setTimeout NO_PAUSE sourceHashes (index + 1)
          else
            expired ← shouldCleanup now sourceHash;
            if (expired : bool) then
              cleanup sourceHash;;
              setTimeout NO_PAUSE sourceHashes (index + 1)
            else
              update l (set_beingProcessed true);;
              nodeFetch sourceHash l (fetchUrl subscription) (fetchTimeout cfg);;
              setTimeout (fetchPause cfg) sourceHashes (index + 1)
      end
  end.

(** The constructor: the field initialisers, then [this.fetch([], 0)]. *)
Definition new_SourceFetcher (now : Z) : State :=
  exec (fetch now [] 0) fresh.

(** *** Reactions of a request's promise chain

    [nodeFetch(..).then(A).catch(B).finally(C)].  [A] calls
    [resp.text().then(D)] and returns without waiting for it, so [C]
    runs as soon as the response has arrived, before the body has been
    read and before [D]. *)

Definition finally_reaction (r : Request) : JS State () :=
  update (req_subscription r) (set_beingProcessed false).

Definition on_resolved (i : nat) (r : Request) (status : Z) : JS State () :=
  modify (with_requests (alter (set_phase (AwaitingBody status)) i));;
  finally_reaction r.

Definition on_rejected (i : nat) (r : Request) : JS State () :=
  modify (with_requests (alter (set_phase Closed) i));;
  log LvError "[SOURCE_FETCHER]";;
  finally_reaction r.

Definition on_text (i : nat) (r : Request) (status : Z) (text : string) : JS State () :=
  modify (with_requests (alter (set_phase Closed) i));;
  if decide (status = HTTP_OK) then notifySubscribers (req_sourceHash r) text
  else log LvError "[SOURCE_FETCHER:FETCH_FAILED]".

(** *** The event loop *)

Inductive Event :=
| CallSubscribe (now : Z) (sa : SourceAddress) (callback : FetchedFileCallback)
| TimerFires (k : nat) (now : Z)
| FetchResolves (i : nat) (status : Z)
| FetchRejects (i : nat) (message : string)
| BodyArrives (i : nat) (text : string)
| BodyFails (i : nat).

Definition step (s : State) (e : Event) : State :=
  match e with
  | CallSubscribe now sa callback => exec (subscribe now sa callback) s
  | TimerFires k now =>
      match timers s !! k with
      | Some t =>
          exec (fetch now (arg_sourceHashes t) (arg_index t))
               (with_timers (delete k) s)
      | None => s
      end
  | FetchResolves i status =>
      match requests s !! i with
      | Some r => if decide (req_phase r = Pending)
                  then exec (on_resolved i r status) s else s
      | None => s
      end
  | FetchRejects i _ =>
      match requests s !! i with
      | Some r => if decide (req_phase r = Pending)
                  then exec (on_rejected i r) s else s
      | None => s
      end
  | BodyArrives i text =>
      match requests s !! i with
      | Some r => match req_phase r with
                  | AwaitingBody status => exec (on_text i r status text) s
                  | _ => s
                  end
      | None => s
      end
  | BodyFails i =>
      match requests s !! i with
      | Some r => match req_phase r with
                  | AwaitingBody _ =>
                      with_requests (alter (set_phase Closed) i) s
                  | _ => s
                  end
      | None => s
      end
  end.

Definition run (s : State) (evs : list Event) : State := foldl step s evs.
End methods.

End Fetcher.

(** ** The older variant of the source fetcher

    The second copy of [source-fetcher.ts] in the repository: no
    [beingProcessed] flag, no counters, the gateway is looked up at fetch
    time, and three gateways are registered.  No closure keeps a reference
    to a [Subscription] across a change of the map here, so the map holds
    the objects themselves. *)

Module LegacyFetcher.

Definition STARTING_INDEX : nat := 0.

Record Subscription := {
  sourceAddress : SourceAddress;
  subscribers : list FetchedFileCallback
}.

Definition push_subscriber (cb : FetchedFileCallback) (s : Subscription) : Subscription :=
  {| sourceAddress := sourceAddress s; subscribers := subscribers s ++ [cb] |}.

(** As for the current fetcher: the constructor's fields and how the calls
    of the subscriber callbacks end. *)
Record Config := {
  fetchTimeout : Z;
  fetchPause : Z;
  cleanupTime : Z;
  gateways : list SimpleGateway;
  callback_outcome : CallbackOutcome
}.

Definition config_of (env : Fetcher.Env) (outcome : CallbackOutcome) : Config :=
  {| fetchTimeout := or_default (Fetcher.MONITOR_FETCH_TIMEOUT env) (5 * 60 * 1000);
     fetchPause := or_default (Fetcher.MONITOR_FETCH_PAUSE env) (1 * 1000);
     cleanupTime := or_default (Fetcher.MONITOR_CLEANUP_PERIOD env) (30 * 60 * 1000);
     gateways :=
       [ {| origins := ["ipfs"];
            baseUrl := str_or_default (Fetcher.IPFS_URL env)
                         "https://ipfs.infura.io:5001/api/v0/cat?arg=" |};
         {| origins := ["bzzr0"; "bzzr1"];
            baseUrl := "https://swarm-gateways.net/bzz-raw:/" |};
         {| origins := ["bzzr0"; "bzzr1"];
            baseUrl := "https://gateway.ethswarm.org/bzz/" |} ];
     callback_outcome := outcome |}.

Record Request := {
  req_sourceHash : string;
  req_fetchUrl : string;
  req_timeout : Z;
  req_phase : Phase
}.

Definition set_phase (p : Phase) (r : Request) : Request :=
  {| req_sourceHash := req_sourceHash r; req_fetchUrl := req_fetchUrl r;
     req_timeout := req_timeout r; req_phase := p |}.

Record State := {
  subscriptions : list (string * Subscription);
  timestamps : list (string * Z);
  requests : list Request;
  timers : list Fetcher.Timer;
  called : list (FetchedFileCallback * string);
  logged : list LogEntry
}.

Definition with_subscriptions
    (f : list (string * Subscription) → list (string * Subscription))
    (s : State) : State :=
  {| subscriptions := f (subscriptions s); timestamps := timestamps s;
     requests := requests s; timers := timers s;
     called := called s; logged := logged s |}.

Definition with_timestamps (f : list (string * Z) → list (string * Z))
    (s : State) : State :=
  {| subscriptions := subscriptions s; timestamps := f (timestamps s);
     requests := requests s; timers := timers s;
     called := called s; logged := logged s |}.

Definition with_requests (f : list Request → list Request) (s : State) : State :=
  {| subscriptions := subscriptions s; timestamps := timestamps s;
     requests := f (requests s); timers := timers s;
     called := called s; logged := logged s |}.

Definition with_timers (f : list Fetcher.Timer → list Fetcher.Timer)
    (s : State) : State :=
  {| subscriptions := subscriptions s; timestamps := timestamps s;
     requests := requests s; timers := f (timers s);
     called := called s; logged := logged s |}.

Definition with_called
    (f : list (FetchedFileCallback * string) → list (FetchedFileCallback * string))
    (s : State) : State :=
  {| subscriptions := subscriptions s; timestamps := timestamps s;
     requests := requests s; timers := timers s;
     called := f (called s); logged := logged s |}.

Definition with_logged (f : list LogEntry → list LogEntry) (s : State) : State :=
  {| subscriptions := subscriptions s; timestamps := timestamps s;
     requests := requests s; timers := timers s;
     called := called s; logged := f (logged s) |}.

Definition fresh : State :=
  {| subscriptions := []; timestamps := []; requests := []; timers := [];
     called := []; logged := [] |}.

Definition setTimeout (d : Z) (sourceHashes : list string) (index : nat) : JS State () :=
  modify (with_timers (λ ts, ts ++
    [{| Fetcher.delay := d; Fetcher.arg_sourceHashes := sourceHashes;
        Fetcher.arg_index := index |}])).

Definition log (lv : LogLevel) (tag : string) : JS State () :=
  modify (with_logged (λ l, l ++ [{| level := lv; loc := tag |}])).

Definition nodeFetch (sourceHash url : string) (timeout : Z) : JS State () :=
  modify (with_requests (λ rs, rs ++
    [{| req_sourceHash := sourceHash; req_fetchUrl := url;
        req_timeout := timeout; req_phase := Pending |}])).

Definition the_subscription (sourceHash : string) : JS State Subscription :=
  λ s, match obj_get sourceHash (subscriptions s) with
       | Some o => (Normal o, s)
       | None => (Throw "TypeError: Cannot read property of undefined", s)
       end.

Fixpoint forEach {A} (f : A → JS State ()) (l : list A) : JS State () :=
  match l with
  | [] => mret ()
  | x :: l' => f x;; forEach f l'
  end.

Section methods.
Variable cfg : Config.

(** [callback(file)]: recorded, and it returns or throws as the surroundings
    have it; nothing catches what it throws. *)
Definition invoke (file : string) (callback : FetchedFileCallback) : JS State () :=
  this ← get_state;
  modify (with_called (λ c, c ++ [(callback, file)]));;
  match callback_outcome cfg (length (called this)) callback file with
  | None => mret ()
  | Some message => throw message
  end.

Definition shouldCleanup (now : Z) (sourceHash : string) : JS State bool :=
  this ← get_state;
  match obj_get sourceHash (timestamps this) with
  | None => mret false
  | Some timestamp => mret (bool_decide (timestamp + cleanupTime cfg < now)%Z)
  end.

Definition cleanup (sourceHash : string) : JS State () :=
  log LvInfo "[SOURCE_FETCHER:CLEANUP]";;
  modify (with_timestamps (obj_delete sourceHash));;
  modify (with_subscriptions (obj_delete sourceHash)).

Definition findGateway (sa : SourceAddress) : JS State SimpleGateway :=
  match Fetcher.find_gateway (gateways cfg) (origin sa) with
  | Some gateway => mret gateway
  | None => throw ("Gateway not found for " +:+ origin sa)
  end.

Definition notifySubscribers (id : string) (file : string) : JS State () :=
  this ← get_state;
  if negb (obj_has id (subscriptions this)) then mret ()
  else
    subscription ← the_subscription id;
    cleanup id;;
    log LvInfo "[SOURCE_FETCHER:NOTIFY]";;
    forEach (invoke file) (subscribers subscription).

Definition subscribe (now : Z) (sa : SourceAddress)
    (callback : FetchedFileCallback) : JS State () :=
  let sourceHash := getUniqueIdentifier sa in
  this ← get_state;
  (if negb (obj_has sourceHash (subscriptions this)) then
     modify (with_subscriptions
               (obj_set sourceHash {| sourceAddress := sa; subscribers := [] |}))
   else mret ());;
  modify (with_timestamps (obj_set sourceHash now));;
  subscription ← the_subscription sourceHash;
  modify (with_subscriptions
            (obj_set sourceHash (push_subscriber callback subscription))).

(** [index in this.subscriptions]: the number is converted to a property
    key, its decimal rendering. *)
Definition fetch (now : Z) (sourceHashes : list string) (index : nat) : JS State () :=
  match sourceHashes !! index with
  | None =>
      log LvInfo "[SOURCE_FETCHER]";;
      this ← get_state;
      let newSourceHashes := obj_keys (subscriptions this) in
      setTimeout (fetchPause cfg) newSourceHashes STARTING_INDEX
  | Some sourceHash =>
      this ← get_state;
      if negb (obj_has (pretty index) (subscriptions this)) then mret ()
      else
        expired ← shouldCleanup now sourceHash;
        if (expired : bool) then
          cleanup sourceHash;;
          setTimeout (fetchPause cfg) sourceHashes (index + 1)
        else
          subscription ← the_subscription sourceHash;
          gateway ← findGateway (sourceAddress subscription);
          let url := createUrl gateway (id (sourceAddress subscription)) in
          nodeFetch sourceHash url (fetchTimeout cfg);;
          setTimeout (fetchPause cfg) sourceHashes (index + 1)
  end.

Definition new_SourceFetcher (now : Z) : State :=
  exec (fetch now [] 0) fresh.

Definition on_text (i : nat) (r : Request) (status : Z) (text : string) : JS State () :=
  modify (with_requests (alter (set_phase Closed) i));;
  if decide (status = HTTP_OK) then notifySubscribers (req_sourceHash r) text
  else log LvError "[SOURCE_FETCHER:FETCH_FAILED]".

Definition step (s : State) (e : Fetcher.Event) : State :=
  match e with
  | Fetcher.CallSubscribe now sa callback => exec (subscribe now sa callback) s
  | Fetcher.TimerFires k now =>
      match timers s !! k with
      | Some t =>
          exec (fetch now (Fetcher.arg_sourceHashes t) (Fetcher.arg_index t))
               (with_timers (delete k) s)
      | None => s
      end
  | Fetcher.FetchResolves i status =>
      match requests s !! i with
      | Some r => if decide (req_phase r = Pending)
                  then with_requests (alter (set_phase (AwaitingBody status)) i) s
                  else s
      | None => s
      end
  | Fetcher.FetchRejects i _ =>
      match requests s !! i with
      | Some r => if decide (req_phase r = Pending)
                  then exec (log LvError "[SOURCE_FETCHER]")
                         (with_requests (alter (set_phase Closed) i) s)
                  else s
      | None => s
      end
  | Fetcher.BodyArrives i text =>
      match requests s !! i with
      | Some r => match req_phase r with
                  | AwaitingBody status => exec (on_text i r status text) s
                  | _ => s
                  end
      | None => s
      end
  | Fetcher.BodyFails i =>
      match requests s !! i with
      | Some r => match req_phase r with
                  | AwaitingBody _ =>
                      with_requests (alter (set_phase Closed) i) s
                  | _ => s
                  end
      | None => s
      end
  end.

Definition run (s : State) (evs : list Fetcher.Event) : State := foldl step s evs.
End methods.

End LegacyFetcher.

(** ** The chain monitor ([src/monitor/monitor.ts]) *)

Module ChainMonitor.

(** The fields of a [web3] transaction the monitor reads. *)
Record Transaction := {
  tx_to : option string;
  tx_from : string;
  tx_nonce : Z
}.

(** [!tx.to]: [null] and the empty string are falsy. *)
Definition createsContract (tx : Transaction) : bool :=
  match tx_to tx with
  | None => true
  | Some a => bool_decide (a = "")
  end.

Record Env := {
  GET_CODE_RETRY_PAUSE : option Z;
  GET_BLOCK_PAUSE : option Z;
  INITIAL_GET_BYTECODE_TRIES : option Z
}.

Record Config := {
  getCodeRetryPause : Z;
  getBlockPause : Z;
  initialGetBytecodeTries : Z
}.

Definition config_of (env : Env) : Config :=
  {| getCodeRetryPause := or_default (GET_CODE_RETRY_PAUSE env) (2 * 1000);
     getBlockPause := or_default (GET_BLOCK_PAUSE env) (2 * 1000);
     initialGetBytecodeTries := or_default (INITIAL_GET_BYTECODE_TRIES env) 3 |}.

(** How [web3.eth.getBlock(blockNumber, true)] settles. *)
Inductive BlockOutcome :=
| BlockResolved (block : option (list Transaction))
| BlockRejected (message : string).

(** How [web3.eth.getCode(address)] settles. *)
Inductive CodeOutcome :=
| CodeResolved (bytecode : string)
| CodeRejected (message : string).

(** What the monitor asks of its surroundings, in order. *)
Inductive Effect :=
| GetCode (address : string)
| Logged (lv : LogLevel) (tag : string)
| Pause (ms : Z)
| Assemble (metadataAddress : SourceAddress) (address bytecode : string).

Definition is_GetCode (e : Effect) : bool :=
  match e with GetCode _ => true | _ => false end.

(** The closure of one [processBlock] call: its parameter [blockNumber],
    which the [then] reaction increments, and what the call has asked of its
    surroundings: the [processBytecode(address, tries)] calls it started,
    what it logged and the [setTimeout(this.processBlock, delay,
    blockNumber)] it made. *)
Record BlockCall := {
  blockNumber : Z;
  started : list (string * Z);
  block_logged : list LogEntry;
  next_timers : list (Z * Z)
}.

Definition increment_blockNumber (c : BlockCall) : BlockCall :=
  {| blockNumber := js_increment (blockNumber c); started := started c;
     block_logged := block_logged c; next_timers := next_timers c |}.

Definition start_processBytecode (address : string) (tries : Z) : JS BlockCall () :=
  modify (λ c, {| blockNumber := blockNumber c;
                  started := started c ++ [(address, tries)];
                  block_logged := block_logged c; next_timers := next_timers c |}).

Definition block_log (lv : LogLevel) (tag : string) : JS BlockCall () :=
  modify (λ c, {| blockNumber := blockNumber c; started := started c;
                  block_logged := block_logged c ++ [{| level := lv; loc := tag |}];
                  next_timers := next_timers c |}).

Definition block_setTimeout (d : Z) (n : Z) : JS BlockCall () :=
  modify (λ c, {| blockNumber := blockNumber c; started := started c;
                  block_logged := block_logged c;
                  next_timers := next_timers c ++ [(d, n)] |}).

(** [for (const x of l) { f(x) }] *)
Fixpoint for_of {A} (f : A → JS BlockCall ()) (l : list A) : JS BlockCall () :=
  match l with
  | [] => mret ()
  | x :: l' => f x;; for_of f l'
  end.

Section methods.
Variable cfg : Config.

(** The libraries the monitor calls.  [getContractAddress] is
    [ethers.utils.getContractAddress], a function of the sender and the
    nonce of the transaction, which throws when it cannot read them.
    [hexToBytes] is
    [Web3.utils.hexToBytes]; [readMetadata] is [cborDecode] followed by
    [SourceAddress.fromCborData]; either may throw ([None]).
    [assemble_throws] tells whether the synchronous part of
    [contractAssembler.assemble] throws. *)
Variable getContractAddress : Transaction → Completion string.
Variable hexToBytes : string → option (list Z).
Variable readMetadata : list Z → option SourceAddress.
Variable assemble_throws : SourceAddress → bool.

(** The reactions of [getBlock(blockNumber, true).then(..).catch(..)
    .finally(..)].  Nothing in the [then] reaction catches: when
    [getContractAddress] throws, the rest of the loop and [blockNumber++]
    are skipped and the [catch] reaction runs. *)
Definition block_then (block : option (list Transaction)) : JS BlockCall () :=
  match block with
  | None => block_log LvInfo "[PROCESS_BLOCK]"
  | Some transactions =>
      for_of (λ tx,
                if createsContract tx
                then address ← library_call (getContractAddress tx);
                     start_processBytecode address (initialGetBytecodeTries cfg)
                else mret ())
             transactions;;
      modify increment_blockNumber
  end.

Definition block_catch (message : string) : JS BlockCall () :=
  block_log LvError "[PROCESS_BLOCK:FAILED]".

Definition block_finally : JS BlockCall () :=
  c ← get_state;
  block_setTimeout (getBlockPause cfg) (blockNumber c).

(** One iteration of the block loop, from the call to the end of the
    [finally] reaction, given how [getBlock] settles. *)
Definition processBlock (N : Z) (outcome : BlockOutcome) : BlockCall :=
  exec (try_finally
          (try_catch
             match outcome with
             | BlockResolved block => block_then block
             | BlockRejected message => throw message
             end
             block_catch)
          block_finally)
       {| blockNumber := N; started := []; block_logged := []; next_timers := [] |}.

(** What the [then] reaction does with a non-empty bytecode. *)
Definition handle_bytecode (address bytecode : string) : option (list Effect) :=
  match hexToBytes bytecode with
  | None => None
  | Some numericBytecode =>
      Some match readMetadata numericBytecode with
           | None => [Logged LvError "[GET_CODE:METADATA_READING]"]
           | Some metadataAddress =>
               Assemble metadataAddress address bytecode ::
               if assemble_throws metadataAddress
               then [Logged LvError "[GET_CODE:METADATA_READING]"] else []
           end
  end.

(** [processBytecode(address, retriesLeft)] followed through its
    retries.  [answers k] is how the [k]-th [getCode] call settles.
    [retriesLeft-- <= 0] compares the old value; every later use sees
    the decremented one. *)
Equations? processBytecode (answers : nat → CodeOutcome) (k : nat)
    (address : string) (retriesLeft : Z) : list Effect
    by wf (Z.to_nat retriesLeft) lt :=
  processBytecode answers k address retriesLeft with decide (retriesLeft ≤ 0)%Z := {
    | left _ := [];
    | right _ :=
        GetCode address ::
        match answers k with
        | CodeResolved bytecode =>
            if decide (bytecode = "0x") then
              Logged LvInfo "[PROCESS_BYTECODE]" ::
              Pause (getCodeRetryPause cfg) ::
              processBytecode answers (S k) address (retriesLeft - 1)%Z
            else
              match handle_bytecode address bytecode with
              | Some effects => effects
              | None =>
                  Logged LvError "[GET_CODE]" ::
                  Pause (getCodeRetryPause cfg) ::
                  processBytecode answers (S k) address (retriesLeft - 1)%Z
              end
        | CodeRejected _ =>
            Logged LvError "[GET_CODE]" ::
            Pause (getCodeRetryPause cfg) ::
            processBytecode answers (S k) address (retriesLeft - 1)%Z
        end }.
Proof. all: lia. Qed.
End methods.

End ChainMonitor.

(** ** The injector's verify-and-store path *)

Module Injector.

(** Modelled from the spec: the result of a match, one of [perfect],
    [partial] and [none]; the injector's sources are not in the repository
    snapshot. *)
Inductive MatchResult := perfect | partial | none.

(** Modelled from the spec: the metadata document, of which the injector
    reads [compiler.version] and rewrites [settings.libraries]; the rest of
    the document is carried along unread.  The injector's sources are not
    in the repository snapshot, only its test is. *)
Record Metadata := {
  compiler_version : string;
  settings_libraries : list (string * string);
  remainder : string
}.

(** Modelled from the spec: the metadata with the link addresses as its
    [settings.libraries], keyed by library name. *)
Definition with_libraries (links : list (string * string)) (md : Metadata) : Metadata :=
  {| compiler_version := compiler_version md;
     settings_libraries := links;
     remainder := remainder md |}.

(** Modelled from the spec: what one verification is given.  [links] maps
    library names to addresses and is empty when the caller supplied none;
    [linkReferences] names the libraries the metadata leaves unlinked. *)
Record Input := {
  repository : string;
  chain : string;
  address : string;
  metadata : string;
  sources : list string;
  links : list (string * string);
  linkReferences : list string;
  onchain : list Z
}.

(** Modelled from the spec: the length the tail of runtime bytecode
    declares for its CBOR section (section 6), read from the last two bytes,
    big-endian.  Bytes are numbers from 0 to 255.  The tail is malformed,
    and there is no length, when the bytecode has fewer than two bytes or
    declares more bytes than it holds before them. *)
Definition declared_length (x : list Z) : option nat :=
  match rev x with
  | lo :: hi :: _ =>
      let L := Z.to_nat (hi * 256 + lo) in
      if decide (L + 2 ≤ length x)%nat then Some L else None
  | _ => None
  end.

(** Modelled from the spec: the matcher's [strip] removes the trailing CBOR
    section together with the two bytes of its length; a malformed tail has
    nothing to strip. *)
Definition strip (x : list Z) : option (list Z) :=
  (λ L, take (length x - 2 - L) x) <$> declared_length x.

(** Modelled from the spec: the CBOR section itself, the bytes
    [[end-2-L, end-2)]. *)
Definition cbor_section (x : list Z) : option (list Z) :=
  (λ L, take L (drop (length x - 2 - L) x)) <$> declared_length x.

(** Modelled from the spec: the strongest of the two relations that holds,
    else [none]; bytecode with a malformed tail matches perfectly or not at
    all. *)
Definition matcher (A B : list Z) : MatchResult :=
  if decide (A = B) then perfect
  else match strip A, strip B with
       | Some a, Some b => if decide (a = b) then partial else none
       | _, _ => none
       end.

Section inject.
(** The JSON reader and writer, the IPFS hash of a byte string, the
    compiler driver, and the CBOR reader that extracts the first recognized
    field of the section ([ipfs], [bzzr0] or [bzzr1]) as a source address
    are external to the injector. *)
Variable parse : string → option Metadata.
Variable serialize : Metadata → string.
Variable ipfsHash : string → string.
Variable recompile : string → list string → option (list Z).
Variable cborDecode : list Z → option SourceAddress.

(** Modelled from the spec: [addLibraryLinksToMetadata] injects the link
    addresses into [settings.libraries] of the metadata, keyed by library
    name, and serializes the result again. *)
Definition addLibraryLinksToMetadata (lnk : list (string * string))
    (md : string) (refs : list string) : string :=
  match parse md with
  | Some doc => serialize (with_libraries lnk doc)
  | None => md
  end.

(** Modelled from the spec: the metadata pointer the bytecode carries in its
    CBOR section (section 6). *)
Definition pointer (x : list Z) : option SourceAddress :=
  cbor_section x ≫= cborDecode.

(** Modelled from the spec: the repository layout of section 6, a full match
    at [ipfs/<ipfs-hash-of-metadata>]. *)
Definition ipfs_path (i : Input) : string :=
  repository i +:+ "/ipfs/" +:+ ipfsHash (metadata i).

(** Modelled from the spec: the repository layout of section 6, a
    swarm-indexed full match at [swarm/bzzr0/<hash>] or
    [swarm/bzzr1/<hash>]. *)
Definition swarm_path (i : Input) (kind hash : string) : string :=
  repository i +:+ "/swarm/" +:+ kind +:+ "/" +:+ hash.

(** Modelled from the spec: where a full match is stored.  A contract whose
    bytecode carries a Swarm pointer is stored under that pointer
    (scenario 3 of section 8, and the tests of the injector for [bzzr0] and
    [bzzr1]); every other one under the IPFS hash of the metadata. *)
Definition perfect_path (i : Input) : string :=
  match pointer (onchain i) with
  | Some sa =>
      if decide (origin sa = "bzzr0") then swarm_path i "bzzr0" (id sa)
      else if decide (origin sa = "bzzr1") then swarm_path i "bzzr1" (id sa)
      else ipfs_path i
  | None => ipfs_path i
  end.

(** Modelled from the spec: the repository layout of section 6, a partial
    match at [partial_matches/<chain>/<address>/metadata.json]. *)
Definition partial_path (i : Input) : string :=
  repository i +:+ "/partial_matches/" +:+ chain i +:+ "/" +:+ address i
    +:+ "/metadata.json".

(** Modelled from the spec: step 2 of verify-and-store applies when the
    metadata declares unlinked libraries and the caller supplied link
    addresses. *)
Definition wants_linking (i : Input) : bool :=
  negb (bool_decide (linkReferences i = [])) && negb (bool_decide (links i = [])).

(** Modelled from the spec: the metadata the compiler driver is given, with
    the links injected when step 2 applies. *)
Definition linked_metadata (i : Input) : string :=
  if wants_linking i
  then addLibraryLinksToMetadata (links i) (metadata i) (linkReferences i)
  else metadata i.

(** Modelled from the spec: verify-and-store (section 4.G), for one
    metadata file and one address.  Link the metadata when it declares
    unlinked libraries and the caller supplied addresses; recompile;
    match; on a perfect match write the exact metadata bytes under the
    content-addressed path, on a partial match write the metadata under
    the per-address path, and fail otherwise.  The repository maps paths
    to file contents. *)
Definition inject (i : Input) : JS (list (string * string)) MatchResult :=
  match recompile (linked_metadata i) (sources i) with
  | None => throw "Compilation failed"
  | Some recompiled =>
      match matcher (onchain i) recompiled with
      | perfect =>
          modify (obj_set (perfect_path i) (metadata i));; mret perfect
      | partial =>
          modify (obj_set (partial_path i) (linked_metadata i));; mret partial
      | none => throw "Could not match on-chain deployed bytecode"
      end
  end.
End inject.

End Injector.

(** * Observations and invariants of the source fetcher *)

Import Fetcher.
Local Open Scope nat_scope.

Definition timer_for (d : Z) (hs : list string) (i : nat) : Timer :=
  {| delay := d; arg_sourceHashes := hs; arg_index := i |}.

Definition request_for (cfg : Config) (h : string) (l : nat) (o : Subscription) : Request :=
  {| req_sourceHash := h; req_subscription := l; req_fetchUrl := fetchUrl o;
     req_timeout := fetchTimeout cfg; req_phase := Pending |}.

(** The requests whose promise has not settled and whose closure holds a
    reference to the subscription object at [l]. *)
Definition in_flight (l : nat) (rs : list Request) : list Request :=
  filter (λ r, req_phase r = Pending ∧ req_subscription r = l) rs.

(** The requests for a content hash that have not completed: the response
    has not arrived, or it has and its body has not. *)
Definition outstanding (h : string) (rs : list Request) : list Request :=
  filter (λ r, req_phase r ≠ Closed ∧ req_sourceHash r = h) rs.

(** The requests sent for a content hash, completed or not. *)
Definition sent_for (h : string) (rs : list Request) : list Request :=
  filter (λ r, req_sourceHash r = h) rs.

Definition flag_count (o : Subscription) : nat :=
  if beingProcessed o then 1 else 0.

(** What every handler keeps true: keys and locations in the map are
    distinct, every reference points into the heap, and an object's
    [beingProcessed] flag is set exactly while one request that captured the
    object has not settled. *)
Record wf (s : State) : Prop := {
  wf_keys : NoDup (obj_keys (subscriptions s));
  wf_locs : NoDup (subscriptions s).*2;
  wf_alloc : ∀ l, l ∈ (subscriptions s).*2 → l < length (heap s);
  wf_reqs : ∀ r, r ∈ requests s → req_subscription r < length (heap s);
  wf_flag : ∀ l o, heap s !! l = Some o →
            length (in_flight l (requests s)) = flag_count o
}.

(** The fetch loop is alive: exactly one call of [fetch] is scheduled. *)
Definition alive (s : State) : Prop := length (timers s) = 1.

Definition subscribers_at (hp : list Subscription) (l : nat) : list FetchedFileCallback :=
  match hp !! l with Some o => subscribers o | None => [] end.

(** The callbacks waiting in subscriptions the map still holds. *)
Definition pending_callbacks (s : State) : list FetchedFileCallback :=
  (subscriptions s).*2 ≫= subscribers_at (heap s).

(** The callbacks a [forEach] over [callbacks] calls when [k] calls were
    made before: those up to and including the first one whose call
    throws. *)
Fixpoint reached (outcome : CallbackOutcome) (k : nat) (file : string)
    (callbacks : list FetchedFileCallback) : list FetchedFileCallback :=
  match callbacks with
  | [] => []
  | callback :: rest =>
      callback :: match outcome k callback file with
                  | None => reached outcome (S k) file rest
                  | Some _ => []
                  end
  end.

(** How that [forEach] ends: normally, or with what the first throwing
    callback threw. *)
Fixpoint forEach_ends (outcome : CallbackOutcome) (k : nat) (file : string)
    (callbacks : list FetchedFileCallback) : Completion () :=
  match callbacks with
  | [] => Normal ()
  | callback :: rest =>
      match outcome k callback file with
      | None => forEach_ends outcome (S k) file rest
      | Some message => Throw message
      end
  end.

(** The handler ended normally, or with what a subscriber callback threw
    when it was called with [file]. *)
Definition thrown_by_a_callback (cfg : Config) (file : string)
    (ending : Completion ()) : Prop :=
  ending = Normal () ∨
  ∃ k callback message,
    callback_outcome cfg k callback file = Some message ∧ ending = Throw message.

(** How many times a callback occurs in a list. *)
Definition times (cb : FetchedFileCallback) (l : list FetchedFileCallback) : nat :=
  length (filter (λ x, x = cb) l).
Global Arguments times : simpl never.

(** The callbacks a sequence of events registers: those of the [subscribe]
    calls that do not throw. *)
Definition registered (cfg : Config) (evs : list Event) : list FetchedFileCallback :=
  evs ≫= λ e,
    match e with
    | CallSubscribe _ sa cb =>
        match find_gateway (gateways cfg) (origin sa) with
        | Some _ => [cb]
        | None => []
        end
    | _ => []
    end.

(** Calls made of a callback plus the registrations of it still waiting. *)
Definition account (cb : FetchedFileCallback) (s : State) : nat :=
  times cb (called s).*1 + times cb (pending_callbacks s).

(** The retry the [then] and [catch] reactions of [processBytecode]
    schedule. *)
Definition retry (cfg : ChainMonitor.Config)
    (hexToBytes : string → option (list Z))
    (readMetadata : list Z → option SourceAddress)
    (assemble_throws : SourceAddress → bool)
    (lv : LogLevel) (tag : string) (answers : nat → ChainMonitor.CodeOutcome)
    (k : nat) (address : string) (retriesLeft : Z) : list ChainMonitor.Effect :=
  ChainMonitor.Logged lv tag ::
  ChainMonitor.Pause (ChainMonitor.getCodeRetryPause cfg) ::
  ChainMonitor.processBytecode cfg hexToBytes readMetadata assemble_throws
    answers (S k) address (retriesLeft - 1)%Z.

(** ** What a handler can do

    The changes one handler can make, the invariant that ties the counters,
    the timestamps and the requests to the map, and the ways one visit of
    the loop can go. *)

(** What one handler can do to the fetcher's own fields, the heap and the
    requests.  Timers, recorded calls and log lines are left open. *)
Inductive effect (cfg : Config) (s s' : State) : Prop :=
| eff_same :
    subscriptions s' = subscriptions s → timestamps s' = timestamps s →
    fileCounter s' = fileCounter s → subscriptionCounter s' = subscriptionCounter s →
    heap s' = heap s → requests s' = requests s →
    effect cfg s s'
| eff_cleanup h l o :
    obj_get h (subscriptions s) = Some l → heap s !! l = Some o →
    subscriptions s' = obj_delete h (subscriptions s) →
    timestamps s' = obj_delete h (timestamps s) →
    fileCounter s' = (fileCounter s - 1)%Z →
    subscriptionCounter s' =
      (subscriptionCounter s - Z.of_nat (length (subscribers o)))%Z →
    heap s' = heap s → requests s' = requests s →
    effect cfg s s'
| eff_dispatch h l o :
    obj_get h (subscriptions s) = Some l → heap s !! l = Some o →
    beingProcessed o = false →
    subscriptions s' = subscriptions s → timestamps s' = timestamps s →
    fileCounter s' = fileCounter s → subscriptionCounter s' = subscriptionCounter s →
    heap s' = alter (set_beingProcessed true) l (heap s) →
    requests s' = requests s ++ [request_for cfg h l o] →
    effect cfg s s'
| eff_settle i r p :
    requests s !! i = Some r → req_phase r = Pending → p ≠ Pending →
    subscriptions s' = subscriptions s → timestamps s' = timestamps s →
    fileCounter s' = fileCounter s → subscriptionCounter s' = subscriptionCounter s →
    heap s' = alter (set_beingProcessed false) (req_subscription r) (heap s) →
    requests s' = alter (set_phase p) i (requests s) →
    effect cfg s s'
| eff_close i r :
    requests s !! i = Some r → req_phase r ≠ Pending →
    subscriptions s' = subscriptions s → timestamps s' = timestamps s →
    fileCounter s' = fileCounter s → subscriptionCounter s' = subscriptionCounter s →
    heap s' = heap s →
    requests s' = alter (set_phase Closed) i (requests s) →
    effect cfg s s'
| eff_new now sa cb g :
    find_gateway (gateways cfg) (origin sa) = Some g →
    obj_get (getUniqueIdentifier sa) (subscriptions s) = None →
    subscriptions s' = subscriptions s ++ [(getUniqueIdentifier sa, length (heap s))] →
    timestamps s' = obj_set (getUniqueIdentifier sa) now (timestamps s) →
    fileCounter s' = (fileCounter s + 1)%Z →
    subscriptionCounter s' = (subscriptionCounter s + 1)%Z →
    heap s' = heap s ++
      [push_subscriber cb (new_Subscription sa (createUrl g (id sa)))] →
    requests s' = requests s →
    effect cfg s s'
| eff_push now sa cb l o :
    obj_get (getUniqueIdentifier sa) (subscriptions s) = Some l →
    heap s !! l = Some o →
    subscriptions s' = subscriptions s →
    timestamps s' = obj_set (getUniqueIdentifier sa) now (timestamps s) →
    fileCounter s' = fileCounter s →
    subscriptionCounter s' = (subscriptionCounter s + 1)%Z →
    heap s' = alter (push_subscriber cb) l (heap s) →
    requests s' = requests s →
    effect cfg s s'.

(** The URL of a subscription object is the one its gateway makes. *)
Definition gateway_url (cfg : Config) (o : Subscription) : Prop :=
  ∃ g, find_gateway (gateways cfg) (origin (sourceAddress o)) = Some g ∧
       fetchUrl o = createUrl g (id (sourceAddress o)).

(** What the counters, the timestamps, the objects and the requests have to
    do with the subscription map. *)
Record coherent (cfg : Config) (s : State) : Prop := {
  co_files : fileCounter s = Z.of_nat (length (subscriptions s));
  co_subscribers :
    subscriptionCounter s = Z.of_nat (length (pending_callbacks s));
  co_stamps : ∀ h, obj_has h (timestamps s) = obj_has h (subscriptions s);
  co_objects : ∀ l o, heap s !! l = Some o → gateway_url cfg o;
  co_keys : ∀ h l o, obj_get h (subscriptions s) = Some l → heap s !! l = Some o →
            getUniqueIdentifier (sourceAddress o) = h;
  co_requests : ∀ r, r ∈ requests s →
            req_timeout r = fetchTimeout cfg ∧
            ∃ o, heap s !! req_subscription r = Some o ∧
                 req_fetchUrl r = fetchUrl o ∧
                 req_sourceHash r = getUniqueIdentifier (sourceAddress o)
}.

(** The state [cleanup] leaves when the hash is subscribed with object [o]. *)
Definition cleaned (h : string) (o : Subscription) (s : State) : State :=
  with_logged (λ lg, lg ++ [{| level := LvInfo; loc := "[SOURCE_FETCHER:CLEANUP]" |}])
    (with_subscriptionCounter (λ n, n - Z.of_nat (length (subscribers o)))%Z
       (with_fileCounter (λ n, n - 1)%Z
          (with_subscriptions (obj_delete h)
             (with_timestamps (obj_delete h) s)))).

(** The state a visit leaves when it sends a request. *)
Definition dispatched (cfg : Config) (h : string) (l : nat) (o : Subscription)
    (s : State) : State :=
  with_requests (λ rs, rs ++ [request_for cfg h l o])
    (with_heap (alter (set_beingProcessed true) l) s).

Definition schedule (d : Z) (hs : list string) (i : nat) (s : State) : State :=
  with_timers (λ ts, ts ++ [timer_for d hs i]) s.

(** The ways a visit of [fetch] can go. *)
Inductive visit (cfg : Config) (now : Z) (hs : list string) (i : nat)
    (s : State) : State → Prop :=
| visit_round :
    hs !! i = None →
    visit cfg now hs i s
      (schedule NO_PAUSE (obj_keys (subscriptions s)) STARTING_INDEX s)
| visit_absent h :
    hs !! i = Some h → obj_get h (subscriptions s) = None →
    visit cfg now hs i s (schedule NO_PAUSE hs (i + 1) s)
| visit_busy h l o :
    hs !! i = Some h → obj_get h (subscriptions s) = Some l →
    heap s !! l = Some o → beingProcessed o = true →
    visit cfg now hs i s (schedule NO_PAUSE hs (i + 1) s)
| visit_expired h l o t :
    hs !! i = Some h → obj_get h (subscriptions s) = Some l →
    heap s !! l = Some o → beingProcessed o = false →
    obj_get h (timestamps s) = Some t → (t + cleanupTime cfg < now)%Z →
    visit cfg now hs i s (schedule NO_PAUSE hs (i + 1) (cleaned h o s))
| visit_dispatch h l o :
    hs !! i = Some h → obj_get h (subscriptions s) = Some l →
    heap s !! l = Some o → beingProcessed o = false →
    (∀ t, obj_get h (timestamps s) = Some t → ¬ (t + cleanupTime cfg < now)%Z) →
    visit cfg now hs i s
      (schedule (fetchPause cfg) hs (i + 1) (dispatched cfg h l o s)).

(** ** Rounds and deliveries *)

(** Does the event fire the pending call of [fetch]?  A reachable state has
    one timer, at position 0. *)
Definition fires (e : Event) : bool :=
  match e with TimerFires 0 _ => true | _ => false end.

(** How many of the events fire the pending call of [fetch]. *)
Definition ticks (evs : list Event) : nat := length (filter (λ e, fires e = true) evs).

(** Among the events there is a [subscribe] call of the callback for an
    address with this unique identifier. *)
Definition subscribed_in (evs : list Event) (cb : FetchedFileCallback)
    (h : string) : Prop :=
  ∃ now sa, CallSubscribe now sa cb ∈ evs ∧ getUniqueIdentifier sa = h.

(** Every callback waiting in the map was subscribed for the key it waits
    under. *)
Definition waiting_as_subscribed (evs : list Event) (s : State) : Prop :=
  ∀ h l o cb, obj_get h (subscriptions s) = Some l → heap s !! l = Some o →
              cb ∈ subscribers o → subscribed_in evs cb h.

(** Every recorded call delivers the body that arrived for a request, to a
    callback subscribed for the key the request was sent for. *)
Definition delivered_as_subscribed (evs : list Event) (s : State) : Prop :=
  ∀ cb text, (cb, text) ∈ called s →
    ∃ i r, BodyArrives i text ∈ evs ∧ requests s !! i = Some r ∧
           subscribed_in evs cb (req_sourceHash r).

(** The map and the objects it points to only lose entries. *)
Definition quiet (s s' : State) : Prop :=
  ∀ h l o, obj_get h (subscriptions s') = Some l → heap s' !! l = Some o →
    ∃ o0, obj_get h (subscriptions s) = Some l ∧ heap s !! l = Some o0 ∧
          subscribers o = subscribers o0.

(** Requests keep their place and the key they were sent for. *)
Definition requests_stay (s s' : State) : Prop :=
  ∀ i r, requests s !! i = Some r →
    ∃ r', requests s' !! i = Some r' ∧ req_sourceHash r' = req_sourceHash r.

(** ** The block loop of the chain monitor

    [start] and the chain of [processBlock] calls the timers make, and what
    to look for in the effects of [processBytecode]. *)

Module MonitorLoop.
Import ChainMonitor.

(** The addresses of the contracts the transactions create, as far as the
    loop over them gets: up to the first transaction for which
    [getContractAddress] throws. *)
Fixpoint created (getContractAddress : Transaction → Completion string)
    (transactions : list Transaction) : list string :=
  match transactions with
  | [] => []
  | tx :: rest =>
      if createsContract tx
      then match getContractAddress tx with
           | Normal address => address :: created getContractAddress rest
           | Throw _ => []
           end
      else created getContractAddress rest
  end.

(** How that loop ends: normally, or with what [getContractAddress]
    threw. *)
Fixpoint loop_ends (getContractAddress : Transaction → Completion string)
    (transactions : list Transaction) : Completion () :=
  match transactions with
  | [] => Normal ()
  | tx :: rest =>
      if createsContract tx
      then match getContractAddress tx with
           | Normal _ => loop_ends getContractAddress rest
           | Throw message => Throw message
           end
      else loop_ends getContractAddress rest
  end.

(** Did [getBlock] return a block, and did the loop over its transactions
    get to its end? *)
Definition gone_through (getContractAddress : Transaction → Completion string)
    (outcome : BlockOutcome) : bool :=
  match outcome with
  | BlockResolved (Some transactions) =>
      match loop_ends getContractAddress transactions with
      | Normal _ => true
      | Throw _ => false
      end
  | _ => false
  end.

Definition is_Assemble (e : Effect) : bool :=
  match e with Assemble _ _ _ => true | _ => false end.

Definition is_Pause (e : Effect) : bool :=
  match e with Pause _ => true | _ => false end.

(** What comes after the first call of the assembler. *)
Fixpoint after_assemble (l : list Effect) : list Effect :=
  match l with
  | [] => []
  | Assemble _ _ _ :: l' => l'
  | _ :: l' => after_assemble l'
  end.

(** How many [getCode] calls, pauses and calls of the assembler. *)
Definition counts (l : list Effect) : nat * nat * nat :=
  (length (filter (λ e, is_GetCode e = true) l),
   length (filter (λ e, is_Pause e = true) l),
   length (filter (λ e, is_Assemble e = true) l)).

Section loop.
Variable cfg : Config.
Variable getContractAddress : Transaction → Completion string.
Variable hexToBytes : string → option (list Z).

(** The calls of [processBlock] from the first one on: each runs to the end
    of its [finally] reaction, and the timer that reaction sets makes the
    next call.  [outcomes] tells how the successive [getBlock] calls
    settle.  Each entry is the block number asked for and the closure of the
    call when it is done. *)
Fixpoint block_loop (N : Z) (outcomes : list BlockOutcome) : list (Z * BlockCall) :=
  match outcomes with
  | [] => []
  | outcome :: rest =>
      let c := processBlock cfg getContractAddress N outcome in
      (N, c) :: match next_timers c with
                | (_, next) :: _ => block_loop next rest
                | [] => []
                end
  end.

(** [start]: [parseInt(rawStartBlock) || await getBlockNumber()], then the
    first [processBlock].  The head of the chain is asked for only when the
    setting is missing, unparsable or 0; [None] stands for a rejected
    [getBlockNumber], which ends [start] before any block is processed. *)
Definition start (rawStartBlock : option Z) (head : option Z)
    (outcomes : list BlockOutcome) : list (Z * BlockCall) :=
  let from_head :=
    match head with
    | Some startBlock => block_loop startBlock outcomes
    | None => []
    end in
  match rawStartBlock with
  | Some n => if decide (n = 0)%Z then from_head else block_loop n outcomes
  | None => from_head
  end.

(** An answer of [getCode] that leads to another try: no code yet, a
    rejection, or bytecode [hexToBytes] cannot read. *)
Definition inconclusive (outcome : CodeOutcome) : bool :=
  match outcome with
  | CodeResolved bytecode =>
      if decide (bytecode = "0x") then true
      else match hexToBytes bytecode with None => true | Some _ => false end
  | CodeRejected _ => true
  end.
End loop.
End MonitorLoop.

(** The effects of the [processBytecode] calls one [processBlock] call
    started, one call after the other.  [answers address k] is how the
    [k]-th [getCode] call for [address] settles. *)
Definition started_effects (cfg : ChainMonitor.Config)
    (hexToBytes : string → option (list Z))
    (readMetadata : list Z → option SourceAddress)
    (assemble_throws : SourceAddress → bool)
    (answers : string → nat → ChainMonitor.CodeOutcome)
    (c : ChainMonitor.BlockCall) : list ChainMonitor.Effect :=
  ChainMonitor.started c ≫= λ call,
    ChainMonitor.processBytecode cfg hexToBytes readMetadata assemble_throws
      (answers call.1) 0 call.1 call.2.

(** ** Keys of the older fetcher *)

(** Strings made of decimal digits only: what a number turns into when it
    is used as a property key. *)
Definition is_digit (c : Ascii.ascii) : bool :=
  (48 <=? Ascii.nat_of_ascii c) && (Ascii.nat_of_ascii c <=? 57).

Fixpoint all_digits (s : string) : bool :=
  match s with
  | EmptyString => true
  | String c s' => is_digit c && all_digits s'
  end.

(** No [subscribe] call among the events is for an address whose unique
    identifier is a decimal number. *)
Definition no_numeric_key (evs : list Event) : bool :=
  forallb (λ e, match e with
                | CallSubscribe _ sa _ => negb (all_digits (getUniqueIdentifier sa))
                | _ => true
                end) evs.

(** No key of the map is the decimal rendering of a number. *)
Definition no_index_key (s : LegacyFetcher.State) : Prop :=
  ∀ n : nat, obj_has (pretty n) (LegacyFetcher.subscriptions s) = false.

(** What stays true of the older fetcher while no numeric key is
    subscribed. *)
Record legacy_idle (s : LegacyFetcher.State) : Prop := {
  idle_requests : LegacyFetcher.requests s = [];
  idle_called : LegacyFetcher.called s = [];
  idle_timers : length (LegacyFetcher.timers s) ≤ 1;
  idle_keys : no_index_key s
}.

(** ** Proof steps

    Unfolding the handler combinators, and closing the goals that say which
    fields a handler left alone. *)

Ltac js_unfold :=
  unfold mbind, mret, JS_bind, JS_ret, modify, get_state, throw, exec,
         the_subscription, deref, update, log, setTimeout, nodeFetch in *.

Ltac by_fields := solve [reflexivity | eassumption | done].

(** A flag cannot be both set and clear. *)
Ltac clash Hh :=
  let H := fresh in
  intros H; exfalso; exact (Bool.diff_true_false (eq_trans (eq_sym Hh) H)).

(** Counting effects of one kind in a list that is written out. *)
Ltac count_effects :=
  rewrite ?filter_cons, ?filter_nil;
  cbn [ChainMonitor.is_GetCode MonitorLoop.is_Pause MonitorLoop.is_Assemble];
  repeat first [rewrite decide_True by done | rewrite decide_False by done];
  cbn [length].

(** ** Sample inputs *)

Definition default_env : Env :=
  {| IPFS_URL := None; MONITOR_FETCH_TIMEOUT := None;
     MONITOR_FETCH_PAUSE := None; MONITOR_CLEANUP_PERIOD := None |}.

Definition default_cfg : Config := config_of default_env returning.

Definition legacy_cfg : LegacyFetcher.Config :=
  LegacyFetcher.config_of default_env returning.

(** Callback 7 throws whenever it is called; every other callback
    returns. *)
Definition throwing_seven : CallbackOutcome :=
  λ _ callback _, if decide (callback = 7) then Some "callback failed" else None.

Definition throwing_cfg : Config := config_of default_env throwing_seven.

(** A fetcher configured to drop a subscription after half a second. *)
Definition impatient_cfg : Config :=
  config_of
    {| IPFS_URL := None; MONITOR_FETCH_TIMEOUT := None;
       MONITOR_FETCH_PAUSE := None; MONITOR_CLEANUP_PERIOD := Some 500%Z |}
    returning.

Definition legacy_throwing_cfg : LegacyFetcher.Config :=
  LegacyFetcher.config_of default_env throwing_seven.

Definition QmA : SourceAddress := {| origin := "ipfs"; id := "QmA" |}.

Definition ipfs_gateway : SimpleGateway :=
  {| origins := ["ipfs"];
     baseUrl := "https://ipfs.infura.io:5001/api/v0/cat?arg=" |}.

(** The subscription object of [QmA] with one subscriber. *)
Definition idle_subscription : Subscription :=
  {| sourceAddress := QmA;
     fetchUrl := "https://ipfs.infura.io:5001/api/v0/cat?arg=QmA";
     beingProcessed := false; subscribers := [7] |}.

Definition busy_subscription : Subscription :=
  set_beingProcessed true idle_subscription.

(** One subscriber; the first round has started and is about to visit the
    hash. *)
Definition stale_trace : list Event :=
  [CallSubscribe 0 QmA 7; TimerFires 0 0].

(** A request is in flight for the only subscribed hash. *)
Definition waiting_trace : list Event :=
  [CallSubscribe 0 QmA 7; TimerFires 0 0; TimerFires 0 1].

Definition waiting_request : Request :=
  request_for default_cfg "ipfs:QmA" 0 idle_subscription.

(** Two subscribers; the response of the request has arrived with status
    200 and its body is awaited. *)
Definition answered_trace : list Event :=
  [CallSubscribe 0 QmA 7; CallSubscribe 0 QmA 8; TimerFires 0 0;
   TimerFires 0 1; FetchResolves 0 200].

(** The response of the request has arrived, its body has not, and the
    next round is about to visit the hash again. *)
Definition headers_trace : list Event :=
  [CallSubscribe 0 QmA 7; TimerFires 0 0; TimerFires 0 1;
   FetchResolves 0 200; TimerFires 0 1001].

(** The request failed and the next round is about to visit the hash. *)
Definition failed_trace : list Event :=
  [CallSubscribe 0 QmA 7; TimerFires 0 0; TimerFires 0 1;
   FetchRejects 0 "network timeout"; TimerFires 0 1001].

Definition monitor_cfg : ChainMonitor.Config :=
  ChainMonitor.config_of
    {| ChainMonitor.GET_CODE_RETRY_PAUSE := None;
       ChainMonitor.GET_BLOCK_PAUSE := None;
       ChainMonitor.INITIAL_GET_BYTECODE_TRIES := None |}.

Definition no_hex (_ : string) : option (list Z) := None.
Definition no_metadata (_ : list Z) : option SourceAddress := None.
Definition never_throws (_ : SourceAddress) : bool := false.

(** The node never has the code. *)
Definition always_empty (_ : nat) : ChainMonitor.CodeOutcome :=
  ChainMonitor.CodeResolved "0x".

(** A toy JSON reader and writer, hash and compiler for the injector. *)
Definition toy_parse (s : string) : option Injector.Metadata :=
  Some {| Injector.compiler_version := "0.6.0";
          Injector.settings_libraries := [];
          Injector.remainder := s |}.

Definition toy_serialize (md : Injector.Metadata) : string :=
  Injector.remainder md +:+ "+" +:+
  String.concat "," ((λ kv, kv.1 +:+ "=" +:+ kv.2) <$> Injector.settings_libraries md).

Definition toy_hash (s : string) : string := "Qm" +:+ s.

(** The toy compiler gives bytecode whose CBOR section is the one byte 187,
    and 176 for the source ["Swarm"]. *)
Definition toy_compile (_ : string) (sources : list string) : option (list Z) :=
  if decide (sources = ["Swarm"]) then Some [96; 176; 0; 1]%Z
  else Some [96; 187; 0; 1]%Z.

(** The toy CBOR reader: the section 176 holds a [bzzr0] pointer, the
    sections 187 and 170 an [ipfs] pointer. *)
Definition toy_cbor (section : list Z) : option SourceAddress :=
  if decide (section = [176]%Z) then Some {| origin := "bzzr0"; id := "ab" |}
  else if decide (section = [187]%Z) then Some {| origin := "ipfs"; id := "QmM" |}
  else if decide (section = [170]%Z) then Some {| origin := "ipfs"; id := "QmN" |}
  else None.

Definition exact_input : Injector.Input :=
  {| Injector.repository := "repo"; Injector.chain := "localhost";
     Injector.address := "0xA1"; Injector.metadata := "M";
     Injector.sources := ["S"]; Injector.links := [];
     Injector.linkReferences := [];
     Injector.onchain := [96; 187; 0; 1]%Z |}.

Definition linked_input : Injector.Input :=
  {| Injector.repository := "repo"; Injector.chain := "localhost";
     Injector.address := "0xA1"; Injector.metadata := "M";
     Injector.sources := ["S"]; Injector.links := [("Library", "0xb2")];
     Injector.linkReferences := ["Library"];
     Injector.onchain := [96; 170; 0; 1]%Z |}.

(** A contract whose bytecode carries a [bzzr0] pointer. *)
Definition swarm_input : Injector.Input :=
  {| Injector.repository := "repo"; Injector.chain := "localhost";
     Injector.address := "0xA2"; Injector.metadata := "M";
     Injector.sources := ["Swarm"]; Injector.links := [];
     Injector.linkReferences := [];
     Injector.onchain := [96; 176; 0; 1]%Z |}.

(** A Swarm address and the gateway that serves it. *)
Definition swarm_address : SourceAddress := {| origin := "bzzr1"; id := "ab" |}.

Definition swarm_gateway : SimpleGateway :=
  {| origins := ["bzzr0"; "bzzr1"];
     baseUrl := "https://swarm-gateways.net/bzz-raw:/" |}.

Definition QmB : SourceAddress := {| origin := "ipfs"; id := "QmB" |}.

(** Two hashes are subscribed and a round over both is about to start. *)
Definition round_trace : list Event :=
  [CallSubscribe 0 QmA 7; CallSubscribe 0 QmB 8; TimerFires 0 0].

(** The body of the response arrives after two subscribers registered. *)
Definition delivered_trace : list Event :=
  answered_trace ++ [BodyArrives 0 "file"].

(** A transaction that creates a contract. *)
Definition creation : ChainMonitor.Transaction :=
  {| ChainMonitor.tx_to := None; ChainMonitor.tx_from := "0xf00";
     ChainMonitor.tx_nonce := 0 |}.

(** [getContractAddress] throws when the transaction names no sender. *)
Definition sender_address (tx : ChainMonitor.Transaction) : Completion string :=
  if decide (ChainMonitor.tx_from tx = "") then Throw "missing from address"
  else Normal (ChainMonitor.tx_from tx).

(** A transaction that creates a contract and names no sender. *)
Definition anonymous_creation : ChainMonitor.Transaction :=
  {| ChainMonitor.tx_to := None; ChainMonitor.tx_from := "";
     ChainMonitor.tx_nonce := 0 |}.

(** No block yet, then a block, then a block with a transaction for which
    [getContractAddress] throws, twice, then a failed request. *)
Definition sample_outcomes : list ChainMonitor.BlockOutcome :=
  [ChainMonitor.BlockResolved None; ChainMonitor.BlockResolved (Some [creation]);
   ChainMonitor.BlockResolved (Some [anonymous_creation]);
   ChainMonitor.BlockResolved (Some [anonymous_creation]);
   ChainMonitor.BlockRejected "timeout"].

(** Bytecode that reads as hex and carries the metadata address [QmA]. *)
Definition any_hex (_ : string) : option (list Z) := Some [161; 100]%Z.
Definition metadata_QmA (_ : list Z) : option SourceAddress := Some QmA.

(** The node has no code at first and then returns it. *)
Definition code_on_second_try (k : nat) : ChainMonitor.CodeOutcome :=
  match k with
  | 0 => ChainMonitor.CodeResolved "0x"
  | _ => ChainMonitor.CodeResolved "0x6080"
  end.

(** * Properties *)

(** ** Dictionary objects *)

Section js_object_facts.
Context {V : Type}.
Implicit Types (o : list (string * V)) (k : string) (v : V).

Lemma obj_get_set_eq k v o : obj_get k (obj_set k v o) = Some v.
Proof.
  induction o as [|[k' v'] o IH]; simpl.
  - by rewrite decide_True.
  - destruct (decide (k = k')) as [->|Hne]; simpl.
    + by rewrite decide_True.
    + by rewrite decide_False.
Qed.

Lemma obj_get_set_ne k k' v o : k ≠ k' → obj_get k' (obj_set k v o) = obj_get k' o.
Proof.
  intros Hne. induction o as [|[k0 v0] o IH]; simpl.
  - by rewrite decide_False.
  - destruct (decide (k = k0)) as [->|Hne0]; simpl.
    + by rewrite !decide_False.
    + destruct (decide (k' = k0)); [done | apply IH].
Qed.

Lemma obj_get_delete_eq k o : obj_get k (obj_delete k o) = None.
Proof.
  induction o as [|[k' v'] o IH]; simpl; [done|].
  destruct (decide (k = k')) as [->|Hne]; simpl; [done|].
  by rewrite decide_False.
Qed.

Lemma obj_get_delete_ne k k' o : k ≠ k' → obj_get k' (obj_delete k o) = obj_get k' o.
Proof.
  intros Hne. induction o as [|[k0 v0] o IH]; simpl; [done|].
  destruct (decide (k = k0)) as [->|Hne0]; simpl.
  - by rewrite decide_False.
  - destruct (decide (k' = k0)); [done | apply IH].
Qed.

Lemma obj_get_None k o : obj_get k o = None ↔ k ∉ obj_keys o.
Proof.
  unfold obj_keys. induction o as [|[k' v'] o IH]; simpl.
  - split; [intros _; apply not_elem_of_nil | done].
  - rewrite not_elem_of_cons. destruct (decide (k = k')) as [->|Hne].
    + split; [done | intros [? _]; done].
    + rewrite IH. tauto.
Qed.

Lemma obj_get_Some_elem k v o : obj_get k o = Some v → (k, v) ∈ o.
Proof.
  induction o as [|[k' v'] o IH]; simpl; [done|].
  destruct (decide (k = k')) as [->|Hne].
  - intros [= ->]. apply list_elem_of_here.
  - intros H. apply list_elem_of_further, IH, H.
Qed.

Lemma obj_has_true k o : obj_has k o = true ↔ is_Some (obj_get k o).
Proof.
  unfold obj_has. destruct (obj_get k o); split; eauto; try done.
Qed.

Lemma obj_set_fresh k v o : obj_get k o = None → obj_set k v o = o ++ [(k, v)].
Proof.
  induction o as [|[k' v'] o IH]; simpl; [done|].
  destruct (decide (k = k')); [done|]. intros H. by rewrite IH.
Qed.

Lemma obj_keys_set_present k v o :
  is_Some (obj_get k o) → obj_keys (obj_set k v o) = obj_keys o.
Proof.
  unfold obj_keys. induction o as [|[k' v'] o IH]; simpl.
  - intros [? ?]; done.
  - destruct (decide (k = k')) as [->|Hne]; [done|].
    intros H. rewrite !fmap_cons. f_equal. by apply IH.
Qed.

Lemma obj_delete_absent k o : obj_get k o = None → obj_delete k o = o.
Proof.
  induction o as [|[k' v'] o IH]; simpl; [done|].
  destruct (decide (k = k')); [done|]. intros H. by rewrite IH.
Qed.

(** With distinct keys, deleting a key takes out exactly its entry. *)
Lemma obj_delete_split k v o :
  obj_get k o = Some v →
  ∃ o1 o2, o = o1 ++ (k, v) :: o2 ∧
           obj_get k o1 = None ∧
           (k ∉ obj_keys o2 → obj_delete k o = o1 ++ o2).
Proof.
  induction o as [|[k' v'] o IH]; simpl; [done|].
  destruct (decide (k = k')) as [->|Hne].
  - intros [= ->]. exists [], o. split_and!; [done..|].
    intros Hk. simpl. apply obj_delete_absent. by apply obj_get_None.
  - intros H. destruct (IH H) as (o1 & o2 & -> & Hn & Hd).
    exists ((k', v') :: o1), o2. split_and!; [done| |].
    + simpl. by rewrite decide_False.
    + intros Hk. simpl. by rewrite Hd.
Qed.

Lemma obj_delete_sublist k o : sublist (obj_delete k o) o.
Proof.
  induction o as [|[k' v'] o IH]; simpl; [done|].
  destruct (decide (k = k')); [by apply sublist_cons | by apply sublist_skip].
Qed.

Lemma obj_keys_delete_NoDup k o : NoDup (obj_keys o) → NoDup (obj_keys (obj_delete k o)).
Proof.
  unfold obj_keys. intros H. refine (sublist_NoDup _ _ H _).
  apply fmap_sublist, obj_delete_sublist.
Qed.

Lemma obj_keys_set_NoDup k v o : NoDup (obj_keys o) → NoDup (obj_keys (obj_set k v o)).
Proof.
  intros H. destruct (obj_get k o) as [v'|] eqn:E.
  - rewrite obj_keys_set_present; [done | by eexists].
  - rewrite obj_set_fresh by done. unfold obj_keys in *. rewrite fmap_app. simpl.
    apply NoDup_app. split_and!; [done| |apply NoDup_singleton].
    intros x Hx ->%list_elem_of_singleton. by apply obj_get_None in E.
Qed.
End js_object_facts.


(** ** What each method of the fetcher does *)

Lemma cleanup_run h l o s :
  obj_get h (subscriptions s) = Some l → heap s !! l = Some o →
  cleanup h s =
    (Normal (),
     with_logged (λ lg, lg ++ [{| level := LvInfo; loc := "[SOURCE_FETCHER:CLEANUP]" |}])
       (with_subscriptionCounter (λ n, n - Z.of_nat (length (subscribers o)))%Z
          (with_fileCounter (λ n, n - 1)%Z
             (with_subscriptions (obj_delete h)
                (with_timestamps (obj_delete h) s))))).
Proof.
  intros Hl Ho. unfold cleanup. js_unfold. cbn. rewrite Hl. cbn. rewrite Ho. reflexivity.
Qed.

(** A [forEach] over callbacks stops at the first one that throws. *)
Lemma reached_prefix outcome k file cbs : reached outcome k file cbs `prefix_of` cbs.
Proof.
  revert k. induction cbs as [|cb cbs IH]; intros k; cbn; [done|].
  destruct (outcome k cb file).
  - by apply prefix_cons, prefix_nil.
  - by apply prefix_cons.
Qed.

Lemma reached_all outcome k file cbs :
  (∀ j cb, cbs !! j = Some cb → outcome (k + j) cb file = None) →
  reached outcome k file cbs = cbs ∧ forEach_ends outcome k file cbs = Normal ().
Proof.
  revert k. induction cbs as [|cb cbs IH]; intros k H; cbn; [done|].
  pose proof (H 0 cb eq_refl) as H0. rewrite Nat.add_0_r in H0. rewrite H0.
  destruct (IH (S k)) as [-> ->]; [|done].
  intros j cb' Hj. rewrite Nat.add_succ_comm. by apply (H (S j)).
Qed.

Lemma reached_throw outcome k file cbs message :
  forEach_ends outcome k file cbs = Throw message →
  ∃ j cb, cbs !! j = Some cb ∧ outcome (k + j) cb file = Some message ∧
          (∀ j' cb', j' < j → cbs !! j' = Some cb' → outcome (k + j') cb' file = None) ∧
          reached outcome k file cbs = take (S j) cbs.
Proof.
  revert k. induction cbs as [|cb cbs IH]; intros k; cbn; [done|].
  destruct (outcome k cb file) as [m|] eqn:E.
  - intros [= ->]. exists 0, cb. rewrite Nat.add_0_r. split_and!; [done..|lia|].
    by rewrite take_0.
  - intros (j & cb' & Hj & Hm & Hbefore & Hr)%IH. exists (S j), cb'.
    rewrite <- Nat.add_succ_comm. split_and!; [done..| |by rewrite Hr].
    intros [|j'] cb'' Hlt Hj'.
    + cbn in Hj'. injection Hj' as <-. by rewrite Nat.add_0_r.
    + rewrite <- Nat.add_succ_comm. apply Hbefore; [lia|done].
Qed.

Lemma forEach_invoke cfg file cbs s :
  forEach (invoke cfg file) cbs s =
    (forEach_ends (callback_outcome cfg) (length (called s)) file cbs,
     with_called
       (λ c, c ++ ((λ cb, (cb, file))
                     <$> reached (callback_outcome cfg) (length (called s)) file cbs))
       s).
Proof.
  revert s. induction cbs as [|cb cbs IH]; intros s; simpl.
  - unfold mret, JS_ret, with_called. destruct s; cbn. by rewrite app_nil_r.
  - unfold mbind at 1, JS_bind at 1, invoke.
    unfold mbind at 1, JS_bind at 1, get_state.
    unfold mbind at 1, JS_bind at 1, modify.
    destruct (callback_outcome cfg (length (called s)) cb file) as [message|].
    + unfold throw. destruct s; reflexivity.
    + unfold mret, JS_ret. rewrite IH.
      destruct s as [subs ts fc sc hp rq tm cl lg]; unfold with_called; cbn.
      rewrite length_app, Nat.add_1_r. cbn. by rewrite <- app_assoc.
Qed.

Lemma notifySubscribers_absent cfg h file s :
  obj_get h (subscriptions s) = None → notifySubscribers cfg h file s = (Normal (), s).
Proof.
  intros H. unfold notifySubscribers, obj_has. js_unfold. cbn. by rewrite H.
Qed.

Lemma notifySubscribers_run cfg h file l o s :
  obj_get h (subscriptions s) = Some l → heap s !! l = Some o →
  notifySubscribers cfg h file s =
    (forEach_ends (callback_outcome cfg) (length (called s)) file (subscribers o),
     with_called
       (λ c, c ++ ((λ cb, (cb, file))
                     <$> reached (callback_outcome cfg) (length (called s)) file
                           (subscribers o)))
       (with_logged (λ lg, lg ++ [{| level := LvInfo; loc := "[SOURCE_FETCHER:NOTIFY]" |}])
          (cleanup h s).2)).
Proof.
  intros Hl Ho. unfold notifySubscribers, obj_has.
  unfold mbind at 1, JS_bind at 1, get_state. rewrite Hl. cbn.
  unfold mbind at 1, JS_bind at 1, the_subscription at 1. rewrite Hl.
  unfold mbind at 1, JS_bind at 1. rewrite (cleanup_run h l o s Hl Ho). cbn.
  unfold mbind at 1, JS_bind at 1, deref. cbn. rewrite Ho.
  unfold mbind at 1, JS_bind at 1, log, modify. cbn.
  by rewrite forEach_invoke.
Qed.

Section fetch_cases.
Variable cfg : Config.
Implicit Types (s : State) (h : string).

Lemma fetch_round now hs i s :
  hs !! i = None →
  fetch cfg now hs i s =
    (Normal (), with_timers (λ ts, ts ++
       [timer_for NO_PAUSE (obj_keys (subscriptions s)) STARTING_INDEX]) s).
Proof. intros H. unfold fetch. rewrite H. reflexivity. Qed.

Lemma fetch_absent now hs i h s :
  hs !! i = Some h → obj_get h (subscriptions s) = None →
  fetch cfg now hs i s =
    (Normal (), with_timers (λ ts, ts ++ [timer_for NO_PAUSE hs (i + 1)]) s).
Proof.
  intros H Hn. unfold fetch. rewrite H. js_unfold. cbn. rewrite Hn. reflexivity.
Qed.

Lemma fetch_busy now hs i h l o s :
  hs !! i = Some h → obj_get h (subscriptions s) = Some l →
  heap s !! l = Some o → beingProcessed o = true →
  fetch cfg now hs i s =
    (Normal (), with_timers (λ ts, ts ++ [timer_for NO_PAUSE hs (i + 1)]) s).
Proof.
  intros H Hl Ho Hb. unfold fetch. rewrite H. js_unfold. cbn.
  rewrite Hl. cbn. rewrite Ho, Hb. reflexivity.
Qed.

Lemma fetch_expired now hs i h l o t s :
  hs !! i = Some h → obj_get h (subscriptions s) = Some l →
  heap s !! l = Some o → beingProcessed o = false →
  obj_get h (timestamps s) = Some t → (t + cleanupTime cfg < now)%Z →
  fetch cfg now hs i s =
    (Normal (), with_timers (λ ts, ts ++ [timer_for NO_PAUSE hs (i + 1)])
                  (cleanup h s).2).
Proof.
  intros H Hl Ho Hb Ht Hlt. unfold fetch. rewrite H.
  unfold mbind at 1, JS_bind at 1, get_state. rewrite Hl.
  unfold mbind at 1, JS_bind at 1, deref. rewrite Ho, Hb.
  unfold mbind at 1, JS_bind at 1, shouldCleanup.
  unfold mbind at 1, JS_bind at 1, get_state. rewrite Ht.
  unfold mret, JS_ret. rewrite bool_decide_true by done.
  unfold mbind at 1, JS_bind at 1. rewrite (cleanup_run h l o s Hl Ho). reflexivity.
Qed.

Lemma fetch_dispatch now hs i h l o s :
  hs !! i = Some h → obj_get h (subscriptions s) = Some l →
  heap s !! l = Some o → beingProcessed o = false →
  (∀ t, obj_get h (timestamps s) = Some t → ¬ (t + cleanupTime cfg < now)%Z) →
  fetch cfg now hs i s =
    (Normal (),
     with_timers (λ ts, ts ++ [timer_for (fetchPause cfg) hs (i + 1)])
       (with_requests (λ rs, rs ++ [request_for cfg h l o])
          (with_heap (alter (set_beingProcessed true) l) s))).
Proof.
  intros H Hl Ho Hb Ht. unfold fetch. rewrite H.
  unfold mbind at 1, JS_bind at 1, get_state. rewrite Hl.
  unfold mbind at 1, JS_bind at 1, deref. rewrite Ho, Hb.
  unfold mbind at 1, JS_bind at 1, shouldCleanup.
  unfold mbind at 1, JS_bind at 1, get_state.
  destruct (obj_get h (timestamps s)) as [t|] eqn:E.
  - unfold mret, JS_ret. rewrite bool_decide_false by eauto. reflexivity.
  - reflexivity.
Qed.

Lemma subscribe_throws now sa cb s :
  find_gateway (gateways cfg) (origin sa) = None →
  subscribe cfg now sa cb s = (Throw ("Gateway not found for " +:+ origin sa), s).
Proof.
  intros H. unfold subscribe, findGateway. rewrite H. reflexivity.
Qed.

Lemma subscribe_new now sa cb g s :
  find_gateway (gateways cfg) (origin sa) = Some g →
  obj_get (getUniqueIdentifier sa) (subscriptions s) = None →
  subscribe cfg now sa cb s =
    (Normal (),
     with_logged (λ lg, lg ++ [{| level := LvInfo; loc := "[SOURCE_FETCHER:NEW_SUBSCRIPTION]" |}])
       (with_subscriptionCounter (λ n, n + 1)%Z
          (with_heap (λ hp, hp ++
               [push_subscriber cb (new_Subscription sa (createUrl g (id sa)))])
             (with_timestamps (obj_set (getUniqueIdentifier sa) now)
                (with_fileCounter (λ n, n + 1)%Z
                   (with_subscriptions
                      (λ m, m ++ [(getUniqueIdentifier sa, length (heap s))]) s)))))).
Proof.
  intros Hg Hn. unfold subscribe, findGateway, obj_has. rewrite Hg.
  js_unfold. cbn. rewrite Hn. cbn.
  rewrite obj_get_set_eq. cbn.
  rewrite lookup_app_r by lia. rewrite Nat.sub_diag. cbn.
  destruct s as [subs ts fc sc hp rq tm cl lg]; cbn in *.
  unfold with_logged, with_subscriptionCounter, with_heap, with_timestamps,
    with_fileCounter, with_subscriptions; cbn.
  rewrite obj_set_fresh by done. do 2 f_equal.
  rewrite alter_app_r_alt by lia. by rewrite Nat.sub_diag.
Qed.

Lemma subscribe_existing now sa cb g l o s :
  find_gateway (gateways cfg) (origin sa) = Some g →
  obj_get (getUniqueIdentifier sa) (subscriptions s) = Some l →
  heap s !! l = Some o →
  subscribe cfg now sa cb s =
    (Normal (),
     with_logged (λ lg, lg ++ [{| level := LvInfo; loc := "[SOURCE_FETCHER:NEW_SUBSCRIPTION]" |}])
       (with_subscriptionCounter (λ n, n + 1)%Z
          (with_heap (alter (push_subscriber cb) l)
             (with_timestamps (obj_set (getUniqueIdentifier sa) now) s)))).
Proof.
  intros Hg Hl Ho. unfold subscribe, findGateway, obj_has. rewrite Hg.
  js_unfold. cbn. rewrite Hl. cbn. rewrite Hl. cbn. rewrite Ho. reflexivity.
Qed.
End fetch_cases.


(** ** The invariant is kept *)

Lemma alter_middle {A} (f : A → A) (l : list A) i x :
  l !! i = Some x → alter f i l = take i l ++ f x :: drop (S i) l.
Proof.
  intros H. rewrite <- (take_drop_middle l i x H) at 1.
  assert (Hlen : length (take i l) = i).
  { rewrite length_take. apply lookup_lt_Some in H. lia. }
  rewrite alter_app_r_alt by lia. rewrite Hlen, Nat.sub_diag. reflexivity.
Qed.

Lemma in_flight_app l rs1 rs2 :
  in_flight l (rs1 ++ rs2) = in_flight l rs1 ++ in_flight l rs2.
Proof. apply filter_app. Qed.

Lemma in_flight_settle l i r p rs :
  rs !! i = Some r → req_phase r = Pending → p ≠ Pending →
  length (in_flight l rs) =
    length (in_flight l (alter (set_phase p) i rs))
    + (if decide (req_subscription r = l) then 1 else 0).
Proof.
  intros Hi Hp Hne. rewrite (alter_middle _ _ _ _ Hi).
  rewrite <- (take_drop_middle rs i r Hi) at 1.
  rewrite !in_flight_app, !length_app.
  change (r :: drop (S i) rs) with ([r] ++ drop (S i) rs).
  change (set_phase p r :: drop (S i) rs) with ([set_phase p r] ++ drop (S i) rs).
  rewrite !in_flight_app, !length_app.
  unfold in_flight at 2 5. rewrite !filter_cons, !filter_nil. cbn.
  destruct (decide (req_subscription r = l)) as [Hl|Hl].
  - rewrite decide_True by done. rewrite decide_False by (intros [? _]; done).
    cbn. lia.
  - rewrite decide_False by (intros [_ ?]; done).
    rewrite decide_False by (intros [? _]; done). cbn. lia.
Qed.

Lemma in_flight_close l i r rs :
  rs !! i = Some r → req_phase r ≠ Pending →
  in_flight l (alter (set_phase Closed) i rs) = in_flight l rs.
Proof.
  intros Hi Hp. rewrite (alter_middle _ _ _ _ Hi).
  rewrite <- (take_drop_middle rs i r Hi) at 3.
  rewrite !in_flight_app. f_equal.
  unfold in_flight. rewrite !filter_cons.
  rewrite decide_False by (intros [? _]; done).
  rewrite decide_False by (intros [? _]; done). reflexivity.
Qed.

Lemma elem_of_alter_phase p i r (rs : list Request) :
  r ∈ alter (set_phase p) i rs → ∃ r', r' ∈ rs ∧ req_subscription r = req_subscription r'.
Proof.
  intros (j & Hj)%list_elem_of_lookup.
  destruct (decide (i = j)) as [->|Hne].
  - rewrite list_lookup_alter_eq in Hj.
    destruct (rs !! j) as [r'|] eqn:E; [|done]. cbn in Hj. injection Hj as <-.
    exists r'. split; [by eapply list_elem_of_lookup_2|done].
  - rewrite list_lookup_alter_ne in Hj by done.
    exists r. split; [by eapply list_elem_of_lookup_2|done].
Qed.

Lemma in_flight_none l (rs : list Request) :
  (∀ r, r ∈ rs → req_subscription r ≠ l) → in_flight l rs = [].
Proof.
  induction rs as [|r rs IH]; intros H; [done|].
  unfold in_flight. rewrite filter_cons.
  rewrite decide_False.
  - apply IH. intros r' Hr'. apply H. by apply list_elem_of_further.
  - intros [_ Heq]. eapply H; [apply list_elem_of_here | exact Heq].
Qed.

Section wf_preservation.
Implicit Types (s : State).

Lemma wf_fresh : wf fresh.
Proof.
  split; cbn.
  - apply NoDup_nil_2.
  - apply NoDup_nil_2.
  - intros l H. by apply elem_of_nil in H.
  - intros r H. by apply elem_of_nil in H.
  - intros l o H. by rewrite lookup_nil in H.
Qed.

(** The invariant looks at the map, the heap and the requests only. *)
Lemma wf_same s s' :
  subscriptions s' = subscriptions s → heap s' = heap s →
  requests s' = requests s → wf s → wf s'.
Proof.
  intros H1 H2 H3 [? ? ? ? ?]. split; rewrite ?H1, ?H2, ?H3; done.
Qed.

Lemma wf_delete h s s' :
  subscriptions s' = obj_delete h (subscriptions s) → heap s' = heap s →
  requests s' = requests s → wf s → wf s'.
Proof.
  intros H1 H2 H3 [Hk Hl Ha Hr Hf]. split; rewrite ?H1, ?H2, ?H3; try done.
  - by apply obj_keys_delete_NoDup.
  - refine (sublist_NoDup _ _ Hl _). apply fmap_sublist, obj_delete_sublist.
  - intros l Hin. apply Ha. eapply elem_of_sublist; [exact Hin|].
    apply fmap_sublist, obj_delete_sublist.
Qed.

Lemma wf_dispatch cfg h l o s s' :
  heap s !! l = Some o → beingProcessed o = false →
  subscriptions s' = subscriptions s →
  heap s' = alter (set_beingProcessed true) l (heap s) →
  requests s' = requests s ++ [request_for cfg h l o] →
  wf s → wf s'.
Proof.
  intros Ho Hb H1 H2 H3 [Hk Hl Ha Hr Hf]. split; rewrite ?H1, ?H2, ?H3; try done.
  - intros l' Hin. rewrite length_alter. by apply Ha.
  - intros r [Hin| ->%list_elem_of_singleton]%elem_of_app; rewrite length_alter.
    + by apply Hr.
    + cbn. by eapply lookup_lt_Some.
  - intros l' o' Ho'. rewrite in_flight_app, length_app.
    unfold in_flight at 2. rewrite filter_cons, filter_nil. cbn.
    destruct (decide (l = l')) as [<-|Hne].
    + rewrite list_lookup_alter_eq, Ho in Ho'. cbn in Ho'. injection Ho' as <-.
      rewrite decide_True by done. rewrite (Hf l o Ho).
      unfold flag_count. rewrite Hb. reflexivity.
    + rewrite list_lookup_alter_ne in Ho' by done.
      rewrite decide_False by (intros [_ ?]; done).
      rewrite (Hf l' o' Ho'). cbn. lia.
Qed.

Lemma wf_settle i r p s s' :
  requests s !! i = Some r → req_phase r = Pending → p ≠ Pending →
  subscriptions s' = subscriptions s →
  heap s' = alter (set_beingProcessed false) (req_subscription r) (heap s) →
  requests s' = alter (set_phase p) i (requests s) →
  wf s → wf s'.
Proof.
  intros Hi Hp Hne H1 H2 H3 [Hk Hl Ha Hr Hf]. split; rewrite ?H1, ?H2, ?H3; try done.
  - intros l' Hin. rewrite length_alter. by apply Ha.
  - intros r' (r0 & Hin & ->)%elem_of_alter_phase. rewrite length_alter. by apply Hr.
  - intros l o Ho.
    pose proof (in_flight_settle l i r p (requests s) Hi Hp Hne) as Hc.
    destruct (decide (req_subscription r = l)) as [Hl'|Hl'].
    + subst l. rewrite list_lookup_alter_eq in Ho.
      destruct (heap s !! req_subscription r) as [o0|] eqn:E; [|done].
      cbn in Ho. injection Ho as <-. specialize (Hf _ _ E).
      unfold flag_count in *. cbn. destruct (beingProcessed o0); lia.
    + rewrite list_lookup_alter_ne in Ho by done.
      rewrite <- (Hf l o Ho). lia.
Qed.

Lemma wf_close i r s s' :
  requests s !! i = Some r → req_phase r ≠ Pending →
  subscriptions s' = subscriptions s → heap s' = heap s →
  requests s' = alter (set_phase Closed) i (requests s) →
  wf s → wf s'.
Proof.
  intros Hi Hp H1 H2 H3 [Hk Hl Ha Hr Hf]. split; rewrite ?H1, ?H2, ?H3; try done.
  - intros r' (r0 & Hin & ->)%elem_of_alter_phase. by apply Hr.
  - intros l o Ho. rewrite (in_flight_close l i r _ Hi Hp). by apply Hf.
Qed.

Lemma wf_allocate h o s s' :
  obj_get h (subscriptions s) = None → beingProcessed o = false →
  subscriptions s' = subscriptions s ++ [(h, length (heap s))] →
  heap s' = heap s ++ [o] →
  requests s' = requests s → wf s → wf s'.
Proof.
  intros Hn Hb H1 H2 H3 [Hk Hl Ha Hr Hf]. split; rewrite ?H1, ?H2, ?H3; try done.
  - unfold obj_keys in *. rewrite fmap_app. cbn.
    apply NoDup_app. split_and!; [done| |apply NoDup_singleton].
    intros x Hx ->%list_elem_of_singleton. by apply obj_get_None in Hn.
  - rewrite fmap_app. cbn.
    apply NoDup_app. split_and!; [done| |apply NoDup_singleton].
    intros x Hx ->%list_elem_of_singleton. apply Ha in Hx. lia.
  - intros l. rewrite fmap_app, length_app. cbn.
    intros [Hin| ->%list_elem_of_singleton]%elem_of_app; [apply Ha in Hin|]; lia.
  - intros r Hin. rewrite length_app. apply Hr in Hin. lia.
  - intros l o' Ho'. destruct (decide (l < length (heap s))) as [Hlt|Hge].
    + rewrite lookup_app_l in Ho' by done. by apply Hf.
    + rewrite lookup_app_r in Ho' by lia.
      destruct (l - length (heap s)) as [|n] eqn:E; [|by destruct n].
      cbn in Ho'. injection Ho' as <-. unfold flag_count. rewrite Hb.
      rewrite in_flight_none; [done|].
      intros r Hin. apply Hr in Hin. lia.
Qed.

Lemma wf_push cb l s s' :
  subscriptions s' = subscriptions s →
  heap s' = alter (push_subscriber cb) l (heap s) →
  requests s' = requests s → wf s → wf s'.
Proof.
  intros H1 H2 H3 [Hk Hl Ha Hr Hf]. split; rewrite ?H1, ?H2, ?H3; try done.
  - intros l' Hin. rewrite length_alter. by apply Ha.
  - intros r Hin. rewrite length_alter. by apply Hr.
  - intros l' o Ho. destruct (decide (l = l')) as [<-|Hne].
    + rewrite list_lookup_alter_eq in Ho.
      destruct (heap s !! l) as [o0|] eqn:E; [|done].
      cbn in Ho. injection Ho as <-. by rewrite (Hf l o0 E).
    + rewrite list_lookup_alter_ne in Ho by done. by apply Hf.
Qed.
End wf_preservation.


Lemma wf_lookup s h l :
  wf s → obj_get h (subscriptions s) = Some l → ∃ o, heap s !! l = Some o.
Proof.
  intros Hwf Hl. apply lookup_lt_is_Some. apply (wf_alloc s Hwf).
  apply obj_get_Some_elem in Hl.
  apply list_elem_of_fmap. exists (h, l). done.
Qed.

Section step_preservation.
Variable cfg : Config.

Lemma subscribe_wf now sa cb s : wf s → wf (exec (subscribe cfg now sa cb) s).
Proof.
  intros Hwf. unfold exec.
  destruct (find_gateway (gateways cfg) (origin sa)) as [g|] eqn:Hg.
  - destruct (obj_get (getUniqueIdentifier sa) (subscriptions s)) as [l|] eqn:Hl.
    + destruct (wf_lookup s _ l Hwf Hl) as [o Ho].
      rewrite (subscribe_existing cfg now sa cb g l o s Hg Hl Ho). cbn.
      eapply (wf_push cb l s); by_fields.
    + rewrite (subscribe_new cfg now sa cb g s Hg Hl). cbn.
      eapply (wf_allocate (getUniqueIdentifier sa)
                (push_subscriber cb (new_Subscription sa (createUrl g (id sa)))) s);
        by_fields.
  - by rewrite (subscribe_throws cfg now sa cb s Hg).
Qed.

Lemma subscribe_timers now sa cb s :
  timers (exec (subscribe cfg now sa cb) s) = timers s.
Proof.
  unfold exec.
  destruct (find_gateway (gateways cfg) (origin sa)) as [g|] eqn:Hg.
  - unfold subscribe, findGateway, obj_has. rewrite Hg.
    destruct s as [subs ts fc sc hp rq tm cl lg]. js_unfold. cbn.
    destruct (obj_get (getUniqueIdentifier sa) subs) as [l|] eqn:Hl; cbn.
    + rewrite Hl. cbn. destruct (hp !! l); reflexivity.
    + rewrite obj_get_set_eq. cbn.
      rewrite lookup_app_r by lia. rewrite Nat.sub_diag. reflexivity.
  - by rewrite (subscribe_throws cfg now sa cb s Hg).
Qed.

(** A visit leaves the invariant in place and schedules exactly one next
    call. *)
Lemma fetch_wf now hs i s :
  wf s →
  wf (exec (fetch cfg now hs i) s) ∧
  length (timers (exec (fetch cfg now hs i) s)) = S (length (timers s)).
Proof.
  intros Hwf. unfold exec.
  destruct (hs !! i) as [h|] eqn:Hh.
  2:{ rewrite (fetch_round cfg now hs i s Hh). cbn. rewrite length_app. cbn.
      split; [eapply (wf_same s); by_fields | lia]. }
  destruct (obj_get h (subscriptions s)) as [l|] eqn:Hl.
  2:{ rewrite (fetch_absent cfg now hs i h s Hh Hl). cbn. rewrite length_app. cbn.
      split; [eapply (wf_same s); by_fields | lia]. }
  destruct (wf_lookup s h l Hwf Hl) as [o Ho].
  destruct (beingProcessed o) eqn:Hb.
  { rewrite (fetch_busy cfg now hs i h l o s Hh Hl Ho Hb). cbn. rewrite length_app. cbn.
    split; [eapply (wf_same s); by_fields | lia]. }
  destruct (obj_get h (timestamps s)) as [t|] eqn:Ht.
  - destruct (decide (t + cleanupTime cfg < now)%Z) as [Hlt|Hge].
    + rewrite (fetch_expired cfg now hs i h l o t s Hh Hl Ho Hb Ht Hlt).
      rewrite (cleanup_run h l o s Hl Ho). cbn. rewrite length_app. cbn.
      split; [eapply (wf_delete h s); by_fields | lia].
    + rewrite (fetch_dispatch cfg now hs i h l o s Hh Hl Ho Hb).
      2:{ intros t' Ht'. rewrite Ht in Ht'. by injection Ht' as <-. }
      cbn. rewrite length_app. cbn.
      split; [eapply (wf_dispatch cfg h l o s); by_fields | lia].
  - rewrite (fetch_dispatch cfg now hs i h l o s Hh Hl Ho Hb).
    2:{ intros t' Ht'. by rewrite Ht in Ht'. }
    cbn. rewrite length_app. cbn.
    split; [eapply (wf_dispatch cfg h l o s); by_fields | lia].
Qed.

Lemma notify_wf h file s : wf s → wf (exec (notifySubscribers cfg h file) s).
Proof.
  intros Hwf. unfold exec.
  destruct (obj_get h (subscriptions s)) as [l|] eqn:Hl.
  - destruct (wf_lookup s h l Hwf Hl) as [o Ho].
    rewrite (notifySubscribers_run cfg h file l o s Hl Ho), (cleanup_run h l o s Hl Ho).
    cbn. eapply (wf_delete h s); by_fields.
  - by rewrite (notifySubscribers_absent cfg h file s Hl).
Qed.

Lemma notify_timers h file s :
  timers (exec (notifySubscribers cfg h file) s) = timers s.
Proof.
  unfold exec.
  destruct (obj_get h (subscriptions s)) as [l|] eqn:Hl.
  - destruct (heap s !! l) as [o|] eqn:Ho.
    + by rewrite (notifySubscribers_run cfg h file l o s Hl Ho), (cleanup_run h l o s Hl Ho).
    + unfold notifySubscribers, obj_has, cleanup.
      destruct s as [subs ts fc sc hp rq tm cl lg]. js_unfold. cbn in *.
      repeat (first [rewrite Hl | rewrite Ho]; cbn). reflexivity.
  - by rewrite (notifySubscribers_absent cfg h file s Hl).
Qed.

Lemma step_wf s e : wf s → wf (step cfg s e).
Proof.
  intros Hwf. destruct e as [now sa cb|k now|i status|i msg|i text|i]; cbn.
  - by apply subscribe_wf.
  - destruct (timers s !! k) as [t|]; [|done].
    apply fetch_wf. eapply (wf_same s); by_fields.
  - destruct (requests s !! i) as [r|] eqn:Hi; [|done].
    destruct (decide (req_phase r = Pending)) as [Hp|]; [|done].
    eapply (wf_settle i r (AwaitingBody status) s); by_fields.
  - destruct (requests s !! i) as [r|] eqn:Hi; [|done].
    destruct (decide (req_phase r = Pending)) as [Hp|]; [|done].
    eapply (wf_settle i r Closed s); by_fields.
  - destruct (requests s !! i) as [r|] eqn:Hi; [|done].
    destruct (req_phase r) as [|status|] eqn:Hp; try done.
    assert (wf (with_requests (alter (set_phase Closed) i) s)) as Hwf'.
    { eapply (wf_close i r s); try by_fields. by rewrite Hp. }
    unfold on_text, exec. unfold mbind at 1, JS_bind at 1, modify.
    destruct (decide (status = HTTP_OK)).
    + by apply (notify_wf _ _ _ Hwf').
    + eapply (wf_same (with_requests (alter (set_phase Closed) i) s)); by_fields.
  - destruct (requests s !! i) as [r|] eqn:Hi; [|done].
    destruct (req_phase r) as [|status|] eqn:Hp; try done.
    eapply (wf_close i r s); try by_fields. by rewrite Hp.
Qed.

Lemma step_alive s e : wf s → alive s → alive (step cfg s e).
Proof.
  unfold alive. intros Hwf Ha.
  destruct e as [now sa cb|k now|i status|i msg|i text|i]; cbn.
  - by rewrite subscribe_timers.
  - destruct (timers s !! k) as [t|] eqn:Hk; [|done].
    assert (wf (with_timers (delete k) s)) as Hwf' by (eapply (wf_same s); by_fields).
    destruct (fetch_wf now (arg_sourceHashes t) (arg_index t) _ Hwf') as [_ ->].
    cbn. rewrite length_delete by by eexists. lia.
  - destruct (requests s !! i) as [r|] eqn:Hi; [|done].
    destruct (decide (req_phase r = Pending)) as [Hp|]; done.
  - destruct (requests s !! i) as [r|] eqn:Hi; [|done].
    destruct (decide (req_phase r = Pending)) as [Hp|]; done.
  - destruct (requests s !! i) as [r|] eqn:Hi; [|done].
    destruct (req_phase r) as [|status|] eqn:Hp; try done.
    unfold on_text, exec. unfold mbind at 1, JS_bind at 1, modify.
    destruct (decide (status = HTTP_OK)); [|done].
    fold (exec (notifySubscribers cfg (req_sourceHash r) text)
               (with_requests (alter (set_phase Closed) i) s)).
    by rewrite notify_timers.
  - destruct (requests s !! i) as [r|] eqn:Hi; [|done].
    destruct (req_phase r) as [|status|] eqn:Hp; done.
Qed.

Lemma run_wf evs s : wf s → alive s → wf (run cfg s evs) ∧ alive (run cfg s evs).
Proof.
  revert s. induction evs as [|e evs IH]; intros s Hwf Ha; [done|].
  cbn. apply IH; [by apply step_wf | by apply step_alive].
Qed.

Lemma new_SourceFetcher_wf now :
  wf (new_SourceFetcher cfg now) ∧ alive (new_SourceFetcher cfg now).
Proof.
  unfold new_SourceFetcher, alive.
  destruct (fetch_wf now [] 0 fresh wf_fresh) as [H1 H2]. by rewrite H2.
Qed.
End step_preservation.


(** ** Accounting for callbacks *)

Lemma times_app cb l1 l2 : times cb (l1 ++ l2) = times cb l1 + times cb l2.
Proof. unfold times. by rewrite filter_app, length_app. Qed.

Lemma times_single cb cb' : times cb [cb'] = if decide (cb' = cb) then 1 else 0.
Proof. unfold times. rewrite filter_cons, filter_nil. by destruct (decide (cb' = cb)). Qed.

Lemma times_zero cb l : cb ∉ l → times cb l = 0.
Proof.
  unfold times. induction l as [|x l IH]; [done|].
  rewrite not_elem_of_cons. intros [Hne Hl]. rewrite filter_cons.
  rewrite decide_False by done. by apply IH.
Qed.

Lemma times_pos cb l : cb ∈ l → 0 < times cb l.
Proof.
  unfold times. induction l as [|x l IH]; [by intros ?%elem_of_nil|].
  rewrite filter_cons. intros [->|Hin]%elem_of_cons.
  - rewrite decide_True by done. cbn. lia.
  - destruct (decide (x = cb)); cbn; [lia | by apply IH].
Qed.

Lemma bind_ext_in {A B} (f g : A → list B) (l : list A) :
  (∀ x, x ∈ l → f x = g x) → l ≫= f = l ≫= g.
Proof.
  induction l as [|x l IH]; intros H; [done|].
  rewrite !bind_cons. rewrite (H x) by apply list_elem_of_here.
  f_equal. apply IH. intros y Hy. apply H. by apply list_elem_of_further.
Qed.

Lemma subscribers_at_flag b l hp l' :
  subscribers_at (alter (set_beingProcessed b) l hp) l' = subscribers_at hp l'.
Proof.
  unfold subscribers_at. destruct (decide (l = l')) as [<-|Hne].
  - rewrite list_lookup_alter_eq. by destruct (hp !! l).
  - by rewrite list_lookup_alter_ne.
Qed.

Lemma subscribers_at_app hp o l :
  l < length hp → subscribers_at (hp ++ [o]) l = subscribers_at hp l.
Proof. intros H. unfold subscribers_at. by rewrite lookup_app_l. Qed.

Section pending.
Implicit Types (s : State).

Lemma pending_same s s' :
  subscriptions s' = subscriptions s →
  (∀ l, subscribers_at (heap s') l = subscribers_at (heap s) l) →
  pending_callbacks s' = pending_callbacks s.
Proof.
  intros H1 H2. unfold pending_callbacks. rewrite H1.
  apply bind_ext_in. intros l _. apply H2.
Qed.

Lemma pending_delete cb h l s s' :
  NoDup (obj_keys (subscriptions s)) →
  obj_get h (subscriptions s) = Some l →
  subscriptions s' = obj_delete h (subscriptions s) → heap s' = heap s →
  times cb (pending_callbacks s) =
    times cb (pending_callbacks s') + times cb (subscribers_at (heap s) l).
Proof.
  intros Hk Hl H1 H2. unfold pending_callbacks. rewrite H1, H2.
  destruct (obj_delete_split h l _ Hl) as (o1 & o2 & Heq & _ & Hd).
  rewrite Hd.
  - rewrite Heq, !fmap_app, fmap_cons, !bind_app, bind_cons, !times_app. cbn. lia.
  - rewrite Heq in Hk. unfold obj_keys in Hk. rewrite fmap_app, fmap_cons in Hk.
    apply NoDup_app in Hk as (_ & _ & Hk). by apply NoDup_cons in Hk as [? _].
Qed.

Lemma pending_allocate h o s s' :
  (∀ l, l ∈ (subscriptions s).*2 → l < length (heap s)) →
  subscriptions s' = subscriptions s ++ [(h, length (heap s))] →
  heap s' = heap s ++ [o] →
  pending_callbacks s' = pending_callbacks s ++ subscribers o.
Proof.
  intros Ha H1 H2. unfold pending_callbacks. rewrite H1, H2.
  rewrite fmap_app, bind_app. cbn. f_equal.
  - apply bind_ext_in. intros l Hl. apply subscribers_at_app. by apply Ha.
  - unfold subscribers_at. rewrite lookup_app_r by lia.
    rewrite Nat.sub_diag. cbn. by rewrite app_nil_r.
Qed.

Lemma pending_push cb' cb h l o s s' :
  NoDup (subscriptions s).*2 →
  obj_get h (subscriptions s) = Some l → heap s !! l = Some o →
  subscriptions s' = subscriptions s →
  heap s' = alter (push_subscriber cb) l (heap s) →
  times cb' (pending_callbacks s') = times cb' (pending_callbacks s) + times cb' [cb].
Proof.
  intros Hnd Hl Ho H1 H2. unfold pending_callbacks. rewrite H1, H2.
  apply obj_get_Some_elem in Hl.
  assert (l ∈ (subscriptions s).*2) as Hin.
  { apply list_elem_of_fmap. by exists (h, l). }
  apply list_elem_of_split in Hin as (l1 & l2 & Heq). rewrite Heq in *.
  apply NoDup_app in Hnd as (_ & Hn1 & Hn2). apply NoDup_cons in Hn2 as [Hn2 _].
  rewrite !bind_app, !bind_cons, !times_app.
  assert (∀ ls, l ∉ ls →
    ls ≫= subscribers_at (alter (push_subscriber cb) l (heap s)) =
    ls ≫= subscribers_at (heap s)) as Hother.
  { intros ls Hls. apply bind_ext_in. intros x Hx. unfold subscribers_at.
    rewrite list_lookup_alter_ne; [done|]. intros ->. done. }
  rewrite !Hother; [|done|].
  2:{ intros Hl1. by apply (Hn1 l Hl1), list_elem_of_here. }
  unfold subscribers_at at 2 5. rewrite list_lookup_alter_eq, Ho. cbn.
  rewrite times_app. lia.
Qed.
End pending.

Lemma fst_calls (file : string) (cbs : list FetchedFileCallback) :
  ((λ cb, (cb, file)) <$> cbs).*1 = cbs.
Proof. induction cbs as [|cb cbs IH]; [done|]. rewrite !fmap_cons, IH. done. Qed.

Lemma bind_subscribers_flag b l hp (ls : list nat) :
  ls ≫= subscribers_at (alter (set_beingProcessed b) l hp) = ls ≫= subscribers_at hp.
Proof. apply bind_ext_in. intros l' _. apply subscribers_at_flag. Qed.

Lemma on_resolved_run i r status s :
  exec (on_resolved i r status) s =
    with_heap (alter (set_beingProcessed false) (req_subscription r))
      (with_requests (alter (set_phase (AwaitingBody status)) i) s).
Proof. reflexivity. Qed.

Lemma on_rejected_run i r s :
  exec (on_rejected i r) s =
    with_heap (alter (set_beingProcessed false) (req_subscription r))
      (with_logged (λ lg, lg ++ [{| level := LvError; loc := "[SOURCE_FETCHER]" |}])
         (with_requests (alter (set_phase Closed) i) s)).
Proof. reflexivity. Qed.

Section accounting.
Variable cfg : Config.
Implicit Types (s : State) (cb : FetchedFileCallback).

Lemma fetch_account now hs i cb s :
  wf s →
  called (exec (fetch cfg now hs i) s) = called s ∧
  times cb (pending_callbacks (exec (fetch cfg now hs i) s))
    ≤ times cb (pending_callbacks s).
Proof.
  intros Hwf. unfold exec.
  destruct (hs !! i) as [h|] eqn:Hh.
  2:{ rewrite (fetch_round cfg now hs i s Hh). split; [reflexivity | apply Nat.eq_le_incl; reflexivity]. }
  destruct (obj_get h (subscriptions s)) as [l|] eqn:Hl.
  2:{ rewrite (fetch_absent cfg now hs i h s Hh Hl). split; [reflexivity | apply Nat.eq_le_incl; reflexivity]. }
  destruct (wf_lookup s h l Hwf Hl) as [o Ho].
  destruct (beingProcessed o) eqn:Hb.
  { rewrite (fetch_busy cfg now hs i h l o s Hh Hl Ho Hb). split; [reflexivity | apply Nat.eq_le_incl; reflexivity]. }
  assert (∀ s', s' = (with_timers (λ ts, ts ++ [timer_for (fetchPause cfg) hs (i + 1)])
       (with_requests (λ rs, rs ++ [request_for cfg h l o])
          (with_heap (alter (set_beingProcessed true) l) s))) →
       called s' = called s ∧
       times cb (pending_callbacks s') ≤ times cb (pending_callbacks s)) as Hdispatch.
  { intros s' ->. split; [reflexivity|]. apply Nat.eq_le_incl. f_equal.
    apply pending_same; [reflexivity|]. intros l'. apply subscribers_at_flag. }
  destruct (obj_get h (timestamps s)) as [t|] eqn:Ht.
  - destruct (decide (t + cleanupTime cfg < now)%Z) as [Hlt|Hge].
    + rewrite (fetch_expired cfg now hs i h l o t s Hh Hl Ho Hb Ht Hlt).
      rewrite (cleanup_run h l o s Hl Ho). cbn [snd].
      match goal with |- called ?s' = _ ∧ _ =>
        pose proof (pending_delete cb h l s s' (wf_keys _ Hwf) Hl eq_refl eq_refl)
      end.
      split; [reflexivity | lia].
    + rewrite (fetch_dispatch cfg now hs i h l o s Hh Hl Ho Hb).
      2:{ intros t' Ht'. rewrite Ht in Ht'. by injection Ht' as <-. }
      by apply Hdispatch.
  - rewrite (fetch_dispatch cfg now hs i h l o s Hh Hl Ho Hb).
    2:{ intros t' Ht'. by rewrite Ht in Ht'. }
    by apply Hdispatch.
Qed.

Lemma times_reached cb outcome k file cbs :
  times cb (reached outcome k file cbs) ≤ times cb cbs.
Proof.
  destruct (reached_prefix outcome k file cbs) as [rest Heq].
  rewrite Heq at 2. rewrite times_app. lia.
Qed.

(** A notification takes the callbacks out of the map and calls some of
    them: all of them unless one throws. *)
Lemma notify_account h file cb s :
  wf s → account cb (exec (notifySubscribers cfg h file) s) ≤ account cb s.
Proof.
  intros Hwf. unfold exec, account.
  destruct (obj_get h (subscriptions s)) as [l|] eqn:Hl.
  - destruct (wf_lookup s h l Hwf Hl) as [o Ho].
    rewrite (notifySubscribers_run cfg h file l o s Hl Ho), (cleanup_run h l o s Hl Ho).
    cbn [snd].
    match goal with |- _ + times _ (pending_callbacks ?s') ≤ _ =>
      pose proof (pending_delete cb h l s s' (wf_keys _ Hwf) Hl eq_refl eq_refl) as Hd
    end.
    unfold subscribers_at in Hd. rewrite Ho in Hd.
    cbn [called with_called with_logged with_subscriptionCounter with_fileCounter
         with_subscriptions with_timestamps].
    rewrite fmap_app, times_app, fst_calls.
    pose proof (times_reached cb (callback_outcome cfg) (length (called s)) file
                  (subscribers o)).
    lia.
  - by rewrite (notifySubscribers_absent cfg h file s Hl).
Qed.

Lemma subscribe_account now sa cb' cb s :
  wf s →
  account cb' (exec (subscribe cfg now sa cb) s)
    = account cb' s + times cb' (registered cfg [CallSubscribe now sa cb]).
Proof.
  intros Hwf. unfold exec, account, registered. cbn.
  destruct (find_gateway (gateways cfg) (origin sa)) as [g|] eqn:Hg.
  - destruct (obj_get (getUniqueIdentifier sa) (subscriptions s)) as [l|] eqn:Hl.
    + destruct (wf_lookup s _ l Hwf Hl) as [o Ho].
      rewrite (subscribe_existing cfg now sa cb g l o s Hg Hl Ho). cbn [snd].
      match goal with |- _ + times _ (pending_callbacks ?s') = _ =>
        pose proof (pending_push cb' cb _ l o s s' (wf_locs _ Hwf) Hl Ho eq_refl eq_refl)
      end.
      change (called _) with (called s). rewrite app_nil_r. lia.
    + rewrite (subscribe_new cfg now sa cb g s Hg Hl). cbn [snd].
      match goal with |- _ + times _ (pending_callbacks ?s') = _ =>
        pose proof (pending_allocate (getUniqueIdentifier sa) _ s s'
                      (wf_alloc _ Hwf) eq_refl eq_refl) as Hp
      end.
      rewrite Hp. cbn [subscribers push_subscriber new_Subscription app].
      rewrite times_app. change (called _) with (called s). lia.
  - rewrite (subscribe_throws cfg now sa cb s Hg). cbn. unfold times. cbn. lia.
Qed.

(** No step calls a callback more often than it was registered. *)
Lemma step_account cb s e :
  wf s → account cb (step cfg s e) ≤ account cb s + times cb (registered cfg [e]).
Proof.
  intros Hwf. destruct e as [now sa cb0|k now|i status|i msg|i text|i].
  - cbn [step]. rewrite subscribe_account by done. lia.
  - cbn. destruct (timers s !! k) as [t|]; [|lia].
    assert (wf (with_timers (delete k) s)) as Hwf' by (eapply (wf_same s); by_fields).
    destruct (fetch_account now (arg_sourceHashes t) (arg_index t) cb _ Hwf') as [Hc Hp].
    unfold account. rewrite Hc. cbn.
    change (pending_callbacks (with_timers (delete k) s)) with (pending_callbacks s) in Hp.
    lia.
  - cbn. destruct (requests s !! i) as [r|] eqn:Hi; [|lia].
    destruct (decide (req_phase r = Pending)) as [Hp|]; [|lia].
    rewrite on_resolved_run.
    unfold account, pending_callbacks. cbn. rewrite bind_subscribers_flag. lia.
  - cbn. destruct (requests s !! i) as [r|] eqn:Hi; [|lia].
    destruct (decide (req_phase r = Pending)) as [Hp|]; [|lia].
    rewrite on_rejected_run.
    unfold account, pending_callbacks. cbn. rewrite bind_subscribers_flag. lia.
  - cbn. destruct (requests s !! i) as [r|] eqn:Hi; [|lia].
    destruct (req_phase r) as [|status|] eqn:Hp; try lia.
    assert (wf (with_requests (alter (set_phase Closed) i) s)) as Hwf'.
    { eapply (wf_close i r s); try by_fields. by rewrite Hp. }
    unfold on_text, exec. unfold mbind at 1, JS_bind at 1, modify.
    destruct (decide (status = HTTP_OK)).
    + pose proof (notify_account (req_sourceHash r) text cb _ Hwf') as Hn.
      unfold exec in Hn. etrans; [exact Hn|]. unfold account. cbn.
      unfold pending_callbacks. cbn. lia.
    + unfold account, pending_callbacks. cbn. lia.
  - cbn. destruct (requests s !! i) as [r|] eqn:Hi; [|lia].
    destruct (req_phase r) as [|status|] eqn:Hp; try lia.
    unfold account, pending_callbacks. cbn. lia.
Qed.

Lemma registered_cons e evs :
  registered cfg (e :: evs) = registered cfg [e] ++ registered cfg evs.
Proof. unfold registered. rewrite !bind_cons. cbn. by rewrite app_nil_r. Qed.

Lemma run_account cb evs s :
  wf s → account cb (run cfg s evs) ≤ account cb s + times cb (registered cfg evs).
Proof.
  revert s. induction evs as [|e evs IH]; intros s Hwf.
  - cbn. lia.
  - cbn [run foldl]. fold (run cfg (step cfg s e) evs).
    specialize (IH (step cfg s e) (step_wf cfg s e Hwf)).
    pose proof (step_account cb s e Hwf).
    rewrite registered_cons, times_app. lia.
Qed.

End accounting.

(** ** Calls are never taken back *)

Section called_grows.
Variable cfg : Config.

(** Calls are only ever added to the record. *)
Lemma step_called s e :
  wf s → ∃ more, called (step cfg s e) = called s ++ more.
Proof.
  intros Hwf. destruct e as [now sa cb|k now|i status|i msg|i text|i]; cbn [step].
  - exists []. rewrite app_nil_r. unfold exec.
    destruct (find_gateway (gateways cfg) (origin sa)) as [g|] eqn:Hg.
    + destruct (obj_get (getUniqueIdentifier sa) (subscriptions s)) as [l|] eqn:Hl.
      * destruct (wf_lookup s _ l Hwf Hl) as [o Ho].
        by rewrite (subscribe_existing cfg now sa cb g l o s Hg Hl Ho).
      * by rewrite (subscribe_new cfg now sa cb g s Hg Hl).
    + by rewrite (subscribe_throws cfg now sa cb s Hg).
  - exists []. rewrite app_nil_r. destruct (timers s !! k) as [t|]; [|done].
    assert (wf (with_timers (delete k) s)) as Hwf' by (eapply (wf_same s); by_fields).
    by destruct (fetch_account cfg now (arg_sourceHashes t) (arg_index t) 0 _ Hwf') as [-> _].
  - exists []. rewrite app_nil_r. destruct (requests s !! i) as [r|]; [|done].
    by destruct (decide (req_phase r = Pending)).
  - exists []. rewrite app_nil_r. destruct (requests s !! i) as [r|]; [|done].
    by destruct (decide (req_phase r = Pending)).
  - destruct (requests s !! i) as [r|] eqn:Hi; [|exists []; by rewrite app_nil_r].
    destruct (req_phase r) as [|status|] eqn:Hp; try (exists []; by rewrite app_nil_r).
    unfold on_text, exec. unfold mbind at 1, JS_bind at 1, modify.
    destruct (decide (status = HTTP_OK)); [|exists []; by rewrite app_nil_r].
    set (s1 := with_requests (alter (set_phase Closed) i) s).
    destruct (obj_get (req_sourceHash r) (subscriptions s1)) as [l|] eqn:Hl.
    + assert (wf s1) as Hwf1.
      { eapply (wf_close i r s); try by_fields. by rewrite Hp. }
      destruct (wf_lookup s1 _ l Hwf1 Hl) as [o Ho].
      rewrite (notifySubscribers_run cfg _ text l o s1 Hl Ho), (cleanup_run _ l o s1 Hl Ho).
      by eexists.
    + rewrite (notifySubscribers_absent cfg _ text s1 Hl). exists []. by rewrite app_nil_r.
  - exists []. rewrite app_nil_r. destruct (requests s !! i) as [r|]; [|done].
    by destruct (req_phase r).
Qed.

Lemma run_called evs s :
  wf s → ∃ more, called (run cfg s evs) = called s ++ more.
Proof.
  revert s. induction evs as [|e evs IH]; intros s Hwf.
  - exists []. by rewrite app_nil_r.
  - cbn [run foldl]. fold (run cfg (step cfg s e) evs).
    destruct (IH _ (step_wf cfg s e Hwf)) as [m2 ->].
    destruct (step_called s e Hwf) as [m1 ->].
    exists (m1 ++ m2). by rewrite app_assoc.
Qed.

(** A callback that is neither waiting nor registered again is not called
    again. *)
Lemma never_called_again cb evs s :
  wf s → cb ∉ pending_callbacks s → cb ∉ registered cfg evs →
  times cb (called (run cfg s evs)).*1 = times cb (called s).*1.
Proof.
  intros Hwf Hp Hr.
  pose proof (run_account cfg cb evs s Hwf) as Ha. unfold account in Ha.
  rewrite (times_zero cb _ Hp), (times_zero cb _ Hr) in Ha.
  destruct (run_called evs s Hwf) as [more Hm]. rewrite Hm in *.
  rewrite fmap_app, times_app in *. lia.
Qed.
End called_grows.


(** ** Gateways *)

Lemma find_gateway_None gs o :
  find_gateway gs o = None ↔ ∀ g, g ∈ gs → worksWith g o = false.
Proof.
  induction gs as [|g gs IH]; cbn.
  - split; [intros _ g Hg; by apply elem_of_nil in Hg | done].
  - destruct (worksWith g o) eqn:E.
    + split; [done|]. intros H. specialize (H g (list_elem_of_here _ _)). congruence.
    + rewrite IH. split.
      * intros H g' [->|Hg']%elem_of_cons; [done | by apply H].
      * intros H g' Hg'. apply H. by apply list_elem_of_further.
Qed.

Lemma find_gateway_Some gs o g :
  find_gateway gs o = Some g → g ∈ gs ∧ worksWith g o = true.
Proof.
  induction gs as [|g' gs IH]; cbn; [done|].
  destruct (worksWith g' o) eqn:E.
  - intros [= ->]. split; [apply list_elem_of_here | done].
  - intros H. destruct (IH H). split; [by apply list_elem_of_further | done].
Qed.




(** ** Reachable states *)

Lemma reachable_wf cfg now0 evs :
  wf (run cfg (new_SourceFetcher cfg now0) evs) ∧
  alive (run cfg (new_SourceFetcher cfg now0) evs).
Proof.
  destruct (new_SourceFetcher_wf cfg now0) as [Hwf Ha]. by apply run_wf.
Qed.

Lemma run_snoc cfg s evs e : run cfg s (evs ++ [e]) = step cfg (run cfg s evs) e.
Proof. unfold run. by rewrite foldl_app. Qed.


Lemma step_timer cfg s k now tm :
  timers s !! k = Some tm →
  step cfg s (TimerFires k now) =
    exec (fetch cfg now (arg_sourceHashes tm) (arg_index tm)) (with_timers (delete k) s).
Proof. intros H. cbn [step]. by rewrite H. Qed.

(** A visit sends at most one request, and only for a subscription object
    whose flag is clear. *)
Lemma fetch_requests cfg now hs i s :
  wf s →
  requests (exec (fetch cfg now hs i) s) = requests s ∨
  ∃ h l o, hs !! i = Some h ∧ obj_get h (subscriptions s) = Some l ∧
           heap s !! l = Some o ∧ beingProcessed o = false ∧
           requests (exec (fetch cfg now hs i) s) = requests s ++ [request_for cfg h l o].
Proof.
  intros Hwf. unfold exec.
  destruct (hs !! i) as [h|] eqn:Hh.
  2:{ left. by rewrite (fetch_round cfg now hs i s Hh). }
  destruct (obj_get h (subscriptions s)) as [l|] eqn:Hl.
  2:{ left. by rewrite (fetch_absent cfg now hs i h s Hh Hl). }
  destruct (wf_lookup s h l Hwf Hl) as [o Ho].
  destruct (beingProcessed o) eqn:Hb.
  { left. by rewrite (fetch_busy cfg now hs i h l o s Hh Hl Ho Hb). }
  destruct (obj_get h (timestamps s)) as [t|] eqn:Ht.
  - destruct (decide (t + cleanupTime cfg < now)%Z) as [Hlt|Hge].
    + left. rewrite (fetch_expired cfg now hs i h l o t s Hh Hl Ho Hb Ht Hlt).
      by rewrite (cleanup_run h l o s Hl Ho).
    + right. exists h, l, o. split_and!; [done..|].
      rewrite (fetch_dispatch cfg now hs i h l o s Hh Hl Ho Hb); [done|].
      intros t' Ht'. rewrite Ht in Ht'. by injection Ht' as <-.
  - right. exists h, l, o. split_and!; [done..|].
    rewrite (fetch_dispatch cfg now hs i h l o s Hh Hl Ho Hb); [done|].
    intros t' Ht'. by rewrite Ht in Ht'.
Qed.

Lemma wf_in_flight_le s l : wf s → length (in_flight l (requests s)) ≤ 1.
Proof.
  intros Hwf. destruct (heap s !! l) as [o|] eqn:Ho.
  - rewrite (wf_flag s Hwf l o Ho). unfold flag_count. destruct (beingProcessed o); lia.
  - rewrite in_flight_none; [cbn; lia|].
    intros r Hr Heq. apply (wf_reqs s Hwf) in Hr.
    apply lookup_ge_None in Ho. lia.
Qed.

Lemma wf_flag_iff s l o :
  wf s → heap s !! l = Some o →
  beingProcessed o = true ↔ in_flight l (requests s) ≠ [].
Proof.
  intros Hwf Ho. pose proof (wf_flag s Hwf l o Ho) as H. unfold flag_count in H.
  destruct (beingProcessed o); split; try done.
  - intros _ Hnil. by rewrite Hnil in H.
  - intros Hne. by apply length_zero_iff_nil in H.
Qed.


(** ** The chain monitor *)

(** The loop over the transactions of a block starts [processBytecode] for
    the contract creations, in order, and touches neither [blockNumber] nor
    the timers. *)
Lemma block_loop_run cfg
    (getContractAddress : ChainMonitor.Transaction → Completion string)
    (transactions : list ChainMonitor.Transaction) (c : ChainMonitor.BlockCall) :
  ChainMonitor.for_of
    (λ tx, if ChainMonitor.createsContract tx
           then address ← library_call (getContractAddress tx);
                ChainMonitor.start_processBytecode address
                  (ChainMonitor.initialGetBytecodeTries cfg)
           else mret ())
    transactions c =
  (MonitorLoop.loop_ends getContractAddress transactions,
   {| ChainMonitor.blockNumber := ChainMonitor.blockNumber c;
      ChainMonitor.started :=
        ChainMonitor.started c ++
        ((λ address, (address, ChainMonitor.initialGetBytecodeTries cfg))
           <$> MonitorLoop.created getContractAddress transactions);
      ChainMonitor.block_logged := ChainMonitor.block_logged c;
      ChainMonitor.next_timers := ChainMonitor.next_timers c |}).
Proof.
  revert c. induction transactions as [|tx transactions IH]; intros c.
  - cbn. rewrite app_nil_r. by destruct c.
  - cbn [ChainMonitor.for_of MonitorLoop.loop_ends MonitorLoop.created].
    unfold mbind at 1, JS_bind at 1.
    destruct (ChainMonitor.createsContract tx) eqn:E.
    + unfold mbind at 1, JS_bind at 1, library_call.
      destruct (getContractAddress tx) as [address|message].
      * unfold ChainMonitor.start_processBytecode, modify. rewrite IH.
        cbn. by rewrite <- app_assoc.
      * cbn. rewrite app_nil_r. by destruct c.
    + unfold mret, JS_ret. by rewrite IH.
Qed.

(** The loop over the transactions of a block, when [getContractAddress]
    throws for none of those that create a contract, and when it throws
    for one of them. *)
Lemma created_all (getContractAddress : ChainMonitor.Transaction → Completion string)
    (address_of : ChainMonitor.Transaction → string)
    (transactions : list ChainMonitor.Transaction) :
  (∀ tx, tx ∈ transactions → ChainMonitor.createsContract tx = true →
         getContractAddress tx = Normal (address_of tx)) →
  MonitorLoop.created getContractAddress transactions =
    address_of <$> filter (λ tx, ChainMonitor.createsContract tx = true) transactions ∧
  MonitorLoop.loop_ends getContractAddress transactions = Normal ().
Proof.
  induction transactions as [|tx transactions IH]; intros Hall; [done|].
  cbn [MonitorLoop.created MonitorLoop.loop_ends]. rewrite filter_cons.
  destruct IH as [IH1 IH2].
  { intros tx' Hin. apply Hall. by apply list_elem_of_further. }
  destruct (ChainMonitor.createsContract tx) eqn:E.
  - rewrite (Hall tx (list_elem_of_here _ _) E), decide_True by done.
    cbn. by rewrite IH1.
  - by rewrite decide_False by done.
Qed.

Lemma created_throw (getContractAddress : ChainMonitor.Transaction → Completion string)
    (address_of : ChainMonitor.Transaction → string)
    (transactions before : list ChainMonitor.Transaction) tx after message :
  filter (λ tx, ChainMonitor.createsContract tx = true) transactions =
    before ++ tx :: after →
  (∀ tx', tx' ∈ before → getContractAddress tx' = Normal (address_of tx')) →
  getContractAddress tx = Throw message →
  MonitorLoop.created getContractAddress transactions = address_of <$> before ∧
  MonitorLoop.loop_ends getContractAddress transactions = Throw message.
Proof.
  revert before. induction transactions as [|tx0 transactions IH];
    intros before Hsplit Hbefore Hthrow.
  - rewrite filter_nil in Hsplit. by destruct before.
  - cbn [MonitorLoop.created MonitorLoop.loop_ends]. rewrite filter_cons in Hsplit.
    destruct (ChainMonitor.createsContract tx0) eqn:E.
    + rewrite decide_True in Hsplit by done.
      destruct before as [|b before]; cbn in Hsplit; injection Hsplit as -> Hrest.
      * by rewrite Hthrow.
      * rewrite (Hbefore b (list_elem_of_here _ _)).
        destruct (IH before Hrest) as [-> ->]; [|done..].
        intros tx' Hin. apply Hbefore. by apply list_elem_of_further.
    + rewrite decide_False in Hsplit by done. by apply IH.
Qed.

Lemma created_length (getContractAddress : ChainMonitor.Transaction → Completion string)
    (transactions : list ChainMonitor.Transaction) :
  length (MonitorLoop.created getContractAddress transactions) ≤
    length (filter (λ tx, ChainMonitor.createsContract tx = true) transactions).
Proof.
  induction transactions as [|tx transactions IH]; [done|].
  cbn [MonitorLoop.created]. rewrite filter_cons.
  destruct (ChainMonitor.createsContract tx) eqn:E.
  - rewrite decide_True by done.
    destruct (getContractAddress tx); cbn [length]; lia.
  - by rewrite decide_False by done.
Qed.

(** One call of [processBlock], field by field. *)
Lemma processBlock_run cfg
    (getContractAddress : ChainMonitor.Transaction → Completion string) N outcome :
  ChainMonitor.processBlock cfg getContractAddress N outcome =
    match outcome with
    | ChainMonitor.BlockResolved (Some transactions) =>
        let calls := (λ address, (address, ChainMonitor.initialGetBytecodeTries cfg))
                       <$> MonitorLoop.created getContractAddress transactions in
        match MonitorLoop.loop_ends getContractAddress transactions with
        | Normal _ =>
            {| ChainMonitor.blockNumber := js_increment N;
               ChainMonitor.started := calls;
               ChainMonitor.block_logged := [];
               ChainMonitor.next_timers :=
                 [(ChainMonitor.getBlockPause cfg, js_increment N)] |}
        | Throw _ =>
            {| ChainMonitor.blockNumber := N;
               ChainMonitor.started := calls;
               ChainMonitor.block_logged :=
                 [{| level := LvError; loc := "[PROCESS_BLOCK:FAILED]" |}];
               ChainMonitor.next_timers := [(ChainMonitor.getBlockPause cfg, N)] |}
        end
    | ChainMonitor.BlockResolved None =>
        {| ChainMonitor.blockNumber := N; ChainMonitor.started := [];
           ChainMonitor.block_logged := [{| level := LvInfo; loc := "[PROCESS_BLOCK]" |}];
           ChainMonitor.next_timers := [(ChainMonitor.getBlockPause cfg, N)] |}
    | ChainMonitor.BlockRejected _ =>
        {| ChainMonitor.blockNumber := N; ChainMonitor.started := [];
           ChainMonitor.block_logged :=
             [{| level := LvError; loc := "[PROCESS_BLOCK:FAILED]" |}];
           ChainMonitor.next_timers := [(ChainMonitor.getBlockPause cfg, N)] |}
    end.
Proof.
  unfold ChainMonitor.processBlock, exec, try_finally, try_catch.
  destruct outcome as [[transactions|]|message]; [|reflexivity..].
  unfold ChainMonitor.block_then. unfold mbind at 1, JS_bind at 1.
  rewrite block_loop_run.
  by destruct (MonitorLoop.loop_ends getContractAddress transactions) as [[]|m].
Qed.

Lemma js_increment_exact (x : Z) : (- 2 ^ 53 ≤ x < 2 ^ 53)%Z → js_increment x = (x + 1)%Z.
Proof. intros H. unfold js_increment. by rewrite decide_True. Qed.

Section chain_monitor_facts.
Import ChainMonitor.
Variable cfg : Config.
Variable hexToBytes : string → option (list Z).
Variable readMetadata : list Z → option SourceAddress.
Variable assemble_throws : SourceAddress → bool.

Local Abbreviation processBytecode :=
  (processBytecode cfg hexToBytes readMetadata assemble_throws).
Local Abbreviation handle_bytecode :=
  (handle_bytecode hexToBytes readMetadata assemble_throws).
Local Abbreviation retry :=
  (retry cfg hexToBytes readMetadata assemble_throws).


Lemma processBytecode_exhausted answers k address retriesLeft :
  (retriesLeft ≤ 0)%Z → processBytecode answers k address retriesLeft = [].
Proof.
  intros H. rewrite processBytecode_equation_1.
  destruct (decide (retriesLeft ≤ 0)%Z); [reflexivity | lia].
Qed.

Lemma processBytecode_try answers k address retriesLeft :
  (0 < retriesLeft)%Z →
  processBytecode answers k address retriesLeft =
    GetCode address ::
    match answers k with
    | CodeResolved bytecode =>
        if decide (bytecode = "0x")
        then retry LvInfo "[PROCESS_BYTECODE]" answers k address retriesLeft
        else match handle_bytecode address bytecode with
             | Some effects => effects
             | None => retry LvError "[GET_CODE]" answers k address retriesLeft
             end
    | CodeRejected _ => retry LvError "[GET_CODE]" answers k address retriesLeft
    end.
Proof.
  intros H. unfold retry. rewrite processBytecode_equation_1.
  destruct (decide (retriesLeft ≤ 0)%Z); [lia | reflexivity].
Qed.

Lemma handle_bytecode_no_getCode address bytecode effects :
  handle_bytecode address bytecode = Some effects →
  filter (λ e, is_GetCode e = true) effects = [].
Proof.
  unfold ChainMonitor.handle_bytecode.
  destruct (hexToBytes bytecode) as [bytes|]; [|done].
  intros [= <-]. destruct (readMetadata bytes) as [sa|]; [|done].
  by destruct (assemble_throws sa).
Qed.

Lemma getCode_calls_bounded n :
  ∀ answers k address retriesLeft,
    Z.to_nat retriesLeft = n →
    length (filter (λ e, is_GetCode e = true)
              (processBytecode answers k address retriesLeft)) ≤ n.
Proof.
  induction n as [|n IH]; intros answers k address retriesLeft Hn.
  - rewrite processBytecode_exhausted by lia. cbn. lia.
  - rewrite processBytecode_try by lia.
    rewrite filter_cons. cbn [is_GetCode]. rewrite decide_True by done. cbn [length].
    apply le_n_S.
    assert (∀ lv tag,
      length (filter (λ e, is_GetCode e = true)
                (retry lv tag answers k address retriesLeft)) ≤ n) as Hretry.
    { intros lv tag. unfold retry. rewrite !filter_cons. cbn [is_GetCode].
      rewrite !decide_False by done. apply IH. lia. }
    destruct (answers k) as [bytecode|message]; [|apply Hretry].
    destruct (decide (bytecode = "0x")); [apply Hretry|].
    destruct (handle_bytecode address bytecode) as [effects|] eqn:E; [|apply Hretry].
    rewrite (handle_bytecode_no_getCode _ _ _ E). cbn. lia.
Qed.
End chain_monitor_facts.


(** ** The older fetcher: [notifySubscribers] and [subscribe] *)

Lemma legacy_forEach_invoke cfg file cbs s :
  LegacyFetcher.forEach (LegacyFetcher.invoke cfg file) cbs s =
    (forEach_ends (LegacyFetcher.callback_outcome cfg)
       (length (LegacyFetcher.called s)) file cbs,
     LegacyFetcher.with_called
       (λ c, c ++ ((λ cb, (cb, file))
                     <$> reached (LegacyFetcher.callback_outcome cfg)
                           (length (LegacyFetcher.called s)) file cbs))
       s).
Proof.
  revert s. induction cbs as [|cb cbs IH]; intros s; simpl.
  - unfold mret, JS_ret, LegacyFetcher.with_called. destruct s; cbn. by rewrite app_nil_r.
  - unfold mbind at 1, JS_bind at 1, LegacyFetcher.invoke.
    unfold mbind at 1, JS_bind at 1, get_state.
    unfold mbind at 1, JS_bind at 1, modify.
    destruct (LegacyFetcher.callback_outcome cfg (length (LegacyFetcher.called s)) cb file)
      as [message|].
    + unfold throw. destruct s; reflexivity.
    + unfold mret, JS_ret. rewrite IH.
      destruct s as [subs ts rq tm cl lg]; unfold LegacyFetcher.with_called; cbn.
      rewrite length_app, Nat.add_1_r. cbn. by rewrite <- app_assoc.
Qed.

(** The older [notifySubscribers] also removes the subscription and its
    timestamp first and then calls the subscribers with the file, up to
    the first one that throws. *)
Lemma legacy_notifySubscribers_run cfg h file o s :
  obj_get h (LegacyFetcher.subscriptions s) = Some o →
  ∃ s1,
    obj_get h (LegacyFetcher.subscriptions s1) = None ∧
    obj_get h (LegacyFetcher.timestamps s1) = None ∧
    LegacyFetcher.called s1 = LegacyFetcher.called s ∧
    LegacyFetcher.notifySubscribers cfg h file s =
      LegacyFetcher.forEach (LegacyFetcher.invoke cfg file) (LegacyFetcher.subscribers o) s1 ∧
    LegacyFetcher.called (exec (LegacyFetcher.notifySubscribers cfg h file) s) =
      LegacyFetcher.called s ++
      ((λ cb, (cb, file))
         <$> reached (LegacyFetcher.callback_outcome cfg)
               (length (LegacyFetcher.called s)) file (LegacyFetcher.subscribers o)).
Proof.
  intros Ho.
  set (s1 := exec (LegacyFetcher.log LvInfo "[SOURCE_FETCHER:NOTIFY]")
               (exec (LegacyFetcher.cleanup h) s)).
  assert (LegacyFetcher.notifySubscribers cfg h file s =
            LegacyFetcher.forEach (LegacyFetcher.invoke cfg file)
              (LegacyFetcher.subscribers o) s1) as Hrun.
  { unfold LegacyFetcher.notifySubscribers, obj_has.
    unfold mbind at 1, JS_bind at 1, get_state. rewrite Ho. cbn [negb].
    unfold mbind at 1, JS_bind at 1, LegacyFetcher.the_subscription. rewrite Ho.
    reflexivity. }
  exists s1. split_and!.
  - cbn. apply obj_get_delete_eq.
  - cbn. apply obj_get_delete_eq.
  - done.
  - exact Hrun.
  - unfold exec. by rewrite Hrun, legacy_forEach_invoke.
Qed.

(** The older [subscribe] never throws; it creates the entry when the hash
    has none, keeps the subscribers otherwise, sets the timestamp and
    appends the callback. *)
Lemma legacy_subscribe_run now sa cb s :
  let h := getUniqueIdentifier sa in
  let s' := exec (LegacyFetcher.subscribe now sa cb) s in
  LegacyFetcher.subscribe now sa cb s = (Normal (), s') ∧
  obj_get h (LegacyFetcher.timestamps s') = Some now ∧
  obj_get h (LegacyFetcher.subscriptions s') =
    Some match obj_get h (LegacyFetcher.subscriptions s) with
         | Some o => LegacyFetcher.push_subscriber cb o
         | None => {| LegacyFetcher.sourceAddress := sa;
                      LegacyFetcher.subscribers := [cb] |}
         end ∧
  (NoDup (obj_keys (LegacyFetcher.subscriptions s)) →
   NoDup (obj_keys (LegacyFetcher.subscriptions s'))).
Proof.
  intros h s'. unfold s', exec, LegacyFetcher.subscribe, obj_has. fold h.
  unfold mbind, JS_bind, mret, JS_ret, modify, get_state, LegacyFetcher.the_subscription.
  destruct s as [subs ts rq tm cl lg]. cbn -[obj_get obj_set].
  destruct (obj_get h subs) as [o|] eqn:Ho;
    repeat (rewrite ?Ho, ?obj_get_set_eq; cbn -[obj_get obj_set]).
  - split_and!; [done..|]. apply obj_keys_set_NoDup.
  - split_and!; [done..|]. intros H. by do 2 apply obj_keys_set_NoDup.
Qed.

(** ** The current fetcher skips what is not subscribed *)

(** The current fetcher does what the specification says: a visit to a hash that is
    not subscribed schedules the next index without pause and changes
    nothing else, and the loop is alive in every reachable state. *)
Lemma fetch_skips_unsubscribed cfg now0 evs k now tm h :
  let s := run cfg (new_SourceFetcher cfg now0) evs in
  timers s !! k = Some tm →
  arg_sourceHashes tm !! arg_index tm = Some h →
  obj_get h (subscriptions s) = None →
  step cfg s (TimerFires k now) =
    with_timers (λ ts, delete k ts ++
                   [timer_for NO_PAUSE (arg_sourceHashes tm) (arg_index tm + 1)]) s.
Proof.
  intros s Hk Hh Hn. rewrite (step_timer cfg s k now tm Hk). unfold exec.
  by rewrite (fetch_absent cfg now _ _ h (with_timers (delete k) s) Hh Hn).
Qed.

Lemma fetch_loop_alive cfg now0 evs :
  length (timers (run cfg (new_SourceFetcher cfg now0) evs)) = 1.
Proof. apply reachable_wf. Qed.

(** In the older fetcher a visit tests the index, not the hash. *)
Lemma legacy_fetch_returns cfg now hs i h s :
  hs !! i = Some h →
  obj_get (pretty i) (LegacyFetcher.subscriptions s) = None →
  LegacyFetcher.fetch cfg now hs i s = (Normal (), s).
Proof.
  intros Hh Hn. unfold LegacyFetcher.fetch, obj_has. rewrite Hh.
  unfold mbind, JS_bind, get_state. by rewrite Hn.
Qed.

(** * The statements of the specification *)

(** What [on_text] does with the body of a response: on status 200 with the
    hash still subscribed, the subscription is taken out of both maps first
    and the callbacks are then called on the state without it. *)
Lemma on_text_ok_run cfg i r text l o s :
  obj_get (req_sourceHash r) (subscriptions s) = Some l → heap s !! l = Some o →
  ∃ s1,
    obj_get (req_sourceHash r) (subscriptions s1) = None ∧
    obj_get (req_sourceHash r) (timestamps s1) = None ∧
    called s1 = called s ∧
    on_text cfg i r HTTP_OK text s = forEach (invoke cfg text) (subscribers o) s1.
Proof.
  intros Hl Ho.
  set (s0 := with_requests (alter (set_phase Closed) i) s).
  exists (with_logged (λ lg, lg ++ [{| level := LvInfo; loc := "[SOURCE_FETCHER:NOTIFY]" |}])
            (cleanup (req_sourceHash r) s0).2).
  assert (obj_get (req_sourceHash r) (subscriptions s0) = Some l) as Hl0 by done.
  assert (heap s0 !! l = Some o) as Ho0 by done.
  rewrite (cleanup_run _ l o s0 Hl0 Ho0). cbn.
  split_and!; [apply obj_get_delete_eq | apply obj_get_delete_eq | done |].
  unfold on_text. unfold mbind at 1, JS_bind at 1, modify.
  rewrite decide_True by done. fold s0.
  rewrite (notifySubscribers_run cfg _ text l o s0 Hl0 Ho0), (cleanup_run _ l o s0 Hl0 Ho0).
  by rewrite forEach_invoke.
Qed.

(** The calls a [forEach] makes when the callback at position [j] is the
    first to throw. *)
Lemma reached_first_throw outcome file message cbs :
  ∀ k j cb,
    cbs !! j = Some cb → outcome (k + j) cb file = Some message →
    (∀ j' cb', j' < j → cbs !! j' = Some cb' → outcome (k + j') cb' file = None) →
    reached outcome k file cbs = take (S j) cbs ∧
    forEach_ends outcome k file cbs = Throw message.
Proof.
  induction cbs as [|cb0 cbs IH]; intros k j cb Hj Hm Hbefore; [done|].
  destruct j as [|j]; cbn [reached forEach_ends].
  - cbn in Hj. injection Hj as ->. rewrite Nat.add_0_r in Hm. by rewrite Hm.
  - pose proof (Hbefore 0 cb0 (Nat.lt_0_succ j) eq_refl) as H0.
    rewrite Nat.add_0_r in H0. rewrite H0.
    destruct (IH (S k) j cb) as [Hr He].
    + done.
    + by rewrite Nat.add_succ_comm.
    + intros j' cb' Hlt Hj'. rewrite Nat.add_succ_comm. apply Hbefore; [lia|done].
    + by rewrite Hr, He.
Qed.

(** C1, as amended.  In every state the fetcher can reach: when the body of
    a response with status 200 arrives for a subscribed hash, the
    subscription and its timestamp are removed first, and the registered
    callbacks are then called with the body on the state without it, in the
    order they subscribed, until one of them throws.  The subscription stays
    removed however the calls end.  When none throws, each callback is called
    once; when one throws, those before it and it were called once and those
    after it are not called.  Over the whole run no callback has been called
    more often than it was registered; and a rejected fetch, the arrival of
    the response headers, a body with another status and a body that fails
    to arrive call nothing. *)
Theorem C1_subscribers_notified_once
    (cfg : Config) (now0 : Z) (evs : list Event) :
  let s := run cfg (new_SourceFetcher cfg now0) evs in
  (∀ i r text l o,
     requests s !! i = Some r → req_phase r = AwaitingBody HTTP_OK →
     obj_get (req_sourceHash r) (subscriptions s) = Some l →
     heap s !! l = Some o →
     let s' := step cfg s (BodyArrives i text) in
     let k := length (called s) in
     (∃ s1 ending,
        obj_get (req_sourceHash r) (subscriptions s1) = None ∧
        obj_get (req_sourceHash r) (timestamps s1) = None ∧
        called s1 = called s ∧
        forEach (invoke cfg text) (subscribers o) s1 = (ending, s') ∧
        on_text cfg i r HTTP_OK text s = (ending, s')) ∧
     obj_get (req_sourceHash r) (subscriptions s') = None ∧
     obj_get (req_sourceHash r) (timestamps s') = None ∧
     ((∀ j cb, subscribers o !! j = Some cb →
               callback_outcome cfg (k + j) cb text = None) →
      called s' = called s ++ ((λ cb, (cb, text)) <$> subscribers o)) ∧
     (∀ j cb message,
        subscribers o !! j = Some cb →
        callback_outcome cfg (k + j) cb text = Some message →
        (∀ j' cb', j' < j → subscribers o !! j' = Some cb' →
                   callback_outcome cfg (k + j') cb' text = None) →
        called s' = called s ++ ((λ cb, (cb, text)) <$> take (S j) (subscribers o)) ∧
        on_text cfg i r HTTP_OK text s = (Throw message, s'))) ∧
  (∀ cb, times cb (called s).*1 ≤ times cb (registered cfg evs)) ∧
  (∀ i message, called (step cfg s (FetchRejects i message)) = called s) ∧
  (∀ i status, called (step cfg s (FetchResolves i status)) = called s) ∧
  (∀ i, called (step cfg s (BodyFails i)) = called s) ∧
  (∀ i r status text,
     requests s !! i = Some r → req_phase r = AwaitingBody status →
     status ≠ HTTP_OK →
     called (step cfg s (BodyArrives i text)) = called s).
Proof.
  intros s. destruct (reachable_wf cfg now0 evs) as [Hwf _]. fold s in Hwf.
  assert (∀ cb, times cb (called s).*1 ≤ times cb (registered cfg evs)) as Hcount.
  { intros cb.
    pose proof (run_account cfg cb evs (new_SourceFetcher cfg now0)
                  (proj1 (new_SourceFetcher_wf cfg now0))) as Ha.
    fold s in Ha. unfold account in Ha.
    assert (account cb (new_SourceFetcher cfg now0) = 0) as H0 by reflexivity.
    unfold account in H0. lia. }
  clearbody s. split_and!; [|exact Hcount|..].
  - intros i r text l o Hi Hp Hl Ho s' k.
    destruct (on_text_ok_run cfg i r text l o s Hl Ho) as (s1 & H1 & H2 & H3 & Hrun).
    assert (s' = (forEach (invoke cfg text) (subscribers o) s1).2) as Hs'.
    { unfold s'. cbn [step]. rewrite Hi, Hp. unfold exec. by rewrite Hrun. }
    clearbody s'. rewrite forEach_invoke in Hs'. cbn [snd] in Hs'.
    rewrite H3 in Hs'. fold k in Hs'.
    assert (forEach (invoke cfg text) (subscribers o) s1 =
              (forEach_ends (callback_outcome cfg) k text (subscribers o), s')) as Hfor.
    { rewrite forEach_invoke, H3. fold k. by rewrite Hs'. }
    assert (called s' = called s ++
              ((λ cb, (cb, text)) <$> reached (callback_outcome cfg) k text (subscribers o)))
      as Hcalled.
    { rewrite Hs'. cbn. by rewrite H3. }
    split_and!.
    + eexists s1, _. split_and!; [done..|exact Hfor|]. by rewrite Hrun.
    + by rewrite Hs'.
    + by rewrite Hs'.
    + intros Hnone. rewrite Hcalled.
      by destruct (reached_all (callback_outcome cfg) k text (subscribers o) Hnone) as [-> _].
    + intros j cb message Hj Hm Hbefore.
      destruct (reached_first_throw (callback_outcome cfg) text message (subscribers o)
                  k j cb Hj Hm Hbefore) as [Hr He].
      split; [by rewrite Hcalled, Hr|]. by rewrite Hrun, Hfor, He.
  - intros i message. cbn [step]. destruct (requests s !! i) as [r|]; [|done].
    by destruct (decide (req_phase r = Pending)).
  - intros i status. cbn [step]. destruct (requests s !! i) as [r|]; [|done].
    by destruct (decide (req_phase r = Pending)).
  - intros i. cbn [step]. destruct (requests s !! i) as [r|]; [|done].
    by destruct (req_phase r).
  - intros i r status text Hi Hp Hne. cbn [step]. rewrite Hi, Hp.
    unfold on_text, exec. unfold mbind at 1, JS_bind at 1, modify.
    by rewrite decide_False by done.
Qed.

Lemma C1_witness :
  let s := run default_cfg (new_SourceFetcher default_cfg 0) answered_trace in
  let s' := step default_cfg s (BodyArrives 0 "file") in
  called s' = called s ++ [(7, "file"); (8, "file")].
Proof.
  pose proof (C1_subscribers_notified_once default_cfg 0 answered_trace) as [H _].
  refine (proj1 (proj2 (proj2 (proj2
            (H 0 (set_phase (AwaitingBody HTTP_OK) waiting_request) "file" 0
               (push_subscriber 8 idle_subscription) _ eq_refl _ _)))) _).
  1-3: vm_compute; reflexivity.
  intros j cb _. reflexivity.
Defined.

(** C1, as stated, fails when a callback throws: the first of two
    subscribers throws on the file, and the second, registered for the same
    hash, is not called with it, neither then nor later, although the fetch
    succeeded and the subscription was removed. *)
Lemma C1_counterexample :
  let s := run throwing_cfg (new_SourceFetcher throwing_cfg 0) answered_trace in
  let s' := step throwing_cfg s (BodyArrives 0 "file") in
  registered throwing_cfg answered_trace = [7; 8] ∧
  called s' = [(7, "file")] ∧
  obj_get "ipfs:QmA" (subscriptions s') = None ∧
  ¬ (called s' = called s ++ [(7, "file"); (8, "file")]) ∧
  (∀ more, 8 ∉ registered throwing_cfg more →
           times 8 (called (run throwing_cfg s' more)).*1 = 0).
Proof.
  split_and!; [vm_compute; reflexivity..| |].
  - vm_compute. discriminate.
  - intros more Hmore.
    pose proof (reachable_wf throwing_cfg 0 (answered_trace ++ [BodyArrives 0 "file"]))
      as [Hwf _].
    rewrite run_snoc in Hwf.
    rewrite (never_called_again throwing_cfg 8 more _ Hwf); [|vm_compute|done].
    + vm_compute. reflexivity.
    + apply not_elem_of_nil.
Qed.

(** C2 fails on the older fetcher.  A visit to an index below the length of
    the list returns without scheduling the next call, both when the hash at
    that index is not subscribed and when it is: after one subscription and
    two timer ticks no timer is pending, nothing was requested and the hash
    is still subscribed. *)
Theorem C2_legacy_fetch_stops_the_loop :
  LegacyFetcher.fetch legacy_cfg 5 ["ipfs:QmA"] 0 LegacyFetcher.fresh
    = (Normal (), LegacyFetcher.fresh) ∧
  LegacyFetcher.timers LegacyFetcher.fresh = [] ∧
  let s := LegacyFetcher.run legacy_cfg (LegacyFetcher.new_SourceFetcher legacy_cfg 0)
             [CallSubscribe 0 QmA 7; TimerFires 0 1000; TimerFires 0 2000] in
  LegacyFetcher.timers s = [] ∧
  LegacyFetcher.requests s = [] ∧
  obj_has "ipfs:QmA" (LegacyFetcher.subscriptions s) = true.
Proof. vm_compute. split_and!; reflexivity. Qed.

(** C3.  The code sends a second request for a subscribed hash while the
    first has not completed.  One callback is subscribed for [QmA] and the
    loop sends request 0.  Its response arrives with status 200; the
    [finally] reaction runs then, because the reaction to the response does
    not return the promise of [resp.text()], and clears [beingProcessed]
    while the body is still awaited.  The next round visits the hash, finds
    the flag clear and the subscription not expired, and sends request 1 for
    the same subscription object instead of skipping the hash: two requests
    for [QmA] are outstanding, and no callback has been called yet. *)
Theorem C3_second_request_while_body_awaited :
  let s := run default_cfg (new_SourceFetcher default_cfg 0) headers_trace in
  let s' := step default_cfg s (TimerFires 0 1002) in
  obj_get "ipfs:QmA" (subscriptions s) = Some 0 ∧
  heap s !! 0 = Some idle_subscription ∧
  requests s = [set_phase (AwaitingBody 200) waiting_request] ∧
  outstanding "ipfs:QmA" (requests s) = requests s ∧
  timers s = [timer_for NO_PAUSE ["ipfs:QmA"] 0] ∧
  called s = [] ∧
  requests s' = [set_phase (AwaitingBody 200) waiting_request; waiting_request] ∧
  req_subscription <$> requests s' = [0; 0] ∧
  outstanding "ipfs:QmA" (requests s') = requests s' ∧
  ¬ (length (outstanding "ipfs:QmA" (requests s')) ≤ 1) ∧
  timers s' = [timer_for (fetchPause default_cfg) ["ipfs:QmA"] 1] ∧
  called s' = [].
Proof.
  vm_compute. split_and!; try reflexivity. lia.
Qed.

(** C4, as amended.  In every state the fetcher can reach: when the loop
    visits a subscribed hash whose subscription has no unsettled request
    (its flag is clear) and whose timestamp is older than [cleanupTime], the
    subscription and its timestamp are deleted, no callback is called by the
    visit, and afterwards a callback of that subscription is never called
    unless it is also waiting in another subscription or is registered
    again. *)
Theorem C4_idle_expired_subscription_dropped
    (cfg : Config) (now0 : Z) (evs : list Event)
    (k : nat) (now : Z) (tm : Timer) (h : string) (l : nat) (o : Subscription) (t : Z) :
  let s := run cfg (new_SourceFetcher cfg now0) evs in
  timers s !! k = Some tm →
  arg_sourceHashes tm !! arg_index tm = Some h →
  obj_get h (subscriptions s) = Some l → heap s !! l = Some o →
  beingProcessed o = false →
  obj_get h (timestamps s) = Some t → (t + cleanupTime cfg < now)%Z →
  let s' := step cfg s (TimerFires k now) in
  obj_get h (subscriptions s') = None ∧
  obj_get h (timestamps s') = None ∧
  called s' = called s ∧
  ∀ evs' cb,
    cb ∈ subscribers o → cb ∉ pending_callbacks s' → cb ∉ registered cfg evs' →
    times cb (called (run cfg s' evs')).*1 = times cb (called s).*1.
Proof.
  intros s Hk Hh Hl Ho Hb Ht Hlt s'.
  destruct (reachable_wf cfg now0 evs) as [Hwf _]. fold s in Hwf. clearbody s.
  assert (wf s') as Hwf' by by apply step_wf.
  assert (s' = with_timers (λ ts, ts ++ [timer_for NO_PAUSE (arg_sourceHashes tm) (arg_index tm + 1)])
                 (cleanup h (with_timers (delete k) s)).2) as Hs'.
  { unfold s'. rewrite (step_timer cfg s k now tm Hk). unfold exec.
    by rewrite (fetch_expired cfg now _ _ h l o t (with_timers (delete k) s) Hh Hl Ho Hb Ht Hlt). }
  clearbody s'.
  rewrite (cleanup_run h l o (with_timers (delete k) s) Hl Ho) in Hs'. cbn [snd] in Hs'.
  assert (called s' = called s) as Hc by by rewrite Hs'.
  split_and!.
  - rewrite Hs'. apply obj_get_delete_eq.
  - rewrite Hs'. apply obj_get_delete_eq.
  - done.
  - intros evs' cb _ Hp Hr. rewrite <- Hc. by apply never_called_again.
Qed.

Lemma C4_witness :
  let s := run default_cfg (new_SourceFetcher default_cfg 0) stale_trace in
  let s' := step default_cfg s (TimerFires 0 3600000) in
  obj_get "ipfs:QmA" (subscriptions s') = None ∧
  obj_get "ipfs:QmA" (timestamps s') = None ∧
  called s' = called s ∧
  ∀ evs' cb,
    cb ∈ subscribers idle_subscription → cb ∉ pending_callbacks s' →
    cb ∉ registered default_cfg evs' →
    times cb (called (run default_cfg s' evs')).*1 = times cb (called s).*1.
Proof.
  refine (C4_idle_expired_subscription_dropped default_cfg 0 stale_trace
            0 3600000%Z (timer_for 0 ["ipfs:QmA"] 0) "ipfs:QmA" 0
            idle_subscription 0%Z _ eq_refl _ _ eq_refl _ _);
    vm_compute; reflexivity.
Defined.

(** C4, as stated, fails: a subscription older than [cleanupTime] is kept
    when the visit finds a request of it in flight, and its callback is
    called when that request succeeds.  The hash is subscribed at time 0; a
    request is sent at 1 799 000 ms; the visit at 1 800 001 ms finds the
    timestamp older than the 1 800 000 ms of [cleanupTime] and the flag
    set, and only schedules the next index; the response arrives
    afterwards. *)
Lemma C4_counterexample :
  let s := run default_cfg (new_SourceFetcher default_cfg 0)
             [CallSubscribe 0 QmA 7; TimerFires 0 0; TimerFires 0 1799000;
              TimerFires 0 1800000] in
  let s' := step default_cfg s (TimerFires 0 1800001) in
  timers s = [timer_for 0 ["ipfs:QmA"] 0] ∧
  obj_get "ipfs:QmA" (timestamps s) = Some 0%Z ∧
  (0 + cleanupTime default_cfg < 1800001)%Z ∧
  obj_has "ipfs:QmA" (subscriptions s') = true ∧
  obj_has "ipfs:QmA" (timestamps s') = true ∧
  called (run default_cfg s' [FetchResolves 0 200; BodyArrives 0 "file"])
    = [(7, "file")].
Proof.
  vm_compute. split_and!; done.
Qed.



(** C6 is stated after the lemmas on effects and removals it needs, under
    the heading on failed fetches. *)

(** C7, as amended.  One iteration of [processBlock] schedules exactly one
    next iteration, after [getBlockPause], whatever the block number and
    however [getBlock] settles and the transactions fare.  It is for the
    same [N] when the node returned no block or the call failed.  For a
    block number from -2^53 up to, but not including, 2^53, where numbers
    count exactly, it is for [N + 1] when the node returned a block and no
    exception was raised while its transactions were gone through. *)
Theorem C7_processBlock_schedules_one_next
    (cfg : ChainMonitor.Config)
    (getContractAddress : ChainMonitor.Transaction → Completion string)
    (N : Z) (outcome : ChainMonitor.BlockOutcome) :
  let c := ChainMonitor.processBlock cfg getContractAddress N outcome in
  (∃ next, ChainMonitor.next_timers c = [(ChainMonitor.getBlockPause cfg, next)]) ∧
  (outcome = ChainMonitor.BlockResolved None ∨
   (∃ message, outcome = ChainMonitor.BlockRejected message) →
   ChainMonitor.next_timers c = [(ChainMonitor.getBlockPause cfg, N)]) ∧
  (∀ transactions,
     outcome = ChainMonitor.BlockResolved (Some transactions) →
     (∀ tx, tx ∈ transactions → ChainMonitor.createsContract tx = true →
            ∃ address, getContractAddress tx = Normal address) →
     (- 2 ^ 53 ≤ N < 2 ^ 53)%Z →
     ChainMonitor.next_timers c = [(ChainMonitor.getBlockPause cfg, (N + 1)%Z)]).
Proof.
  intros c. unfold c. rewrite processBlock_run. split_and!.
  - destruct outcome as [[transactions|]|message]; [|by eexists..].
    destruct (MonitorLoop.loop_ends getContractAddress transactions); by eexists.
  - by intros [->|[message ->]].
  - intros transactions -> Hall HN.
    destruct (created_all getContractAddress
                (λ tx, match getContractAddress tx with
                       | Normal address => address
                       | Throw _ => ""
                       end) transactions) as [_ ->].
    + intros tx Hin Hc. by destruct (Hall tx Hin Hc) as [address ->].
    + cbn. by rewrite js_increment_exact.
Qed.

Lemma C7_witness :
  ChainMonitor.next_timers
    (ChainMonitor.processBlock monitor_cfg sender_address 100
       (ChainMonitor.BlockResolved (Some [creation]))) =
    [(ChainMonitor.getBlockPause monitor_cfg, (100 + 1)%Z)].
Proof.
  refine (proj2 (proj2 (C7_processBlock_schedules_one_next monitor_cfg sender_address
                          100 (ChainMonitor.BlockResolved (Some [creation]))))
            [creation] eq_refl _ _).
  - intros tx ->%list_elem_of_singleton _. by eexists.
  - lia.
Defined.

(** C7, as stated, fails for a block number a JavaScript number cannot
    count past: at 2^53 the increment gives 2^53 again, so after a block
    came back the next iteration is scheduled for the same number.  It also
    fails, for any block number, when [getContractAddress] throws for a
    transaction of the block that came back: the increment is skipped and
    the next iteration is scheduled for the same number. *)
Lemma C7_counterexample :
  let N := (2 ^ 53)%Z in
  let c := ChainMonitor.processBlock monitor_cfg sender_address N
             (ChainMonitor.BlockResolved (Some [creation])) in
  let c' := ChainMonitor.processBlock monitor_cfg sender_address 100
              (ChainMonitor.BlockResolved (Some [creation; anonymous_creation])) in
  (ChainMonitor.started c = [("0xf00", 3%Z)] ∧
   ChainMonitor.block_logged c = [] ∧
   ChainMonitor.next_timers c = [(2000%Z, N)] ∧
   ¬ (ChainMonitor.next_timers c =
        [(ChainMonitor.getBlockPause monitor_cfg, (N + 1)%Z)])) ∧
  (ChainMonitor.started c' = [("0xf00", 3%Z)] ∧
   ChainMonitor.block_logged c' =
     [{| level := LvError; loc := "[PROCESS_BLOCK:FAILED]" |}] ∧
   ChainMonitor.next_timers c' = [(2000%Z, 100%Z)] ∧
   ¬ (ChainMonitor.next_timers c' =
        [(ChainMonitor.getBlockPause monitor_cfg, (100 + 1)%Z)])).
Proof.
  vm_compute. split_and!; try reflexivity; discriminate.
Qed.






(** C10.  If no registered gateway accepts the origin of the source address,
    [subscribe] throws "Gateway not found for <origin>" and leaves the whole
    state (the subscription map, the timestamp map, the counters and
    everything else) exactly as it was. *)
Theorem C10_subscribe_without_gateway_throws
    (cfg : Config) (now : Z) (sa : SourceAddress) (cb : FetchedFileCallback) (s : State) :
  Forall (λ g, worksWith g (origin sa) = false) (gateways cfg) →
  subscribe cfg now sa cb s = (Throw ("Gateway not found for " +:+ origin sa), s).
Proof.
  intros H. apply subscribe_throws, find_gateway_None.
  by apply Forall_forall.
Qed.


Lemma C10_witness :
  subscribe default_cfg 5 {| origin := "http"; id := "x" |} 1
            (new_SourceFetcher default_cfg 0)
  = (Throw ("Gateway not found for " +:+ "http"), new_SourceFetcher default_cfg 0).
Proof.
  apply (C10_subscribe_without_gateway_throws default_cfg 5
           {| origin := "http"; id := "x" |} 1).
  repeat constructor.
Defined.

(** * Further properties of the code *)

(** ** What a handler can do, and the invariant of the counters *)

Section effects.
Variable cfg : Config.

Lemma effect_wf s s' : wf s → effect cfg s s' → wf s'.
Proof.
  intros Hwf [H1 H2 H3 H4 H5 H6
             |h l o Hl Ho H1 H2 H3 H4 H5 H6
             |h l o Hl Ho Hb H1 H2 H3 H4 H5 H6
             |i r p Hi Hp Hne H1 H2 H3 H4 H5 H6
             |i r Hi Hp H1 H2 H3 H4 H5 H6
             |now sa cb g Hg Hn H1 H2 H3 H4 H5 H6
             |now sa cb l o Hl Ho H1 H2 H3 H4 H5 H6].
  - by eapply (wf_same s).
  - by eapply (wf_delete h s).
  - by eapply (wf_dispatch cfg h l o s).
  - by eapply (wf_settle i r p s).
  - by eapply (wf_close i r s).
  - eapply (wf_allocate (getUniqueIdentifier sa)
              (push_subscriber cb (new_Subscription sa (createUrl g (id sa)))) s);
      by_fields.
  - by eapply (wf_push cb l s).
Qed.

Lemma fetch_effect now hs i s :
  wf s → effect cfg s (exec (fetch cfg now hs i) s).
Proof.
  intros Hwf. unfold exec.
  destruct (hs !! i) as [h|] eqn:Hh.
  2:{ rewrite (fetch_round cfg now hs i s Hh). by apply eff_same. }
  destruct (obj_get h (subscriptions s)) as [l|] eqn:Hl.
  2:{ rewrite (fetch_absent cfg now hs i h s Hh Hl). by apply eff_same. }
  destruct (wf_lookup s h l Hwf Hl) as [o Ho].
  destruct (beingProcessed o) eqn:Hb.
  { rewrite (fetch_busy cfg now hs i h l o s Hh Hl Ho Hb). by apply eff_same. }
  destruct (obj_get h (timestamps s)) as [t|] eqn:Ht.
  - destruct (decide (t + cleanupTime cfg < now)%Z) as [Hlt|Hge].
    + rewrite (fetch_expired cfg now hs i h l o t s Hh Hl Ho Hb Ht Hlt).
      rewrite (cleanup_run h l o s Hl Ho).
      by apply (eff_cleanup cfg s _ h l o).
    + rewrite (fetch_dispatch cfg now hs i h l o s Hh Hl Ho Hb).
      2:{ intros t' Ht'. rewrite Ht in Ht'. by injection Ht' as <-. }
      by apply (eff_dispatch cfg s _ h l o).
  - rewrite (fetch_dispatch cfg now hs i h l o s Hh Hl Ho Hb).
    2:{ intros t' Ht'. by rewrite Ht in Ht'. }
    by apply (eff_dispatch cfg s _ h l o).
Qed.

Lemma notify_effect h file s :
  wf s → effect cfg s (exec (notifySubscribers cfg h file) s).
Proof.
  intros Hwf. unfold exec.
  destruct (obj_get h (subscriptions s)) as [l|] eqn:Hl.
  - destruct (wf_lookup s h l Hwf Hl) as [o Ho].
    rewrite (notifySubscribers_run cfg h file l o s Hl Ho), (cleanup_run h l o s Hl Ho).
    by apply (eff_cleanup cfg s _ h l o).
  - rewrite (notifySubscribers_absent cfg h file s Hl). by apply eff_same.
Qed.

Lemma subscribe_effect now sa cb s :
  wf s → effect cfg s (exec (subscribe cfg now sa cb) s).
Proof.
  intros Hwf. unfold exec.
  destruct (find_gateway (gateways cfg) (origin sa)) as [g|] eqn:Hg.
  - destruct (obj_get (getUniqueIdentifier sa) (subscriptions s)) as [l|] eqn:Hl.
    + destruct (wf_lookup s _ l Hwf Hl) as [o Ho].
      rewrite (subscribe_existing cfg now sa cb g l o s Hg Hl Ho).
      by apply (eff_push cfg s _ now sa cb l o).
    + rewrite (subscribe_new cfg now sa cb g s Hg Hl).
      by apply (eff_new cfg s _ now sa cb g).
  - rewrite (subscribe_throws cfg now sa cb s Hg). by apply eff_same.
Qed.

(** Every event is at most two such effects in a row. *)
Lemma step_effects s e :
  wf s → ∃ s1, effect cfg s s1 ∧ effect cfg s1 (step cfg s e).
Proof.
  intros Hwf.
  assert (effect cfg s s) as Hrefl by by apply eff_same.
  assert (∀ s', effect cfg s' s') as Hrefl' by (intros; by apply eff_same).
  destruct e as [now sa cb|k now|i status|i msg|i text|i]; cbn [step].
  - exists s. split; [done|]. by apply subscribe_effect.
  - destruct (timers s !! k) as [t|]; [|by exists s].
    exists (with_timers (delete k) s). split; [by apply eff_same|].
    apply fetch_effect. eapply (wf_same s); by_fields.
  - destruct (requests s !! i) as [r|] eqn:Hi; [|by exists s].
    destruct (decide (req_phase r = Pending)) as [Hp|]; [|by exists s].
    exists s. split; [done|].
    by apply (eff_settle cfg s _ i r (AwaitingBody status)).
  - destruct (requests s !! i) as [r|] eqn:Hi; [|by exists s].
    destruct (decide (req_phase r = Pending)) as [Hp|]; [|by exists s].
    exists s. split; [done|].
    by apply (eff_settle cfg s _ i r Closed).
  - destruct (requests s !! i) as [r|] eqn:Hi; [|by exists s].
    destruct (req_phase r) as [|status|] eqn:Hp; try by exists s.
    exists (with_requests (alter (set_phase Closed) i) s). split.
    + apply (eff_close cfg s _ i r); try done. by rewrite Hp.
    + unfold on_text, exec. unfold mbind at 1, JS_bind at 1, modify.
      destruct (decide (status = HTTP_OK)).
      * apply notify_effect. eapply (wf_close i r s); try by_fields. by rewrite Hp.
      * by apply eff_same.
  - destruct (requests s !! i) as [r|] eqn:Hi; [|by exists s].
    destruct (req_phase r) as [|status|] eqn:Hp; try by exists s.
    exists s. split; [done|].
    apply (eff_close cfg s _ i r); try done. by rewrite Hp.
Qed.
End effects.

Section js_object_more.
Context {V : Type}.
Implicit Types (o : list (string * V)) (k : string) (v : V).

Lemma obj_has_set k k' v o :
  obj_has k' (obj_set k v o) = if decide (k = k') then true else obj_has k' o.
Proof.
  unfold obj_has. destruct (decide (k = k')) as [->|Hne].
  - by rewrite obj_get_set_eq.
  - by rewrite obj_get_set_ne.
Qed.

Lemma obj_has_delete k k' o :
  obj_has k' (obj_delete k o) = if decide (k = k') then false else obj_has k' o.
Proof.
  unfold obj_has. destruct (decide (k = k')) as [->|Hne].
  - by rewrite obj_get_delete_eq.
  - by rewrite obj_get_delete_ne.
Qed.

Lemma obj_delete_length k v o :
  NoDup (obj_keys o) → obj_get k o = Some v →
  length o = S (length (obj_delete k o)).
Proof.
  intros Hnd Hk. destruct (obj_delete_split k v o Hk) as (o1 & o2 & Heq & _ & Hd).
  rewrite Hd.
  - rewrite Heq, !length_app. cbn. lia.
  - rewrite Heq in Hnd. unfold obj_keys in Hnd. rewrite fmap_app, fmap_cons in Hnd.
    apply NoDup_app in Hnd as (_ & _ & Hnd). by apply NoDup_cons in Hnd as [? _].
Qed.

Lemma obj_get_delete_Some k k' v o :
  obj_get k' (obj_delete k o) = Some v → k ≠ k' ∧ obj_get k' o = Some v.
Proof.
  destruct (decide (k = k')) as [->|Hne].
  - by rewrite obj_get_delete_eq.
  - by rewrite obj_get_delete_ne.
Qed.
End js_object_more.

Section pending_length.
Implicit Types (s : State).

Lemma pending_delete_length h l s s' :
  NoDup (obj_keys (subscriptions s)) →
  obj_get h (subscriptions s) = Some l →
  subscriptions s' = obj_delete h (subscriptions s) → heap s' = heap s →
  length (pending_callbacks s) =
    length (pending_callbacks s') + length (subscribers_at (heap s) l).
Proof.
  intros Hk Hl H1 H2. unfold pending_callbacks. rewrite H1, H2.
  destruct (obj_delete_split h l _ Hl) as (o1 & o2 & Heq & _ & Hd).
  rewrite Hd.
  - rewrite Heq, !fmap_app, fmap_cons, !bind_app, bind_cons, !length_app. cbn. lia.
  - rewrite Heq in Hk. unfold obj_keys in Hk. rewrite fmap_app, fmap_cons in Hk.
    apply NoDup_app in Hk as (_ & _ & Hk). by apply NoDup_cons in Hk as [? _].
Qed.

Lemma pending_push_length cb h l o s s' :
  NoDup (subscriptions s).*2 →
  obj_get h (subscriptions s) = Some l → heap s !! l = Some o →
  subscriptions s' = subscriptions s →
  heap s' = alter (push_subscriber cb) l (heap s) →
  length (pending_callbacks s') = S (length (pending_callbacks s)).
Proof.
  intros Hnd Hl Ho H1 H2. unfold pending_callbacks. rewrite H1, H2.
  apply obj_get_Some_elem in Hl.
  assert (l ∈ (subscriptions s).*2) as Hin.
  { apply list_elem_of_fmap. by exists (h, l). }
  apply list_elem_of_split in Hin as (l1 & l2 & Heq). rewrite Heq in *.
  apply NoDup_app in Hnd as (_ & Hn1 & Hn2). apply NoDup_cons in Hn2 as [Hn2 _].
  rewrite !bind_app, !bind_cons, !length_app.
  assert (∀ ls, l ∉ ls →
    ls ≫= subscribers_at (alter (push_subscriber cb) l (heap s)) =
    ls ≫= subscribers_at (heap s)) as Hother.
  { intros ls Hls. apply bind_ext_in. intros x Hx. unfold subscribers_at.
    rewrite list_lookup_alter_ne; [done|]. intros ->. done. }
  rewrite !Hother; [|done|].
  2:{ intros Hl1. by apply (Hn1 l Hl1), list_elem_of_here. }
  unfold subscribers_at at 2 5. rewrite list_lookup_alter_eq, Ho. cbn.
  rewrite length_app. cbn. lia.
Qed.
End pending_length.

Lemma gateway_url_same cfg o o' :
  sourceAddress o' = sourceAddress o → fetchUrl o' = fetchUrl o →
  gateway_url cfg o → gateway_url cfg o'.
Proof. unfold gateway_url. intros -> ->. done. Qed.

(** An update of the flag or of the subscribers keeps the address and the
    URL of every object. *)
Lemma lookup_alter_same (f : Subscription → Subscription) l (hp : list Subscription) l' o' :
  (∀ o, sourceAddress (f o) = sourceAddress o ∧ fetchUrl (f o) = fetchUrl o) →
  alter f l hp !! l' = Some o' →
  ∃ o, hp !! l' = Some o ∧ sourceAddress o' = sourceAddress o ∧ fetchUrl o' = fetchUrl o.
Proof.
  intros Hf H. destruct (decide (l = l')) as [<-|Hne].
  - rewrite list_lookup_alter_eq in H. destruct (hp !! l) as [o|]; [|done].
    cbn in H. injection H as <-. exists o. split; [done|]. apply Hf.
  - rewrite list_lookup_alter_ne in H by done. by exists o'.
Qed.

Lemma lookup_alter_keeps (f : Subscription → Subscription) l (hp : list Subscription) l' o :
  (∀ o, sourceAddress (f o) = sourceAddress o ∧ fetchUrl (f o) = fetchUrl o) →
  hp !! l' = Some o →
  ∃ o', alter f l hp !! l' = Some o' ∧
        sourceAddress o' = sourceAddress o ∧ fetchUrl o' = fetchUrl o.
Proof.
  intros Hf H. destruct (decide (l = l')) as [<-|Hne].
  - rewrite list_lookup_alter_eq, H. cbn. eexists. split; [done|]. apply Hf.
  - rewrite list_lookup_alter_ne by done. by exists o.
Qed.

Lemma elem_of_alter_phase_fields p i r (rs : list Request) :
  r ∈ alter (set_phase p) i rs →
  ∃ r', r' ∈ rs ∧ req_subscription r = req_subscription r' ∧
        req_timeout r = req_timeout r' ∧ req_fetchUrl r = req_fetchUrl r' ∧
        req_sourceHash r = req_sourceHash r'.
Proof.
  intros (j & Hj)%list_elem_of_lookup.
  destruct (decide (i = j)) as [->|Hne].
  - rewrite list_lookup_alter_eq in Hj.
    destruct (rs !! j) as [r'|] eqn:E; [|done]. cbn in Hj. injection Hj as <-.
    exists r'. split; [by eapply list_elem_of_lookup_2|done].
  - rewrite list_lookup_alter_ne in Hj by done.
    exists r. split; [by eapply list_elem_of_lookup_2|done].
Qed.

Section coherence.
Variable cfg : Config.

Lemma flag_same b o :
  sourceAddress (set_beingProcessed b o) = sourceAddress o ∧
  fetchUrl (set_beingProcessed b o) = fetchUrl o.
Proof. done. Qed.

Lemma push_same cb o :
  sourceAddress (push_subscriber cb o) = sourceAddress o ∧
  fetchUrl (push_subscriber cb o) = fetchUrl o.
Proof. done. Qed.

(** Requests stay coherent when the heap only has flags or subscribers
    updated. *)
Lemma requests_alter f l s (rs : list Request) :
  (∀ o, sourceAddress (f o) = sourceAddress o ∧ fetchUrl (f o) = fetchUrl o) →
  (∀ r, r ∈ rs →
     req_timeout r = fetchTimeout cfg ∧
     ∃ o, heap s !! req_subscription r = Some o ∧
          req_fetchUrl r = fetchUrl o ∧
          req_sourceHash r = getUniqueIdentifier (sourceAddress o)) →
  ∀ r, r ∈ rs →
     req_timeout r = fetchTimeout cfg ∧
     ∃ o, alter f l (heap s) !! req_subscription r = Some o ∧
          req_fetchUrl r = fetchUrl o ∧
          req_sourceHash r = getUniqueIdentifier (sourceAddress o).
Proof.
  intros Hf H r Hr. destruct (H r Hr) as (Ht & o & Ho & Hu & Hh).
  split; [done|].
  destruct (lookup_alter_keeps f l _ _ o Hf Ho) as (o' & Ho' & Hsa & Hurl).
  exists o'. by rewrite Hsa, Hurl.
Qed.

Lemma effect_coherent s s' :
  wf s → coherent cfg s → effect cfg s s' → coherent cfg s'.
Proof.
  intros Hwf [Cf Cs Ct Co Ck Cr]
    [H1 H2 H3 H4 H5 H6
    |h l o Hl Ho H1 H2 H3 H4 H5 H6
    |h l o Hl Ho Hb H1 H2 H3 H4 H5 H6
    |i r p Hi Hp Hne H1 H2 H3 H4 H5 H6
    |i r Hi Hp H1 H2 H3 H4 H5 H6
    |now sa cb g Hg Hn H1 H2 H3 H4 H5 H6
    |now sa cb l o Hl Ho H1 H2 H3 H4 H5 H6].
  - (* nothing changes *)
    split; rewrite ?H1, ?H2, ?H3, ?H4, ?H5, ?H6; try done.
    rewrite (pending_same s s'); done || by intros; rewrite H5.
  - (* cleanup *)
    split; rewrite ?H1, ?H2, ?H3, ?H4, ?H5, ?H6; try done.
    + rewrite Cf, (obj_delete_length h l _ (wf_keys s Hwf) Hl). lia.
    + rewrite Cs, (pending_delete_length h l s s' (wf_keys s Hwf) Hl H1 H5).
      unfold subscribers_at. rewrite Ho. lia.
    + intros h'. rewrite !obj_has_delete. by destruct (decide (h = h')).
    + intros h' l' o' [_ Hl']%obj_get_delete_Some Ho'. by eapply Ck.
  - (* dispatch *)
    split; rewrite ?H1, ?H2, ?H3, ?H4, ?H5, ?H6; try done.
    + rewrite Cs. f_equal. f_equal. symmetry. apply pending_same; [done|].
      intros l'. rewrite H5. apply subscribers_at_flag.
    + intros l' o' (o0 & Ho0 & Hsa & Hurl)%(lookup_alter_same _ _ _ _ _ (flag_same true)).
      eapply gateway_url_same; eauto.
    + intros h' l' o' Hl' (o0 & Ho0 & Hsa & Hurl)%(lookup_alter_same _ _ _ _ _ (flag_same true)).
      rewrite Hsa. by eapply Ck.
    + intros r [Hr| ->%list_elem_of_singleton]%elem_of_app.
      * by apply (requests_alter _ _ s (requests s) (flag_same true)).
      * split; [done|]. cbn.
        destruct (lookup_alter_keeps (set_beingProcessed true) l _ _ o (flag_same true) Ho)
          as (o' & Ho' & Hsa & Hurl).
        exists o'. rewrite Hsa, Hurl. split_and!; [done..|].
        symmetry. by eapply Ck.
  - (* settle *)
    split; rewrite ?H1, ?H2, ?H3, ?H4, ?H5, ?H6; try done.
    + rewrite Cs. f_equal. f_equal. symmetry. apply pending_same; [done|].
      intros l'. rewrite H5. apply subscribers_at_flag.
    + intros l' o' (o0 & Ho0 & Hsa & Hurl)%(lookup_alter_same _ _ _ _ _ (flag_same false)).
      eapply gateway_url_same; eauto.
    + intros h' l' o' Hl' (o0 & Ho0 & Hsa & Hurl)%(lookup_alter_same _ _ _ _ _ (flag_same false)).
      rewrite Hsa. by eapply Ck.
    + intros r' (r0 & Hr0 & Hs & Ht & Hu & Hh)%elem_of_alter_phase_fields.
      rewrite Hs, Ht, Hu, Hh.
      by apply (requests_alter _ _ s (requests s) (flag_same false)).
  - (* close *)
    split; rewrite ?H1, ?H2, ?H3, ?H4, ?H5, ?H6; try done.
    + rewrite Cs. f_equal. f_equal. symmetry. apply pending_same; [done|].
      intros l'. by rewrite H5.
    + intros r' (r0 & Hr0 & Hs & Ht & Hu & Hh)%elem_of_alter_phase_fields.
      rewrite Hs, Ht, Hu, Hh. by apply Cr.
  - (* a new subscription *)
    split; rewrite ?H1, ?H2, ?H3, ?H4, ?H5, ?H6; try done.
    + rewrite Cf, length_app. cbn. lia.
    + rewrite Cs, (pending_allocate _ _ s s' (wf_alloc s Hwf) H1 H5), length_app.
      cbn. lia.
    + intros h'. rewrite <- (obj_set_fresh _ (length (heap s)) _ Hn).
      rewrite !obj_has_set. destruct (decide (getUniqueIdentifier sa = h')); [done|apply Ct].
    + intros l' o' Ho'. destruct (decide (l' < length (heap s))) as [Hlt|Hge].
      * rewrite lookup_app_l in Ho' by done. by eapply Co.
      * rewrite lookup_app_r in Ho' by lia.
        destruct (l' - length (heap s)) as [|n] eqn:E; [|by destruct n].
        cbn in Ho'. injection Ho' as <-. by exists g.
    + intros h' l' o'. rewrite <- (obj_set_fresh _ (length (heap s)) _ Hn).
      destruct (decide (getUniqueIdentifier sa = h')) as [<-|Hne].
      * rewrite obj_get_set_eq. intros [= <-].
        rewrite lookup_app_r by lia. rewrite Nat.sub_diag. cbn. by intros [= <-].
      * rewrite obj_get_set_ne by done. intros Hl' Ho'.
        assert (l' < length (heap s)) as Hlt.
        { apply (wf_alloc s Hwf), list_elem_of_fmap. exists (h', l').
          split; [done|]. by apply obj_get_Some_elem. }
        rewrite lookup_app_l in Ho' by done. by eapply Ck.
    + intros r Hr. destruct (Cr r Hr) as (Ht & o & Ho & Hu & Hh).
      split; [done|]. exists o. split; [|done].
      rewrite lookup_app_l; [done|]. by eapply lookup_lt_Some.
  - (* one more subscriber *)
    split; rewrite ?H1, ?H2, ?H3, ?H4, ?H5, ?H6; try done.
    + rewrite Cs, (pending_push_length cb _ l o s s' (wf_locs s Hwf) Hl Ho H1 H5). lia.
    + intros h'. rewrite obj_has_set.
      destruct (decide (getUniqueIdentifier sa = h')) as [<-|Hne]; [|apply Ct].
      unfold obj_has. by rewrite Hl.
    + intros l' o' (o0 & Ho0 & Hsa & Hurl)%(lookup_alter_same _ _ _ _ _ (push_same cb)).
      eapply gateway_url_same; eauto.
    + intros h' l' o' Hl' (o0 & Ho0 & Hsa & Hurl)%(lookup_alter_same _ _ _ _ _ (push_same cb)).
      rewrite Hsa. by eapply Ck.
    + by apply (requests_alter _ _ s (requests s) (push_same cb)).
Qed.

Lemma coherent_fresh : coherent cfg fresh.
Proof.
  split; try done.
  all: try (intros l o H; by rewrite lookup_nil in H).
  all: try (intros r H; by apply elem_of_nil in H).
  all: try (intros h l o H; by cbn in H).
Qed.

Lemma step_coherent s e : wf s → coherent cfg s → coherent cfg (step cfg s e).
Proof.
  intros Hwf Hc. destruct (step_effects cfg s e Hwf) as (s1 & E1 & E2).
  eapply (effect_coherent s1); [by eapply effect_wf| |done].
  by eapply (effect_coherent s).
Qed.

Lemma run_coherent evs s :
  wf s → coherent cfg s → coherent cfg (run cfg s evs).
Proof.
  revert s. induction evs as [|e evs IH]; intros s Hwf Hc; [done|].
  cbn. apply IH; [by apply step_wf | by apply step_coherent].
Qed.

Lemma reachable_coherent now0 evs :
  coherent cfg (run cfg (new_SourceFetcher cfg now0) evs).
Proof.
  apply run_coherent; [apply new_SourceFetcher_wf|].
  eapply (effect_coherent fresh); [apply wf_fresh | apply coherent_fresh |].
  apply fetch_effect, wf_fresh.
Qed.
End coherence.

(** ** The visits of the fetch loop *)

Section visits.
Variable cfg : Config.

Lemma fetch_visit now hs i s :
  wf s → ∃ s', fetch cfg now hs i s = (Normal (), s') ∧ visit cfg now hs i s s'.
Proof.
  intros Hwf.
  destruct (hs !! i) as [h|] eqn:Hh.
  2:{ eexists. split; [by apply fetch_round | by apply visit_round]. }
  destruct (obj_get h (subscriptions s)) as [l|] eqn:Hl.
  2:{ eexists. split; [by eapply fetch_absent | by eapply visit_absent]. }
  destruct (wf_lookup s h l Hwf Hl) as [o Ho].
  destruct (beingProcessed o) eqn:Hb.
  { eexists. split; [by eapply fetch_busy | by eapply visit_busy]. }
  destruct (obj_get h (timestamps s)) as [t|] eqn:Ht.
  - destruct (decide (t + cleanupTime cfg < now)%Z) as [Hlt|Hge].
    + eexists. split.
      * rewrite (fetch_expired cfg now hs i h l o t s Hh Hl Ho Hb Ht Hlt).
        by rewrite (cleanup_run h l o s Hl Ho).
      * by eapply visit_expired.
    + assert (∀ t', obj_get h (timestamps s) = Some t' →
                    ¬ (t' + cleanupTime cfg < now)%Z) as Hno.
      { intros t' Ht'. rewrite Ht in Ht'. by injection Ht' as <-. }
      eexists. split; [by eapply fetch_dispatch | by eapply visit_dispatch].
  - assert (∀ t', obj_get h (timestamps s) = Some t' →
                  ¬ (t' + cleanupTime cfg < now)%Z) as Hno.
    { intros t' Ht'. by rewrite Ht in Ht'. }
    eexists. split; [by eapply fetch_dispatch | by eapply visit_dispatch].
Qed.

Lemma step_visit s k now tm :
  wf s → timers s !! k = Some tm →
  fetch cfg now (arg_sourceHashes tm) (arg_index tm) (with_timers (delete k) s) =
    (Normal (), step cfg s (TimerFires k now)) ∧
  visit cfg now (arg_sourceHashes tm) (arg_index tm) (with_timers (delete k) s)
    (step cfg s (TimerFires k now)).
Proof.
  intros Hwf Hk. rewrite (step_timer cfg s k now tm Hk).
  assert (wf (with_timers (delete k) s)) as Hwf' by (eapply (wf_same s); by_fields).
  destruct (fetch_visit now (arg_sourceHashes tm) (arg_index tm) _ Hwf')
    as (s' & Hrun & Hv).
  unfold exec. rewrite Hrun. by split.
Qed.

Lemma alive_timer s k tm :
  alive s → timers s !! k = Some tm → k = 0 ∧ timers s = [tm].
Proof.
  unfold alive. intros Ha Hk.
  destruct (timers s) as [|t [|t' ts]]; try done.
  destruct k as [|k]; [|done]. cbn in Hk. by injection Hk as ->.
Qed.
End visits.

(** X1.  In every state the fetcher can reach, [fileCounter] is the number
    of subscribed hashes and [subscriptionCounter] is the number of callbacks
    waiting in them: [subscribe] and [cleanup] keep the counters in step
    with the map. *)
Theorem X1_counters_count_the_map (cfg : Config) (now0 : Z) (evs : list Event) :
  let s := run cfg (new_SourceFetcher cfg now0) evs in
  fileCounter s = Z.of_nat (length (subscriptions s)) ∧
  subscriptionCounter s = Z.of_nat (length (pending_callbacks s)) ∧
  (0 ≤ fileCounter s)%Z ∧ (0 ≤ subscriptionCounter s)%Z.
Proof.
  intros s. destruct (reachable_coherent cfg now0 evs) as [Hf Hs _ _ _ _].
  fold s in Hf, Hs. rewrite Hf, Hs. split_and!; [done|done|lia|lia].
Qed.

(** X2.  In every state the fetcher can reach, a hash has a timestamp
    exactly when it is subscribed, so [shouldCleanup] never reads an
    undefined timestamp for a subscribed hash. *)
Theorem X2_timestamps_follow_subscriptions
    (cfg : Config) (now0 : Z) (evs : list Event) (h : string) :
  let s := run cfg (new_SourceFetcher cfg now0) evs in
  obj_has h (timestamps s) = obj_has h (subscriptions s) ∧
  (obj_has h (subscriptions s) = true →
   ∀ now, ∃ t, obj_get h (timestamps s) = Some t ∧
     shouldCleanup cfg now h s =
       (Normal (bool_decide (t + cleanupTime cfg < now)%Z), s)).
Proof.
  intros s. destruct (reachable_coherent cfg now0 evs) as [_ _ Ht _ _ _].
  fold s in Ht. split; [apply Ht|].
  intros Hs now. specialize (Ht h). rewrite Hs in Ht. unfold obj_has in Ht.
  destruct (obj_get h (timestamps s)) as [t|] eqn:E; [|done].
  exists t. split; [done|]. unfold shouldCleanup. js_unfold. cbn. by rewrite E.
Qed.

Lemma X2_witness :
  let s := run default_cfg (new_SourceFetcher default_cfg 0) stale_trace in
  ∃ t, obj_get "ipfs:QmA" (timestamps s) = Some t ∧
       shouldCleanup default_cfg 5 "ipfs:QmA" s =
         (Normal (bool_decide (t + cleanupTime default_cfg < 5)%Z), s).
Proof.
  refine (proj2 (X2_timestamps_follow_subscriptions default_cfg 0 stale_trace "ipfs:QmA")
            _ 5%Z).
  vm_compute; reflexivity.
Defined.

Lemma forEach_ends_cases outcome k file cbs :
  forEach_ends outcome k file cbs = Normal () ∨
  ∃ j cb message, outcome j cb file = Some message ∧ cb ∈ cbs ∧
                  forEach_ends outcome k file cbs = Throw message.
Proof.
  destruct (forEach_ends outcome k file cbs) as [[]|message] eqn:E; [by left|].
  right. destruct (reached_throw outcome k file cbs message E)
    as (j & cb & Hj & Hm & _ & _).
  exists (k + j), cb, message. split_and!; [done| |done].
  by eapply list_elem_of_lookup_2.
Qed.

(** X3.  In every state the fetcher can reach, neither [fetch] nor
    [notifySubscribers] reads a field of a missing subscription.  The
    handler of a timer completes normally.  The handler of a response body
    completes normally unless a subscriber callback throws; then it ends
    with what that callback threw, and with nothing else. *)
Theorem X3_handlers_fail_only_through_callbacks
    (cfg : Config) (now0 : Z) (evs : list Event) :
  let s := run cfg (new_SourceFetcher cfg now0) evs in
  (∀ k now tm, timers s !! k = Some tm →
     fetch cfg now (arg_sourceHashes tm) (arg_index tm) (with_timers (delete k) s) =
       (Normal (), step cfg s (TimerFires k now))) ∧
  (∀ i r status text,
     requests s !! i = Some r → req_phase r = AwaitingBody status →
     ∃ ending,
       on_text cfg i r status text s = (ending, step cfg s (BodyArrives i text)) ∧
       thrown_by_a_callback cfg text ending) ∧
  (∀ h file, ∃ ending s',
     notifySubscribers cfg h file s = (ending, s') ∧
     thrown_by_a_callback cfg file ending).
Proof.
  intros s. destruct (reachable_wf cfg now0 evs) as [Hwf _]. fold s in Hwf.
  clearbody s.
  assert (∀ s0 h file, wf s0 →
            ∃ ending, notifySubscribers cfg h file s0 =
                        (ending, exec (notifySubscribers cfg h file) s0) ∧
                      thrown_by_a_callback cfg file ending) as Hn.
  { intros s0 h file Hwf0. unfold exec.
    destruct (obj_get h (subscriptions s0)) as [l|] eqn:Hl.
    - destruct (wf_lookup s0 h l Hwf0 Hl) as [o Ho].
      rewrite (notifySubscribers_run cfg h file l o s0 Hl Ho).
      eexists. split; [reflexivity|]. unfold thrown_by_a_callback.
      destruct (forEach_ends_cases (callback_outcome cfg) (length (called s0)) file
                  (subscribers o)) as [->|(j & cb & m & Hm & _ & ->)]; [by left|].
      right. by exists j, cb, m.
    - rewrite (notifySubscribers_absent cfg h file s0 Hl).
      eexists. split; [reflexivity|by left]. }
  split_and!.
  - intros k now tm Hk. by apply step_visit.
  - intros i r status text Hi Hp. cbn [step]. rewrite Hi, Hp.
    unfold on_text, exec. unfold mbind at 1 2, JS_bind at 1 2, modify.
    destruct (decide (status = HTTP_OK)).
    + apply Hn. eapply (wf_close i r s); try by_fields. by rewrite Hp.
    + eexists. split; [reflexivity|by left].
  - intros h file. destruct (Hn s h file Hwf) as (ending & Hrun & He).
    by eexists _, _.
Qed.

Lemma X3_witness :
  let s := run default_cfg (new_SourceFetcher default_cfg 0) stale_trace in
  fetch default_cfg 5 ["ipfs:QmA"] 0 (with_timers (delete 0) s) =
    (Normal (), step default_cfg s (TimerFires 0 5)).
Proof.
  refine (proj1 (X3_handlers_fail_only_through_callbacks default_cfg 0 stale_trace)
            0 5%Z (timer_for 0 ["ipfs:QmA"] 0) _).
  vm_compute; reflexivity.
Defined.

(** X4.  In every state the fetcher can reach, a timer that fires leaves
    exactly one timer behind.  Past the end of the list the next round
    starts at index 0 over the hashes subscribed now, without pause and
    without a request.  Inside the list the next index of the same list is
    scheduled, after [fetchPause] exactly when the visit sent a request and
    without pause otherwise. *)
Theorem X4_fetch_pauses_only_after_a_request
    (cfg : Config) (now0 : Z) (evs : list Event) (k : nat) (now : Z) (tm : Timer) :
  let s := run cfg (new_SourceFetcher cfg now0) evs in
  timers s !! k = Some tm →
  let s' := step cfg s (TimerFires k now) in
  ∃ next, timers s' = [next] ∧
    match arg_sourceHashes tm !! arg_index tm with
    | None =>
        next = timer_for NO_PAUSE (obj_keys (subscriptions s)) STARTING_INDEX ∧
        requests s' = requests s ∧ subscriptions s' = subscriptions s
    | Some _ =>
        arg_sourceHashes next = arg_sourceHashes tm ∧
        arg_index next = arg_index tm + 1 ∧
        ((requests s' = requests s ∧ delay next = NO_PAUSE) ∨
         (∃ r, requests s' = requests s ++ [r] ∧ delay next = fetchPause cfg))
    end.
Proof.
  intros s Hk s'. destruct (reachable_wf cfg now0 evs) as [Hwf Ha]. fold s in Hwf, Ha.
  destruct (step_visit cfg s k now tm Hwf Hk) as [_ Hv]. fold s' in Hv.
  destruct (alive_timer s k tm Ha Hk) as [-> Hts].
  clearbody s s'.
  inversion Hv as [Hh Hs'|h Hh Hl Hs'|h l o Hh Hl Ho Hb Hs'
                  |h l o t Hh Hl Ho Hb Ht Hlt Hs'|h l o Hh Hl Ho Hb Ht Hs'];
    rewrite Hh; cbn; rewrite Hts; cbn; eexists; (split; [reflexivity|]); cbn.
  - done.
  - split_and!; [done..|]. by left.
  - split_and!; [done..|]. by left.
  - split_and!; [done..|]. by left.
  - split_and!; [done..|]. right. by eexists.
Qed.

Lemma X4_witness :
  let s := run default_cfg (new_SourceFetcher default_cfg 0) stale_trace in
  let s' := step default_cfg s (TimerFires 0 5) in
  ∃ next, timers s' = [next] ∧
    arg_sourceHashes next = ["ipfs:QmA"] ∧
    arg_index next = 0 + 1 ∧
    ((requests s' = requests s ∧ delay next = NO_PAUSE) ∨
     (∃ r, requests s' = requests s ++ [r] ∧ delay next = fetchPause default_cfg)).
Proof.
  refine (X4_fetch_pauses_only_after_a_request default_cfg 0 stale_trace 0 5%Z
            (timer_for 0 ["ipfs:QmA"] 0) _).
  vm_compute; reflexivity.
Defined.

(** X5.  In every state the fetcher can reach, every request that was sent
    carries the configured timeout, and its URL is the one the first gateway
    that works with the origin of some address makes of the hash of that
    address, the address being one whose unique identifier is the key the
    request was sent for. *)
Theorem X5_requests_use_the_gateway_url
    (cfg : Config) (now0 : Z) (evs : list Event) (r : Request) :
  let s := run cfg (new_SourceFetcher cfg now0) evs in
  r ∈ requests s →
  req_timeout r = fetchTimeout cfg ∧
  ∃ sa g, find_gateway (gateways cfg) (origin sa) = Some g ∧
          req_fetchUrl r = createUrl g (id sa) ∧
          req_sourceHash r = getUniqueIdentifier sa.
Proof.
  intros s Hr. destruct (reachable_coherent cfg now0 evs) as [_ _ _ Ho _ Hq].
  fold s in Ho, Hq. destruct (Hq r Hr) as (Ht & o & Hlo & Hu & Hh).
  split; [done|]. destruct (Ho _ o Hlo) as (g & Hg & Hurl).
  exists (sourceAddress o), g. by rewrite Hu, Hurl.
Qed.

Lemma X5_witness :
  req_timeout waiting_request = fetchTimeout default_cfg ∧
  ∃ sa g, find_gateway (gateways default_cfg) (origin sa) = Some g ∧
          req_fetchUrl waiting_request = createUrl g (id sa) ∧
          req_sourceHash waiting_request = getUniqueIdentifier sa.
Proof.
  refine (X5_requests_use_the_gateway_url default_cfg 0 waiting_trace waiting_request _).
  vm_compute. apply list_elem_of_here.
Defined.

(** ** Gateways and removal *)

Lemma find_gateway_first gs o g :
  find_gateway gs o = Some g →
  ∃ before after, gs = before ++ g :: after ∧ worksWith g o = true ∧
                  Forall (λ g', worksWith g' o = false) before.
Proof.
  induction gs as [|g' gs IH]; cbn; [done|].
  destruct (worksWith g' o) eqn:E.
  - intros [= ->]. exists [], gs. by split_and!.
  - intros (before & after & -> & Hw & Hb)%IH.
    exists (g' :: before), after. split_and!; [done..|]. by constructor.
Qed.

(** X6.  When [findGateway] returns a gateway, it is the first one in the
    list that works with the origin of the address: no gateway before it
    does, and the fetcher's state is left as it was. *)
Theorem X6_findGateway_returns_the_first_match
    (cfg : Config) (sa : SourceAddress) (s s' : State) (g : SimpleGateway) :
  findGateway cfg sa s = (Normal g, s') →
  s' = s ∧
  ∃ before after, gateways cfg = before ++ g :: after ∧
                  worksWith g (origin sa) = true ∧
                  Forall (λ g', worksWith g' (origin sa) = false) before.
Proof.
  unfold findGateway.
  destruct (find_gateway (gateways cfg) (origin sa)) as [g'|] eqn:E; [|done].
  intros [= -> ->]. split; [done|]. by apply find_gateway_first.
Qed.

Lemma X6_witness :
  ∃ before after, gateways default_cfg = before ++ swarm_gateway :: after ∧
                  worksWith swarm_gateway "bzzr1" = true ∧
                  Forall (λ g', worksWith g' "bzzr1" = false) before.
Proof.
  refine (proj2 (X6_findGateway_returns_the_first_match default_cfg swarm_address
                   fresh fresh swarm_gateway _)).
  vm_compute; reflexivity.
Defined.

Section removal.
Variable cfg : Config.

Lemma obj_has_app_fresh {V} h k (v : V) (o : list (string * V)) :
  obj_get k o = None → obj_has h o = true → obj_has h (o ++ [(k, v)]) = true.
Proof.
  intros Hk Hh. rewrite <- (obj_set_fresh _ v _ Hk), obj_has_set.
  by destruct (decide (k = h)).
Qed.

Lemma subscribe_keeps now sa cb h s :
  wf s → obj_has h (subscriptions s) = true →
  obj_has h (subscriptions (exec (subscribe cfg now sa cb) s)) = true.
Proof.
  intros Hwf Hh. unfold exec.
  destruct (find_gateway (gateways cfg) (origin sa)) as [g|] eqn:Hg.
  - destruct (obj_get (getUniqueIdentifier sa) (subscriptions s)) as [l|] eqn:Hl.
    + destruct (wf_lookup s _ l Hwf Hl) as [o Ho].
      by rewrite (subscribe_existing cfg now sa cb g l o s Hg Hl Ho).
    + rewrite (subscribe_new cfg now sa cb g s Hg Hl). cbn -[obj_has].
      by apply obj_has_app_fresh.
  - by rewrite (subscribe_throws cfg now sa cb s Hg).
Qed.

Lemma notify_removes h' file h s :
  wf s → obj_has h (subscriptions s) = true →
  obj_has h (subscriptions (exec (notifySubscribers cfg h' file) s)) = false →
  h' = h.
Proof.
  intros Hwf Hh. unfold exec.
  destruct (obj_get h' (subscriptions s)) as [l|] eqn:Hl.
  - destruct (wf_lookup s h' l Hwf Hl) as [o Ho].
    rewrite (notifySubscribers_run cfg h' file l o s Hl Ho), (cleanup_run h' l o s Hl Ho).
    cbn -[obj_has obj_delete]. rewrite obj_has_delete.
    destruct (decide (h' = h)); [done|clash Hh].
  - rewrite (notifySubscribers_absent cfg h' file s Hl). clash Hh.
Qed.
End removal.

(** X7.  In every state the fetcher can reach, an event takes a subscribed
    hash out of the map only in two cases: the loop visits it while its
    subscription has no unsettled request and its timestamp is older than
    [cleanupTime], or the body of a response with status 200 arrives for it.
    Nothing else unsubscribes a hash. *)
Theorem X7_unsubscribed_only_when_expired_or_delivered
    (cfg : Config) (now0 : Z) (evs : list Event) (e : Event) (h : string) :
  let s := run cfg (new_SourceFetcher cfg now0) evs in
  obj_has h (subscriptions s) = true →
  obj_has h (subscriptions (step cfg s e)) = false →
  (∃ k now tm l o t,
     e = TimerFires k now ∧ timers s !! k = Some tm ∧
     arg_sourceHashes tm !! arg_index tm = Some h ∧
     obj_get h (subscriptions s) = Some l ∧ heap s !! l = Some o ∧
     beingProcessed o = false ∧
     obj_get h (timestamps s) = Some t ∧ (t + cleanupTime cfg < now)%Z) ∨
  (∃ i text r,
     e = BodyArrives i text ∧ requests s !! i = Some r ∧
     req_phase r = AwaitingBody HTTP_OK ∧ req_sourceHash r = h).
Proof.
  intros s Hh. destruct (reachable_wf cfg now0 evs) as [Hwf _]. fold s in Hwf.
  clearbody s.
  destruct e as [now sa cb|k now|i status|i msg|i text|i].
  - cbn [step]. rewrite (subscribe_keeps cfg now sa cb h s Hwf Hh). done.
  - destruct (timers s !! k) as [tm|] eqn:Hk.
    2:{ cbn [step]. rewrite Hk. clash Hh. }
    destruct (step_visit cfg s k now tm Hwf Hk) as [_ Hv]. revert Hv.
    generalize (step cfg s (TimerFires k now)). intros s' Hv.
    inversion Hv as [Hi Hs'|h' Hi Hl Hs'|h' l o Hi Hl Ho Hb Hs'
                    |h' l o t Hi Hl Ho Hb Ht Hlt Hs'|h' l o Hi Hl Ho Hb Ht Hs'];
      cbn -[obj_has obj_delete]; try clash Hh.
    rewrite obj_has_delete. destruct (decide (h' = h)) as [->|]; [|clash Hh].
    intros _. left. exists k, now, tm, l, o, t. by split_and!.
  - cbn [step]. destruct (requests s !! i) as [r|]; [|clash Hh].
    destruct (decide (req_phase r = Pending)); cbn; clash Hh.
  - cbn [step]. destruct (requests s !! i) as [r|]; [|clash Hh].
    destruct (decide (req_phase r = Pending)); cbn; clash Hh.
  - cbn [step]. destruct (requests s !! i) as [r|] eqn:Hi; [|clash Hh].
    destruct (req_phase r) as [|status|] eqn:Hp; try clash Hh.
    unfold on_text, exec. unfold mbind at 1, JS_bind at 1, modify.
    destruct (decide (status = HTTP_OK)) as [->|]; [|cbn; clash Hh].
    intros Hgone. right. exists i, text, r. split_and!; [done..|].
    eapply (notify_removes cfg _ text h (with_requests (alter (set_phase Closed) i) s));
      [|exact Hh|exact Hgone].
    eapply (wf_close i r s); try by_fields. by rewrite Hp.
  - cbn [step]. destruct (requests s !! i) as [r|]; [|clash Hh].
    destruct (req_phase r); cbn; clash Hh.
Qed.

Lemma X7_witness :
  let s := run default_cfg (new_SourceFetcher default_cfg 0) stale_trace in
  (∃ k now tm l o t,
     TimerFires 0 2000000 = TimerFires k now ∧ timers s !! k = Some tm ∧
     arg_sourceHashes tm !! arg_index tm = Some "ipfs:QmA" ∧
     obj_get "ipfs:QmA" (subscriptions s) = Some l ∧ heap s !! l = Some o ∧
     beingProcessed o = false ∧
     obj_get "ipfs:QmA" (timestamps s) = Some t ∧
     (t + cleanupTime default_cfg < now)%Z) ∨
  (∃ i text r,
     TimerFires 0 2000000 = BodyArrives i text ∧ requests s !! i = Some r ∧
     req_phase r = AwaitingBody HTTP_OK ∧ req_sourceHash r = "ipfs:QmA").
Proof.
  refine (X7_unsubscribed_only_when_expired_or_delivered default_cfg 0 stale_trace
            (TimerFires 0 2000000) "ipfs:QmA" _ _);
    vm_compute; reflexivity.
Defined.

(** ** Rounds *)

Section rounds.
Variable cfg : Config.

Lemma step_keeps_timer s e :
  wf s → alive s → fires e = false → timers (step cfg s e) = timers s.
Proof.
  intros Hwf Ha He.
  destruct e as [now sa cb|k now|i status|i msg|i text|i]; cbn [step].
  - by rewrite subscribe_timers.
  - destruct k as [|k]; [done|].
    assert (timers s !! S k = None) as ->; [|done].
    apply lookup_ge_None_2. unfold alive in Ha. lia.
  - destruct (requests s !! i) as [r|] eqn:Hi; [|done].
    destruct (decide (req_phase r = Pending)) as [Hp|]; done.
  - destruct (requests s !! i) as [r|] eqn:Hi; [|done].
    destruct (decide (req_phase r = Pending)) as [Hp|]; done.
  - destruct (requests s !! i) as [r|] eqn:Hi; [|done].
    destruct (req_phase r) as [|status|] eqn:Hp; try done.
    unfold on_text, exec. unfold mbind at 1, JS_bind at 1, modify.
    destruct (decide (status = HTTP_OK)); [|done].
    fold (exec (notifySubscribers cfg (req_sourceHash r) text)
               (with_requests (alter (set_phase Closed) i) s)).
    by rewrite notify_timers.
  - destruct (requests s !! i) as [r|] eqn:Hi; [|done].
    destruct (req_phase r) as [|status|] eqn:Hp; done.
Qed.

Lemma step_advances s now tm :
  wf s → timers s = [tm] → arg_index tm < length (arg_sourceHashes tm) →
  ∃ next, timers (step cfg s (TimerFires 0 now)) = [next] ∧
          arg_sourceHashes next = arg_sourceHashes tm ∧
          arg_index next = arg_index tm + 1.
Proof.
  intros Hwf Hts Hlt.
  assert (timers s !! 0 = Some tm) as Hk by by rewrite Hts.
  destruct (step_visit cfg s 0 now tm Hwf Hk) as [_ Hv]. revert Hv.
  generalize (step cfg s (TimerFires 0 now)). intros s' Hv.
  apply lookup_lt_is_Some in Hlt as [h Hh].
  inversion Hv as [Hi Hs'|h' Hi Hl Hs'|h' l o Hi Hl Ho Hb Hs'
                  |h' l o t Hi Hl Ho Hb Ht Hlt Hs'|h' l o Hi Hl Ho Hb Ht Hs'];
    [congruence|..]; cbn; rewrite Hts; cbn; eexists; by split_and!.
Qed.

Lemma round_progress evs s tm :
  wf s → alive s → timers s = [tm] →
  arg_index tm + ticks evs ≤ length (arg_sourceHashes tm) →
  ∃ next, timers (run cfg s evs) = [next] ∧
          arg_sourceHashes next = arg_sourceHashes tm ∧
          arg_index next = arg_index tm + ticks evs.
Proof.
  revert s tm. induction evs as [|e evs IH]; intros s tm Hwf Ha Hts Hle.
  - exists tm. cbn. split_and!; [done..|]. unfold ticks. cbn. lia.
  - cbn [run foldl]. fold (run cfg (step cfg s e) evs).
    unfold ticks in Hle |- *. rewrite filter_cons in Hle |- *.
    destruct (fires e) eqn:He.
    + rewrite decide_True in Hle |- * by done. cbn [length] in Hle |- *.
      destruct e as [| [|k] now | | | |]; try done.
      destruct (step_advances s now tm Hwf Hts) as (next & Hn & Hhs & Hi); [lia|].
      destruct (IH (step cfg s (TimerFires 0 now)) next) as (last & Hl & Hhs' & Hi').
      * by apply step_wf.
      * by apply step_alive.
      * done.
      * rewrite Hhs, Hi. fold (ticks evs). unfold ticks. lia.
      * exists last. split_and!; [done|congruence|]. rewrite Hi', Hi.
        unfold ticks. lia.
    + rewrite decide_False in Hle |- * by done.
      apply IH; [by apply step_wf | by apply step_alive | | done].
      by rewrite step_keeps_timer.
Qed.
End rounds.

(** X8.  In every state the fetcher can reach there is one pending call of
    [fetch], and until its index passes the end of its list every firing
    moves the index on by one over the same list, whatever subscriptions,
    responses and bodies arrive in between: a round visits the hashes it
    started with once each, in order, and hashes subscribed meanwhile wait
    for the next round. *)
Theorem X8_a_round_walks_its_list_in_order
    (cfg : Config) (now0 : Z) (evs more : list Event) (tm : Timer) :
  let s := run cfg (new_SourceFetcher cfg now0) evs in
  timers s = [tm] →
  arg_index tm + ticks more ≤ length (arg_sourceHashes tm) →
  ∃ next, timers (run cfg s more) = [next] ∧
          arg_sourceHashes next = arg_sourceHashes tm ∧
          arg_index next = arg_index tm + ticks more.
Proof.
  intros s Hts Hle. destruct (reachable_wf cfg now0 evs) as [Hwf Ha].
  by apply round_progress.
Qed.

Lemma X8_witness :
  let s := run default_cfg (new_SourceFetcher default_cfg 0) round_trace in
  ∃ next,
    timers (run default_cfg s
              [TimerFires 0 1; CallSubscribe 2 QmA 9; FetchResolves 0 200;
               TimerFires 0 1001]) = [next] ∧
    arg_sourceHashes next = ["ipfs:QmA"; "ipfs:QmB"] ∧
    arg_index next = 0 + 2.
Proof.
  refine (X8_a_round_walks_its_list_in_order default_cfg 0 round_trace
            [TimerFires 0 1; CallSubscribe 2 QmA 9; FetchResolves 0 200;
             TimerFires 0 1001]
            (timer_for 0 ["ipfs:QmA"; "ipfs:QmB"] 0) _ _).
  - vm_compute; reflexivity.
  - vm_compute. lia.
Defined.

(** ** Deliveries *)

Lemma subscribed_in_more evs evs' cb h :
  subscribed_in evs cb h → subscribed_in (evs ++ evs') cb h.
Proof.
  intros (now & sa & Hin & Hh). exists now, sa. split; [|done].
  apply elem_of_app. by left.
Qed.

Lemma lookup_alter_subscribers b l (hp : list Subscription) l' o :
  alter (set_beingProcessed b) l hp !! l' = Some o →
  ∃ o0, hp !! l' = Some o0 ∧ subscribers o = subscribers o0.
Proof.
  destruct (decide (l = l')) as [<-|Hne].
  - rewrite list_lookup_alter_eq. destruct (hp !! l) as [o0|]; [|done].
    cbn. intros [= <-]. by exists o0.
  - rewrite list_lookup_alter_ne by done. intros H. by exists o.
Qed.

Lemma quiet_same s s' :
  subscriptions s' = subscriptions s → heap s' = heap s → quiet s s'.
Proof. intros H1 H2 h l o. rewrite H1, H2. intros Hl Ho. by exists o. Qed.

Lemma quiet_delete h0 s s' :
  subscriptions s' = obj_delete h0 (subscriptions s) → heap s' = heap s → quiet s s'.
Proof.
  intros H1 H2 h l o. rewrite H1, H2.
  intros [_ Hl]%obj_get_delete_Some Ho. by exists o.
Qed.

Lemma quiet_flag b l0 s s' :
  subscriptions s' = subscriptions s →
  heap s' = alter (set_beingProcessed b) l0 (heap s) → quiet s s'.
Proof.
  intros H1 H2 h l o. rewrite H1, H2.
  intros Hl (o0 & Ho0 & Hs)%lookup_alter_subscribers. by exists o0.
Qed.

Lemma quiet_trans s1 s2 s3 : quiet s1 s2 → quiet s2 s3 → quiet s1 s3.
Proof.
  intros H12 H23 h l o Hl Ho.
  destruct (H23 h l o Hl Ho) as (o2 & Hl2 & Ho2 & Hs2).
  destruct (H12 h l o2 Hl2 Ho2) as (o1 & Hl1 & Ho1 & Hs1).
  exists o1. split_and!; [done..|congruence].
Qed.

Section deliveries.
Variable cfg : Config.

Lemma notify_quiet h file s : wf s → quiet s (exec (notifySubscribers cfg h file) s).
Proof.
  intros Hwf. unfold exec.
  destruct (obj_get h (subscriptions s)) as [l|] eqn:Hl.
  - destruct (wf_lookup s h l Hwf Hl) as [o Ho].
    rewrite (notifySubscribers_run cfg h file l o s Hl Ho), (cleanup_run h l o s Hl Ho).
    by apply (quiet_delete h).
  - rewrite (notifySubscribers_absent cfg h file s Hl). by apply quiet_same.
Qed.

(** No event but a [subscribe] call adds a key or a subscriber. *)
Lemma step_quiet s e :
  wf s → (∀ now sa cb, e ≠ CallSubscribe now sa cb) → quiet s (step cfg s e).
Proof.
  intros Hwf Hne.
  destruct e as [now sa cb|k now|i status|i msg|i text|i].
  - by destruct (Hne now sa cb).
  - destruct (timers s !! k) as [tm|] eqn:Hk.
    2:{ cbn [step]. rewrite Hk. by apply quiet_same. }
    destruct (step_visit cfg s k now tm Hwf Hk) as [_ Hv]. revert Hv.
    generalize (step cfg s (TimerFires k now)). intros s' Hv.
    inversion Hv as [Hi Hs'|h' Hi Hl Hs'|h' l o Hi Hl Ho Hb Hs'
                    |h' l o t Hi Hl Ho Hb Ht Hlt Hs'|h' l o Hi Hl Ho Hb Ht Hs'].
    + by apply quiet_same.
    + by apply quiet_same.
    + by apply quiet_same.
    + by apply (quiet_delete h').
    + by apply (quiet_flag true l).
  - cbn [step]. destruct (requests s !! i) as [r|]; [|by apply quiet_same].
    destruct (decide (req_phase r = Pending)); [|by apply quiet_same].
    by apply (quiet_flag false (req_subscription r)).
  - cbn [step]. destruct (requests s !! i) as [r|]; [|by apply quiet_same].
    destruct (decide (req_phase r = Pending)); [|by apply quiet_same].
    by apply (quiet_flag false (req_subscription r)).
  - cbn [step]. destruct (requests s !! i) as [r|] eqn:Hi; [|by apply quiet_same].
    destruct (req_phase r) as [|status|] eqn:Hp; try by apply quiet_same.
    unfold on_text, exec. unfold mbind at 1, JS_bind at 1, modify.
    destruct (decide (status = HTTP_OK)); [|by apply quiet_same].
    eapply (quiet_trans _ (with_requests (alter (set_phase Closed) i) s));
      [by apply quiet_same|].
    apply notify_quiet. eapply (wf_close i r s); try by_fields. by rewrite Hp.
  - cbn [step]. destruct (requests s !! i) as [r|]; [|by apply quiet_same].
    destruct (req_phase r); by apply quiet_same.
Qed.

Lemma effect_requests_stay s s' : effect cfg s s' → requests_stay s s'.
Proof.
  intros [H1 H2 H3 H4 H5 H6
         |h l o Hl Ho H1 H2 H3 H4 H5 H6
         |h l o Hl Ho Hb H1 H2 H3 H4 H5 H6
         |j r0 p Hj Hp Hne H1 H2 H3 H4 H5 H6
         |j r0 Hj Hp H1 H2 H3 H4 H5 H6
         |now sa cb g Hg Hn H1 H2 H3 H4 H5 H6
         |now sa cb l o Hl Ho H1 H2 H3 H4 H5 H6] i r Hi; rewrite H6.
  - by exists r.
  - by exists r.
  - exists r. split; [|done]. by apply lookup_app_l_Some.
  - destruct (decide (j = i)) as [->|Hji].
    + rewrite list_lookup_alter_eq, Hi. cbn. by eexists.
    + rewrite list_lookup_alter_ne by done. by exists r.
  - destruct (decide (j = i)) as [->|Hji].
    + rewrite list_lookup_alter_eq, Hi. cbn. by eexists.
    + rewrite list_lookup_alter_ne by done. by exists r.
  - by exists r.
  - by exists r.
Qed.

Lemma step_requests_stay s e : wf s → requests_stay s (step cfg s e).
Proof.
  intros Hwf. destruct (step_effects cfg s e Hwf) as (s1 & E1 & E2).
  intros i r Hi.
  destruct (effect_requests_stay _ _ E1 i r Hi) as (r1 & Hi1 & Hh1).
  destruct (effect_requests_stay _ _ E2 i r1 Hi1) as (r2 & Hi2 & Hh2).
  exists r2. split; [done|congruence].
Qed.

(** Calls are recorded only when the body of a response with status 200
    arrives for a subscribed key, and then for subscribers of it. *)
Lemma step_called_cases s e :
  wf s →
  called (step cfg s e) = called s ∨
  ∃ i text r l o some,
    e = BodyArrives i text ∧ requests s !! i = Some r ∧
    req_phase r = AwaitingBody HTTP_OK ∧
    obj_get (req_sourceHash r) (subscriptions s) = Some l ∧ heap s !! l = Some o ∧
    some `prefix_of` subscribers o ∧
    called (step cfg s e) = called s ++ ((λ cb, (cb, text)) <$> some).
Proof.
  intros Hwf. destruct e as [now sa cb|k now|i status|i msg|i text|i]; cbn [step].
  - left. unfold exec.
    destruct (find_gateway (gateways cfg) (origin sa)) as [g|] eqn:Hg.
    + destruct (obj_get (getUniqueIdentifier sa) (subscriptions s)) as [l|] eqn:Hl.
      * destruct (wf_lookup s _ l Hwf Hl) as [o Ho].
        by rewrite (subscribe_existing cfg now sa cb g l o s Hg Hl Ho).
      * by rewrite (subscribe_new cfg now sa cb g s Hg Hl).
    + by rewrite (subscribe_throws cfg now sa cb s Hg).
  - left. destruct (timers s !! k) as [t|]; [|done].
    assert (wf (with_timers (delete k) s)) as Hwf' by (eapply (wf_same s); by_fields).
    by destruct (fetch_account cfg now (arg_sourceHashes t) (arg_index t) 0 _ Hwf') as [-> _].
  - left. destruct (requests s !! i) as [r|]; [|done].
    by destruct (decide (req_phase r = Pending)).
  - left. destruct (requests s !! i) as [r|]; [|done].
    by destruct (decide (req_phase r = Pending)).
  - destruct (requests s !! i) as [r|] eqn:Hi; [|by left].
    destruct (req_phase r) as [|status|] eqn:Hp; try by left.
    unfold on_text, exec. unfold mbind, JS_bind, modify.
    destruct (decide (status = HTTP_OK)) as [->|]; [|by left].
    set (s1 := with_requests (alter (set_phase Closed) i) s).
    destruct (obj_get (req_sourceHash r) (subscriptions s1)) as [l|] eqn:Hl.
    + assert (wf s1) as Hwf1.
      { eapply (wf_close i r s); try by_fields. by rewrite Hp. }
      destruct (wf_lookup s1 _ l Hwf1 Hl) as [o Ho].
      rewrite (notifySubscribers_run cfg _ text l o s1 Hl Ho), (cleanup_run _ l o s1 Hl Ho).
      right.
      exists i, text, r, l, o,
        (reached (callback_outcome cfg) (length (called s)) text (subscribers o)).
      split_and!; first [done | exact Hl | exact Ho | apply reached_prefix | reflexivity].
    + rewrite (notifySubscribers_absent cfg _ text s1 Hl). by left.
  - left. destruct (requests s !! i) as [r|]; [|done].
    by destruct (req_phase r).
Qed.

Lemma subscribe_waiting now sa cb evs s :
  wf s → waiting_as_subscribed evs s →
  waiting_as_subscribed (evs ++ [CallSubscribe now sa cb])
    (exec (subscribe cfg now sa cb) s).
Proof.
  intros Hwf Hw. unfold exec.
  assert (subscribed_in (evs ++ [CallSubscribe now sa cb]) cb (getUniqueIdentifier sa))
    as Hnew.
  { exists now, sa. split; [|done]. apply elem_of_app. right. apply list_elem_of_here. }
  destruct (find_gateway (gateways cfg) (origin sa)) as [g|] eqn:Hg.
  2:{ rewrite (subscribe_throws cfg now sa cb s Hg). cbn.
      intros h l o cb' Hl Ho Hcb. apply subscribed_in_more. by eapply Hw. }
  destruct (obj_get (getUniqueIdentifier sa) (subscriptions s)) as [l0|] eqn:Hl0.
  - destruct (wf_lookup s _ l0 Hwf Hl0) as [o0 Ho0].
    rewrite (subscribe_existing cfg now sa cb g l0 o0 s Hg Hl0 Ho0).
    intros h l o cb'. cbn -[obj_get]. intros Hl Ho Hcb.
    destruct (decide (l0 = l)) as [<-|Hne].
    + rewrite list_lookup_alter_eq, Ho0 in Ho. cbn in Ho. injection Ho as <-.
      assert (h = getUniqueIdentifier sa) as ->.
      { apply obj_get_Some_elem in Hl, Hl0.
        pose proof (wf_locs s Hwf) as Hnd.
        apply list_elem_of_lookup in Hl as [i Hi], Hl0 as [j Hj].
        assert (i = j) as ->.
        { eapply (NoDup_lookup _ i j l0 Hnd); by rewrite list_lookup_fmap, ?Hi, ?Hj. }
        rewrite Hi in Hj. by injection Hj. }
      cbn in Hcb. apply elem_of_app in Hcb as [Hcb| ->%list_elem_of_singleton]; [|done].
      apply subscribed_in_more. by eapply (Hw _ l0 o0).
    + rewrite list_lookup_alter_ne in Ho by done.
      apply subscribed_in_more. by eapply Hw.
  - rewrite (subscribe_new cfg now sa cb g s Hg Hl0).
    intros h l o cb'. cbn -[obj_get].
    rewrite <- (obj_set_fresh _ (length (heap s)) _ Hl0).
    destruct (decide (getUniqueIdentifier sa = h)) as [<-|Hne].
    + rewrite obj_get_set_eq. intros [= <-].
      rewrite lookup_app_r by lia. rewrite Nat.sub_diag. cbn. intros [= <-]. cbn.
      by intros ->%list_elem_of_singleton.
    + rewrite obj_get_set_ne by done. intros Hl Ho Hcb.
      destruct (wf_lookup s h l Hwf Hl) as [o' Ho'].
      rewrite lookup_app_l in Ho by by eapply lookup_lt_Some.
      apply subscribed_in_more. by eapply (Hw h l o cb').
Qed.

Lemma step_waiting evs s e :
  wf s → waiting_as_subscribed evs s →
  waiting_as_subscribed (evs ++ [e]) (step cfg s e).
Proof.
  intros Hwf Hw.
  assert ((∃ now sa cb, e = CallSubscribe now sa cb) ∨
          (∀ now sa cb, e ≠ CallSubscribe now sa cb)) as [(now & sa & cb & ->)|Hne].
  { destruct e; [left; by eexists _, _, _|right; done..]. }
  - by apply subscribe_waiting.
  - assert (quiet s (step cfg s e)) as Hq by by apply step_quiet.
    intros h l o cb Hl Ho Hcb.
    destruct (Hq h l o Hl Ho) as (o0 & Hl0 & Ho0 & Hs).
    apply subscribed_in_more. eapply Hw; [done..|]. by rewrite <- Hs.
Qed.

Lemma step_delivered evs s e :
  wf s → waiting_as_subscribed evs s → delivered_as_subscribed evs s →
  delivered_as_subscribed (evs ++ [e]) (step cfg s e).
Proof.
  intros Hwf Hw Hd cb text Hin.
  assert (∀ cb' text', (cb', text') ∈ called s →
            ∃ i r, BodyArrives i text' ∈ evs ++ [e] ∧
                   requests (step cfg s e) !! i = Some r ∧
                   subscribed_in (evs ++ [e]) cb' (req_sourceHash r)) as Hold.
  { intros cb' text' Hin'. destruct (Hd cb' text' Hin') as (i & r & Hb & Hi & Hs).
    destruct (step_requests_stay s e Hwf i r Hi) as (r' & Hi' & Hh).
    exists i, r'. split_and!; [apply elem_of_app; by left|done|].
    rewrite Hh. by apply subscribed_in_more. }
  destruct (step_called_cases s e Hwf)
    as [Heq|(i & text' & r & l & o & some & -> & Hi & Hp & Hl & Ho & [rest Hsome] & Heq)];
    rewrite Heq in Hin; [by apply Hold|].
  apply elem_of_app in Hin as [Hin|Hin]; [by apply Hold|].
  apply list_elem_of_fmap in Hin as (cb' & [= -> ->] & Hcb).
  assert (cb' ∈ subscribers o) as Hcb'.
  { rewrite Hsome. apply elem_of_app. by left. }
  destruct (step_requests_stay s (BodyArrives i text') Hwf i r Hi) as (r' & Hi' & Hh).
  exists i, r'. split_and!.
  - apply elem_of_app. right. apply list_elem_of_here.
  - done.
  - rewrite Hh. apply subscribed_in_more. by eapply (Hw _ l o).
Qed.

Lemma run_delivered now0 evs :
  let s := run cfg (new_SourceFetcher cfg now0) evs in
  waiting_as_subscribed evs s ∧ delivered_as_subscribed evs s.
Proof.
  induction evs as [|e evs IH] using rev_ind.
  - split.
    + intros h l o cb Hl. by cbn in Hl.
    + intros cb text Hin. cbn in Hin. by apply elem_of_nil in Hin.
  - cbn zeta in *. rewrite run_snoc. destruct IH as [Hw Hd].
    destruct (reachable_wf cfg now0 evs) as [Hwf _].
    split; [by apply step_waiting | by apply step_delivered].
Qed.
End deliveries.

(** X9.  Whatever happens, a callback is only ever called with a file that
    arrived as the body of a response to a request of the fetcher, and the
    callback had been passed to [subscribe] with an address whose unique
    identifier is the key that request was sent for; and a callback waiting
    under a key was subscribed with an address of that identifier. *)
Theorem X9_files_reach_only_their_subscribers
    (cfg : Config) (now0 : Z) (evs : list Event)
    (cb : FetchedFileCallback) (text : string) :
  let s := run cfg (new_SourceFetcher cfg now0) evs in
  (cb, text) ∈ called s →
  ∃ i r now sa,
    BodyArrives i text ∈ evs ∧ requests s !! i = Some r ∧
    CallSubscribe now sa cb ∈ evs ∧
    req_sourceHash r = getUniqueIdentifier sa.
Proof.
  intros s Hin. destruct (run_delivered cfg now0 evs) as [_ Hd].
  destruct (Hd cb text Hin) as (i & r & Hb & Hi & now & sa & Hc & Hh).
  by exists i, r, now, sa.
Qed.

Lemma X9_witness :
  let s := run default_cfg (new_SourceFetcher default_cfg 0) delivered_trace in
  ∃ i r now sa,
    BodyArrives i "file" ∈ delivered_trace ∧ requests s !! i = Some r ∧
    CallSubscribe now sa 8 ∈ delivered_trace ∧
    req_sourceHash r = getUniqueIdentifier sa.
Proof.
  refine (X9_files_reach_only_their_subscribers default_cfg 0 delivered_trace
            8 "file" _).
  vm_compute. apply list_elem_of_further, list_elem_of_here.
Defined.

(** ** A failed fetch and the visits after it *)

Section retries.
Variable cfg : Config.

Lemma sent_for_alter p i h (rs : list Request) :
  length (sent_for h (alter (set_phase p) i rs)) = length (sent_for h rs).
Proof.
  revert i. induction rs as [|r rs IH]; intros i; [done|].
  destruct i as [|i]; cbn [alter list_alter]; unfold sent_for in *;
    rewrite !filter_cons; cbn [req_sourceHash set_phase].
  - by destruct (decide (req_sourceHash r = h)).
  - destruct (decide (req_sourceHash r = h)); cbn [length]; by rewrite IH.
Qed.

(** A request is sent only for a key of the map. *)
Lemma effect_sent_for h s s' :
  obj_get h (subscriptions s) = None → effect cfg s s' →
  length (sent_for h (requests s')) = length (sent_for h (requests s)).
Proof.
  intros Hn [H1 H2 H3 H4 H5 H6
            |h' l o Hl Ho H1 H2 H3 H4 H5 H6
            |h' l o Hl Ho Hb H1 H2 H3 H4 H5 H6
            |j r0 p Hj Hp Hne H1 H2 H3 H4 H5 H6
            |j r0 Hj Hp H1 H2 H3 H4 H5 H6
            |now sa cb g Hg Hn' H1 H2 H3 H4 H5 H6
            |now sa cb l o Hl Ho H1 H2 H3 H4 H5 H6]; rewrite H6;
    try done; try apply sent_for_alter.
  unfold sent_for. rewrite filter_app, filter_cons, filter_nil.
  cbn [req_sourceHash request_for].
  rewrite decide_False; [by rewrite app_nil_r|]. intros ->. congruence.
Qed.

Lemma step_sent_for h s e :
  wf s → obj_get h (subscriptions s) = None →
  length (sent_for h (requests (step cfg s e))) = length (sent_for h (requests s)).
Proof.
  intros Hwf Hn.
  destruct e as [now sa cb|k now|i status|i msg|i text|i]; cbn [step].
  - apply effect_sent_for; [done|]. by apply subscribe_effect.
  - destruct (timers s !! k) as [t|]; [|done].
    apply (effect_sent_for h (with_timers (delete k) s)); [done|].
    apply fetch_effect. eapply (wf_same s); by_fields.
  - destruct (requests s !! i) as [r|] eqn:Hi; [|done].
    destruct (decide (req_phase r = Pending)) as [Hp|]; [|done].
    rewrite on_resolved_run. apply sent_for_alter.
  - destruct (requests s !! i) as [r|] eqn:Hi; [|done].
    destruct (decide (req_phase r = Pending)) as [Hp|]; [|done].
    rewrite on_rejected_run. apply sent_for_alter.
  - destruct (requests s !! i) as [r|] eqn:Hi; [|done].
    destruct (req_phase r) as [|status|] eqn:Hp; try done.
    unfold on_text, exec. unfold mbind at 1, JS_bind at 1, modify.
    destruct (decide (status = HTTP_OK)).
    + etrans.
      * apply effect_sent_for; [|apply notify_effect]; [done|].
        eapply (wf_close i r s); try by_fields. by rewrite Hp.
      * apply sent_for_alter.
    + apply sent_for_alter.
  - destruct (requests s !! i) as [r|] eqn:Hi; [|done].
    destruct (req_phase r) as [|status|] eqn:Hp; try done.
    apply sent_for_alter.
Qed.

Lemma subscribe_other_key now sa cb h s :
  wf s → getUniqueIdentifier sa ≠ h →
  obj_get h (subscriptions (exec (subscribe cfg now sa cb) s)) =
    obj_get h (subscriptions s).
Proof.
  intros Hwf Hne. unfold exec.
  destruct (find_gateway (gateways cfg) (origin sa)) as [g|] eqn:Hg.
  - destruct (obj_get (getUniqueIdentifier sa) (subscriptions s)) as [l|] eqn:Hl.
    + destruct (wf_lookup s _ l Hwf Hl) as [o Ho].
      by rewrite (subscribe_existing cfg now sa cb g l o s Hg Hl Ho).
    + rewrite (subscribe_new cfg now sa cb g s Hg Hl). cbn -[obj_get].
      rewrite <- (obj_set_fresh _ (length (heap s)) _ Hl).
      by rewrite obj_get_set_ne.
  - by rewrite (subscribe_throws cfg now sa cb s Hg).
Qed.

Lemma step_unsubscribed h s e :
  wf s → obj_get h (subscriptions s) = None →
  (∀ now sa cb, e = CallSubscribe now sa cb → getUniqueIdentifier sa ≠ h) →
  obj_get h (subscriptions (step cfg s e)) = None.
Proof.
  intros Hwf Hn He.
  assert ((∃ now sa cb, e = CallSubscribe now sa cb) ∨
          (∀ now sa cb, e ≠ CallSubscribe now sa cb)) as [(now & sa & cb & ->)|Hne].
  { destruct e; [left; by eauto|right; done..]. }
  - cbn [step]. rewrite subscribe_other_key; [done..|]. by eapply He.
  - destruct (obj_get h (subscriptions (step cfg s e))) as [l|] eqn:Hl; [|done].
    destruct (wf_lookup _ h l (step_wf cfg s e Hwf) Hl) as [o Ho].
    destruct (step_quiet cfg s e Hwf Hne h l o Hl Ho) as (o0 & Hl0 & _). congruence.
Qed.

(** Once a hash is out of the map, no request is sent for it until it is
    subscribed again. *)
Lemma never_sent_again h more s :
  wf s → obj_get h (subscriptions s) = None →
  (∀ now sa cb, CallSubscribe now sa cb ∈ more → getUniqueIdentifier sa ≠ h) →
  length (sent_for h (requests (run cfg s more))) = length (sent_for h (requests s)).
Proof.
  revert s. induction more as [|e more IH]; intros s Hwf Hn Hmore; [done|].
  cbn [run foldl]. etrans.
  - apply IH.
    + by apply step_wf.
    + apply step_unsubscribed; [done..|]. intros now sa cb ->.
      apply (Hmore now sa cb). apply list_elem_of_here.
    + intros now sa cb Hin. apply (Hmore now sa cb). by apply list_elem_of_further.
  - by apply step_sent_for.
Qed.
End retries.




(** ** The chain monitor: blocks and bytecode *)

Section chain_monitor_more.
Import ChainMonitor MonitorLoop.

Section monitor_loop_facts.
Variable cfg : Config.
Variable getContractAddress : Transaction → Completion string.

Local Abbreviation processBlock := (processBlock cfg getContractAddress).
Local Abbreviation block_loop := (block_loop cfg getContractAddress).

Lemma block_loop_step N outcome rest :
  block_loop N (outcome :: rest) =
    (N, processBlock N outcome) ::
    block_loop (if gone_through getContractAddress outcome then js_increment N else N) rest.
Proof.
  cbn [MonitorLoop.block_loop]. rewrite processBlock_run.
  destruct outcome as [[transactions|]|message]; [|done..].
  cbn [gone_through].
  by destruct (loop_ends getContractAddress transactions) as [[]|m].
Qed.

Lemma block_loop_numbers outcomes :
  ∀ N k n c,
    block_loop N outcomes !! k = Some (n, c) →
    ∃ outcome, outcomes !! k = Some outcome ∧
      n = Nat.iter (length (filter (λ o, gone_through getContractAddress o = true)
                              (take k outcomes)))
            js_increment N ∧
      c = processBlock n outcome.
Proof.
  induction outcomes as [|outcome rest IH]; intros N k n c; [done|].
  rewrite block_loop_step. destruct k as [|k].
  - cbn. intros [= <- <-]. by exists outcome.
  - cbn [lookup list_lookup take]. intros (o & Ho & Hn & Hc)%IH.
    exists o. split_and!; [done| |done].
    rewrite filter_cons. destruct (gone_through getContractAddress outcome).
    + rewrite decide_True by done. cbn [length]. by rewrite Nat.iter_succ_r.
    + by rewrite decide_False by done.
Qed.

Lemma block_loop_length outcomes :
  ∀ N, length (block_loop N outcomes) = length outcomes.
Proof.
  induction outcomes as [|outcome rest IH]; intros N; [done|].
  rewrite block_loop_step. cbn. by rewrite IH.
Qed.
End monitor_loop_facts.

Lemma iter_js_increment (k : nat) (N : Z) :
  (- 2 ^ 53 ≤ N)%Z → (N + Z.of_nat k ≤ 2 ^ 53)%Z →
  Nat.iter k js_increment N = (N + Z.of_nat k)%Z.
Proof.
  intros Hlo. induction k as [|k IH]; intros Hhi.
  - cbn. lia.
  - rewrite Nat.iter_succ, IH by lia. rewrite js_increment_exact by lia. lia.
Qed.



(** X11.  The block loop never stops.  [start] begins at the configured
    block, or at the head of the chain when the setting is missing,
    unparsable or 0 (and processes nothing when the head cannot be read
    then).  From there on, however the [getBlock] calls settle, every one
    of them is followed by another, and the block number asked for is the
    first one incremented once for each block before that came back and
    whose transactions were gone through without an exception: a block
    that is missing, whose request failed or whose transactions raised an
    exception is asked for again.  As long as the numbers stay within
    2^53, where the increment is exact, the block number asked for is the
    first one plus the number of those blocks, so no such block is asked
    for twice and none is skipped. *)
Theorem X11_block_loop_asks_for_consecutive_blocks
    (cfg : ChainMonitor.Config) (getContractAddress : Transaction → Completion string)
    (rawStartBlock head : option Z) (outcomes : list BlockOutcome) :
  let calls := MonitorLoop.start cfg getContractAddress rawStartBlock head outcomes in
  let first := match rawStartBlock with
               | Some n => if decide (n = 0)%Z then head else Some n
               | None => head
               end in
  match first with
  | None => calls = []
  | Some N =>
      length calls = length outcomes ∧
      ∀ k n c, calls !! k = Some (n, c) →
        let done := length (filter (λ o, gone_through getContractAddress o = true)
                              (take k outcomes)) in
        n = Nat.iter done js_increment N ∧
        ((- 2 ^ 53 ≤ N)%Z → (N + Z.of_nat done ≤ 2 ^ 53)%Z →
         n = (N + Z.of_nat done)%Z) ∧
        ∃ outcome, outcomes !! k = Some outcome ∧
                   c = ChainMonitor.processBlock cfg getContractAddress n outcome
  end.
Proof.
  intros calls first.
  assert (calls = match first with
                  | Some N => MonitorLoop.block_loop cfg getContractAddress N outcomes
                  | None => []
                  end) as ->.
  { unfold calls, first, MonitorLoop.start.
    destruct rawStartBlock as [n|]; [destruct (decide (n = 0)%Z)|]; done. }
  destruct first as [N|]; [|done].
  split; [apply block_loop_length|].
  intros k n c (o & Ho & Hn & Hc)%block_loop_numbers. split_and!.
  - done.
  - intros Hlo Hhi. rewrite Hn. by apply iter_js_increment.
  - by exists o.
Qed.

(** The loop starts at block 100, which is not there yet and comes back at
    the second call; block 101 comes back with a transaction for which
    [getContractAddress] throws, so the fifth call asks for 101 again. *)
Lemma X11_witness :
  (101 = 100 + Z.of_nat (length (filter (λ o, gone_through sender_address o = true)
                                   (take 4 sample_outcomes))))%Z.
Proof.
  refine (proj1 (proj2 (proj2 (X11_block_loop_asks_for_consecutive_blocks monitor_cfg
                                 sender_address (Some 100%Z) None sample_outcomes)
            4 101%Z
            (ChainMonitor.processBlock monitor_cfg sender_address 101
               (BlockRejected "timeout")) _)) _ _);
    vm_compute; first [reflexivity | discriminate].
Defined.

Section bytecode_facts.
Variable cfg : Config.
Variable hexToBytes : string → option (list Z).
Variable readMetadata : list Z → option SourceAddress.
Variable assemble_throws : SourceAddress → bool.

Local Abbreviation processBytecode :=
  (processBytecode cfg hexToBytes readMetadata assemble_throws).
Local Abbreviation handle_bytecode :=
  (handle_bytecode hexToBytes readMetadata assemble_throws).
Local Abbreviation retry :=
  (retry cfg hexToBytes readMetadata assemble_throws).
Local Abbreviation inconclusive := (inconclusive hexToBytes).

Lemma counts_retry lv tag answers k address retriesLeft a b c :
  counts (processBytecode answers (S k) address (retriesLeft - 1)%Z) = (a, b, c) →
  counts (GetCode address :: retry lv tag answers k address retriesLeft) =
    (S a, S b, c).
Proof.
  unfold counts, retry. intros [= <- <- <-].
  count_effects. reflexivity.
Qed.

(** While every answer is inconclusive, each try is one [getCode] call and
    one pause. *)
Lemma processBytecode_inconclusive n :
  ∀ answers k address retriesLeft,
    Z.to_nat retriesLeft = n →
    (∀ j, k ≤ j → inconclusive (answers j) = true) →
    counts (processBytecode answers k address retriesLeft) = (n, n, 0).
Proof.
  induction n as [|n IH]; intros answers k address retriesLeft Hn Hall.
  - by rewrite processBytecode_exhausted by lia.
  - rewrite processBytecode_try by lia.
    assert (counts (processBytecode answers (S k) address (retriesLeft - 1)%Z)
            = (n, n, 0)) as Hrest.
    { apply IH; [lia|]. intros j Hj. apply Hall. lia. }
    pose proof (Hall k (le_n k)) as Hk. unfold MonitorLoop.inconclusive in Hk.
    destruct (answers k) as [bytecode|message].
    + destruct (decide (bytecode = "0x")); [by apply counts_retry|].
      unfold ChainMonitor.handle_bytecode.
      destruct (hexToBytes bytecode); [done|]. by apply counts_retry.
    + by apply counts_retry.
Qed.

Lemma after_assemble_retry lv tag answers k address retriesLeft :
  after_assemble (retry lv tag answers k address retriesLeft) =
    after_assemble (processBytecode answers (S k) address (retriesLeft - 1)%Z).
Proof. reflexivity. Qed.

(** Where the assembler is called, the metadata address was read from
    bytecode the node returned, and nothing but a log line follows. *)
Lemma processBytecode_assemble n :
  ∀ answers k address retriesLeft,
    Z.to_nat retriesLeft = n →
    let l := processBytecode answers k address retriesLeft in
    length (filter (λ e, is_Assemble e = true) l) ≤ 1 ∧
    (after_assemble l = [] ∨
     after_assemble l = [Logged LvError "[GET_CODE:METADATA_READING]"]) ∧
    ∀ sa a b, Assemble sa a b ∈ l →
      a = address ∧
      ∃ j bytes, k ≤ j ∧ answers j = CodeResolved b ∧
                 hexToBytes b = Some bytes ∧ readMetadata bytes = Some sa.
Proof.
  induction n as [|n IH]; intros answers k address retriesLeft Hn l; unfold l.
  - rewrite processBytecode_exhausted by lia. cbn. split_and!; [lia|by left|].
    intros sa a b Hin. by apply elem_of_nil in Hin.
  - rewrite processBytecode_try by lia.
    destruct (IH answers (S k) address (retriesLeft - 1)%Z) as (Hc & Ha & Hin);
      [lia|].
    assert (∀ lv tag,
      length (filter (λ e, is_Assemble e = true)
                (GetCode address :: retry lv tag answers k address retriesLeft)) ≤ 1 ∧
      (after_assemble (GetCode address :: retry lv tag answers k address retriesLeft) = [] ∨
       after_assemble (GetCode address :: retry lv tag answers k address retriesLeft) =
         [Logged LvError "[GET_CODE:METADATA_READING]"]) ∧
      ∀ sa a b, Assemble sa a b ∈
                  GetCode address :: retry lv tag answers k address retriesLeft →
        a = address ∧
        ∃ j bytes, k ≤ j ∧ answers j = CodeResolved b ∧
                   hexToBytes b = Some bytes ∧ readMetadata bytes = Some sa) as Hretry.
    { intros lv tag. split_and!; [exact Hc|exact Ha|].
      intros sa a b Hel. unfold retry in Hel.
      apply elem_of_cons in Hel as [?|Hel]; [done|].
      apply elem_of_cons in Hel as [?|Hel]; [done|].
      apply elem_of_cons in Hel as [?|Hel]; [done|].
      destruct (Hin sa a b Hel) as (-> & j & bytes & Hj & Hrest).
      split; [done|]. exists j, bytes. split; [lia|done]. }
    destruct (answers k) as [bytecode|message] eqn:Hk; [|apply Hretry].
    destruct (decide (bytecode = "0x")); [apply Hretry|].
    unfold ChainMonitor.handle_bytecode.
    destruct (hexToBytes bytecode) as [bytes|] eqn:Hb; [|apply Hretry].
    destruct (readMetadata bytes) as [sa0|] eqn:Hm.
    + assert (∀ sa a b, Assemble sa a b ∈
                [GetCode address; Assemble sa0 address bytecode] →
              a = address ∧
              ∃ j bytes0, k ≤ j ∧ answers j = CodeResolved b ∧
                hexToBytes b = Some bytes0 ∧ readMetadata bytes0 = Some sa) as Hone.
      { intros sa a b Hel.
        apply elem_of_cons in Hel as [?|Hel]; [done|].
        apply list_elem_of_singleton in Hel as [= -> -> ->].
        split; [done|]. by exists k, bytes. }
      destruct (assemble_throws sa0).
      * split_and!; [count_effects; lia|by right|].
        intros sa a b Hel. apply (Hone sa a b).
        apply elem_of_cons in Hel as [?|Hel]; [done|].
        apply elem_of_cons in Hel as [Hel|Hel];
          [rewrite Hel; apply list_elem_of_further, list_elem_of_here|].
        by apply list_elem_of_singleton in Hel.
      * split_and!; [count_effects; lia|by left|done].
    + split_and!; [count_effects; lia|by left|].
      intros sa a b Hel.
      apply elem_of_cons in Hel as [?|Hel]; [done|].
      by apply list_elem_of_singleton in Hel.
Qed.
End bytecode_facts.



(** X13.  [processBytecode] calls the assembler at most once, for the
    address it was given, with a metadata address read from bytecode the
    node returned for it; and once the assembler has been called the
    address is not asked for again: at most the log line of a failed
    assembly follows. *)
Theorem X13_assembler_called_once_with_onchain_metadata
    (cfg : ChainMonitor.Config) (hexToBytes : string → option (list Z))
    (readMetadata : list Z → option SourceAddress)
    (assemble_throws : SourceAddress → bool)
    (answers : nat → CodeOutcome) (k : nat) (address : string) (retriesLeft : Z) :
  let l := ChainMonitor.processBytecode cfg hexToBytes readMetadata assemble_throws
             answers k address retriesLeft in
  length (filter (λ e, is_Assemble e = true) l) ≤ 1 ∧
  (after_assemble l = [] ∨
   after_assemble l = [Logged LvError "[GET_CODE:METADATA_READING]"]) ∧
  ∀ sa a b, Assemble sa a b ∈ l →
    a = address ∧
    ∃ j bytes, k ≤ j ∧ answers j = CodeResolved b ∧
               hexToBytes b = Some bytes ∧ readMetadata bytes = Some sa.
Proof.
  intros l.
  exact (processBytecode_assemble cfg hexToBytes readMetadata assemble_throws
           (Z.to_nat retriesLeft) answers k address retriesLeft eq_refl).
Qed.

Lemma X13_witness :
  "0xA1" = "0xA1" ∧
  ∃ j bytes, 0 ≤ j ∧ code_on_second_try j = CodeResolved "0x6080" ∧
             any_hex "0x6080" = Some bytes ∧ metadata_QmA bytes = Some QmA.
Proof.
  refine (proj2 (proj2 (X13_assembler_called_once_with_onchain_metadata monitor_cfg
                          any_hex metadata_QmA never_throws code_on_second_try
                          0 "0xA1" 3))
            QmA "0xA1" "0x6080" _).
  vm_compute. do 4 apply list_elem_of_further. apply list_elem_of_here.
Defined.
End chain_monitor_more.

(** ** The older fetcher *)

Lemma pretty_N_go_digits x s :
  all_digits s = true → all_digits (pretty_N_go x s) = true.
Proof.
  revert s. induction (N.lt_wf_0 x) as [x _ IH]; intros s Hs.
  assert (x = 0 ∨ 0 < x)%N as [->|Hpos] by lia.
  - by rewrite pretty_N_go_0.
  - rewrite pretty_N_go_step by done. apply IH.
    + by apply N.div_lt.
    + cbn [all_digits]. rewrite Hs, andb_true_r.
      unfold pretty_N_char. by repeat case_match.
Qed.

Lemma pretty_nat_digits (n : nat) : all_digits (pretty n) = true.
Proof.
  unfold pretty, pretty_nat, pretty, pretty_N.
  destruct (decide (N.of_nat n = 0)%N); [done|]. by apply pretty_N_go_digits.
Qed.

Section legacy.
Variable cfg : LegacyFetcher.Config.

Lemma legacy_subscribe_fields now sa cb s :
  let s' := exec (LegacyFetcher.subscribe now sa cb) s in
  LegacyFetcher.requests s' = LegacyFetcher.requests s ∧
  LegacyFetcher.called s' = LegacyFetcher.called s ∧
  LegacyFetcher.timers s' = LegacyFetcher.timers s ∧
  ∀ k, k ≠ getUniqueIdentifier sa →
       obj_has k (LegacyFetcher.subscriptions s') =
       obj_has k (LegacyFetcher.subscriptions s).
Proof.
  intros s'. unfold s', exec, LegacyFetcher.subscribe, obj_has.
  unfold mbind, JS_bind, mret, JS_ret, modify, get_state, LegacyFetcher.the_subscription.
  destruct s as [subs ts rq tm cl lg]. cbn -[obj_get obj_set].
  destruct (obj_get (getUniqueIdentifier sa) subs) as [o|] eqn:Ho;
    repeat (rewrite ?Ho, ?obj_get_set_eq; cbn -[obj_get obj_set]).
  - split_and!; [done..|]. intros k Hk. by rewrite obj_get_set_ne.
  - split_and!; [done..|]. intros k Hk. by rewrite !obj_get_set_ne.
Qed.

Lemma legacy_notify_fields h file s :
  let s' := exec (LegacyFetcher.notifySubscribers cfg h file) s in
  LegacyFetcher.requests s' = LegacyFetcher.requests s ∧
  LegacyFetcher.timers s' = LegacyFetcher.timers s.
Proof.
  intros s'. unfold s', exec.
  destruct (obj_get h (LegacyFetcher.subscriptions s)) as [o|] eqn:Ho.
  - split.
    all: unfold LegacyFetcher.notifySubscribers, obj_has.
    all: unfold mbind at 1, JS_bind at 1, get_state; rewrite Ho; cbn [negb].
    all: unfold mbind at 1, JS_bind at 1, LegacyFetcher.the_subscription; rewrite Ho.
    all: unfold LegacyFetcher.cleanup, LegacyFetcher.log, mbind, JS_bind, modify.
    all: rewrite legacy_forEach_invoke; reflexivity.
  - unfold LegacyFetcher.notifySubscribers, obj_has.
    unfold mbind, JS_bind, get_state. by rewrite Ho.
Qed.
End legacy.

Section legacy_runs.
Variable cfg : LegacyFetcher.Config.

Lemma legacy_fetch_round now hs i s :
  hs !! i = None →
  LegacyFetcher.fetch cfg now hs i s =
    (Normal (),
     LegacyFetcher.with_timers
       (λ ts, ts ++ [timer_for (LegacyFetcher.fetchPause cfg)
                       (obj_keys (LegacyFetcher.subscriptions s)) 0])
       (LegacyFetcher.with_logged
          (λ l, l ++ [{| level := LvInfo; loc := "[SOURCE_FETCHER]" |}]) s)).
Proof. intros H. unfold LegacyFetcher.fetch. rewrite H. reflexivity. Qed.

Lemma legacy_step_idle s e :
  no_numeric_key [e] = true → legacy_idle s → legacy_idle (LegacyFetcher.step cfg s e).
Proof.
  intros He [Hr Hc Ht Hk].
  destruct e as [now sa cb|k now|i status|i msg|i text|i]; cbn [LegacyFetcher.step].
  - destruct (legacy_subscribe_fields now sa cb s) as (H1 & H2 & H3 & H4).
    split; [congruence..|].
    intros n. rewrite H4; [apply Hk|]. intros Heq.
    cbn in He. rewrite andb_true_r in He. apply negb_true_iff in He.
    rewrite <- Heq, pretty_nat_digits in He. done.
  - destruct (LegacyFetcher.timers s !! k) as [tm|] eqn:Htm; [|done].
    assert (length (delete k (LegacyFetcher.timers s)) = 0) as Hd.
    { pose proof (length_delete (LegacyFetcher.timers s) k (mk_is_Some _ _ Htm)). lia. }
    apply length_zero_iff_nil in Hd.
    destruct (arg_sourceHashes tm !! arg_index tm) as [h|] eqn:Hh.
    + unfold exec. rewrite (legacy_fetch_returns cfg now _ _ h _ Hh).
      * split; cbn; [done|done|rewrite Hd; cbn; lia|done].
      * specialize (Hk (arg_index tm)). unfold obj_has in Hk. cbn.
        by destruct (obj_get (pretty (arg_index tm)) (LegacyFetcher.subscriptions s)).
    + unfold exec. rewrite (legacy_fetch_round now _ _ _ Hh).
      split; cbn; [done|done|rewrite Hd; cbn; lia|done].
  - by rewrite Hr.
  - by rewrite Hr.
  - by rewrite Hr.
  - by rewrite Hr.
Qed.

Lemma legacy_run_idle evs s :
  no_numeric_key evs = true → legacy_idle s → legacy_idle (LegacyFetcher.run cfg s evs).
Proof.
  revert s. induction evs as [|e evs IH]; intros s He Hs; [done|].
  cbn in He. apply andb_true_iff in He as [He Hes].
  cbn [LegacyFetcher.run foldl]. apply IH; [done|].
  apply legacy_step_idle; [|done]. cbn. by rewrite He.
Qed.

Lemma legacy_new_idle now0 : legacy_idle (LegacyFetcher.new_SourceFetcher cfg now0).
Proof.
  unfold LegacyFetcher.new_SourceFetcher, exec. rewrite legacy_fetch_round by done.
  split; cbn; [done|done|lia|done].
Qed.

(** Without a pending timer the older fetcher never gets one again. *)
Lemma legacy_step_stopped s e :
  LegacyFetcher.timers s = [] → LegacyFetcher.timers (LegacyFetcher.step cfg s e) = [].
Proof.
  intros Ht.
  destruct e as [now sa cb|k now|i status|i msg|i text|i]; cbn [LegacyFetcher.step].
  - destruct (legacy_subscribe_fields now sa cb s) as (_ & _ & -> & _). done.
  - by rewrite Ht.
  - destruct (LegacyFetcher.requests s !! i) as [r|]; [|done].
    by destruct (decide (LegacyFetcher.req_phase r = Pending)).
  - destruct (LegacyFetcher.requests s !! i) as [r|]; [|done].
    by destruct (decide (LegacyFetcher.req_phase r = Pending)).
  - destruct (LegacyFetcher.requests s !! i) as [r|]; [|done].
    destruct (LegacyFetcher.req_phase r) as [|status|]; try done.
    unfold LegacyFetcher.on_text, exec. unfold mbind at 1, JS_bind at 1, modify.
    destruct (decide (status = HTTP_OK)); [|done].
    destruct (legacy_notify_fields cfg (LegacyFetcher.req_sourceHash r) text
                (LegacyFetcher.with_requests
                   (alter (LegacyFetcher.set_phase Closed) i) s)) as [_ Hn].
    unfold exec in Hn. by rewrite Hn.
  - destruct (LegacyFetcher.requests s !! i) as [r|]; [|done].
    by destruct (LegacyFetcher.req_phase r).
Qed.

Lemma legacy_run_stopped evs s :
  LegacyFetcher.timers s = [] → LegacyFetcher.timers (LegacyFetcher.run cfg s evs) = [].
Proof.
  revert s. induction evs as [|e evs IH]; intros s Ht; [done|].
  cbn [LegacyFetcher.run foldl]. apply IH. by apply legacy_step_stopped.
Qed.
End legacy_runs.

(** X14.  The older variant of the fetcher never fetches.  As long as no
    address is subscribed whose unique identifier is a decimal number, it
    sends no request and calls no subscriber in any run; and the first
    timer that fires on an index inside its list ends the loop for good:
    the visit returns without a request and without a next timer, and no
    later event schedules one. *)
Theorem X14_older_fetcher_never_fetches
    (cfg : LegacyFetcher.Config) (now0 : Z) (evs : list Event) :
  no_numeric_key evs = true →
  let s := LegacyFetcher.run cfg (LegacyFetcher.new_SourceFetcher cfg now0) evs in
  LegacyFetcher.requests s = [] ∧
  LegacyFetcher.called s = [] ∧
  ∀ k now tm h more,
    LegacyFetcher.timers s !! k = Some tm →
    arg_sourceHashes tm !! arg_index tm = Some h →
    LegacyFetcher.timers (LegacyFetcher.step cfg s (TimerFires k now)) = [] ∧
    LegacyFetcher.timers
      (LegacyFetcher.run cfg (LegacyFetcher.step cfg s (TimerFires k now)) more) = [].
Proof.
  intros He s.
  destruct (legacy_run_idle cfg evs _ He (legacy_new_idle cfg now0)) as [Hr Hc Ht Hk].
  fold s in Hr, Hc, Ht, Hk. clearbody s. split_and!; [done..|].
  intros k now tm h more Htm Hh.
  assert (LegacyFetcher.timers (LegacyFetcher.step cfg s (TimerFires k now)) = [])
    as Hstop.
  { cbn [LegacyFetcher.step]. rewrite Htm. unfold exec.
    rewrite (legacy_fetch_returns cfg now _ _ h _ Hh).
    - cbn. apply length_zero_iff_nil.
      pose proof (length_delete (LegacyFetcher.timers s) k (mk_is_Some _ _ Htm)). lia.
    - specialize (Hk (arg_index tm)). unfold obj_has in Hk. cbn.
      by destruct (obj_get (pretty (arg_index tm)) (LegacyFetcher.subscriptions s)). }
  split; [done|]. by apply legacy_run_stopped.
Qed.

Lemma X14_witness :
  let s := LegacyFetcher.run legacy_cfg (LegacyFetcher.new_SourceFetcher legacy_cfg 0)
             stale_trace in
  LegacyFetcher.timers (LegacyFetcher.step legacy_cfg s (TimerFires 0 1000)) = [] ∧
  LegacyFetcher.timers
    (LegacyFetcher.run legacy_cfg (LegacyFetcher.step legacy_cfg s (TimerFires 0 1000))
       [CallSubscribe 2000 QmA 8; TimerFires 0 3000]) = [].
Proof.
  refine (proj2 (proj2 (X14_older_fetcher_never_fetches legacy_cfg 0 stale_trace _))
            0 1000%Z (timer_for 1000 ["ipfs:QmA"] 0) "ipfs:QmA"
            [CallSubscribe 2000 QmA 8; TimerFires 0 3000] _ _);
    vm_compute; reflexivity.
Defined.

(** X15.  In the older variant, [subscribe] followed by [notifySubscribers]
    for the same key: [subscribe] completes for every address, also one no
    gateway works with; the file then goes to the subscribers that were
    waiting under the key, in the order they subscribed, and to the new one
    last, each once, until one of them throws.  When none throws all of them
    are called and the call completes; when one throws, those after it are
    not called and the call ends with what it threw.  However the calls
    end, the key is gone from both maps afterwards, and another
    [notifySubscribers] for it does nothing. *)
Theorem X15_older_subscribe_then_notify
    (cfg : LegacyFetcher.Config)
    (now : Z) (sa : SourceAddress) (cb : FetchedFileCallback) (file : string)
    (s : LegacyFetcher.State) :
  let h := getUniqueIdentifier sa in
  let s1 := exec (LegacyFetcher.subscribe now sa cb) s in
  let s2 := exec (LegacyFetcher.notifySubscribers cfg h file) s1 in
  let before := match obj_get h (LegacyFetcher.subscriptions s) with
                | Some o => LegacyFetcher.subscribers o
                | None => []
                end in
  let outcome := LegacyFetcher.callback_outcome cfg in
  let k := length (LegacyFetcher.called s) in
  LegacyFetcher.subscribe now sa cb s = (Normal (), s1) ∧
  LegacyFetcher.notifySubscribers cfg h file s1 =
    (forEach_ends outcome k file (before ++ [cb]), s2) ∧
  LegacyFetcher.called s2 =
    LegacyFetcher.called s ++
    ((λ c, (c, file)) <$> reached outcome k file (before ++ [cb])) ∧
  ((∀ j c, (before ++ [cb]) !! j = Some c → outcome (k + j) c file = None) →
   LegacyFetcher.notifySubscribers cfg h file s1 = (Normal (), s2) ∧
   LegacyFetcher.called s2 =
     LegacyFetcher.called s ++ ((λ c, (c, file)) <$> before ++ [cb])) ∧
  (∀ j c message,
     (before ++ [cb]) !! j = Some c →
     outcome (k + j) c file = Some message →
     (∀ j' c', j' < j → (before ++ [cb]) !! j' = Some c' →
               outcome (k + j') c' file = None) →
     LegacyFetcher.notifySubscribers cfg h file s1 = (Throw message, s2) ∧
     LegacyFetcher.called s2 =
       LegacyFetcher.called s ++ ((λ c, (c, file)) <$> take (S j) (before ++ [cb]))) ∧
  obj_has h (LegacyFetcher.subscriptions s2) = false ∧
  obj_has h (LegacyFetcher.timestamps s2) = false ∧
  ∀ file', LegacyFetcher.notifySubscribers cfg h file' s2 = (Normal (), s2).
Proof.
  intros h s1 s2 before outcome k.
  destruct (legacy_subscribe_run now sa cb s) as (Hrun & _ & Hget & _).
  fold h s1 in Hrun, Hget.
  destruct (legacy_subscribe_fields now sa cb s) as (_ & Hcalled & _). fold s1 in Hcalled.
  set (o1 := match obj_get h (LegacyFetcher.subscriptions s) with
             | Some o => LegacyFetcher.push_subscriber cb o
             | None => {| LegacyFetcher.sourceAddress := sa;
                          LegacyFetcher.subscribers := [cb] |}
             end) in Hget.
  assert (LegacyFetcher.subscribers o1 = before ++ [cb]) as Hsubs.
  { unfold o1, before. by destruct (obj_get h (LegacyFetcher.subscriptions s)). }
  destruct (legacy_notifySubscribers_run cfg h file o1 s1 Hget)
    as (s' & Hs & Ht & Hc & Hn & Hcalled2).
  fold s2 in Hcalled2. rewrite Hcalled, Hsubs in Hcalled2. fold outcome k in Hcalled2.
  assert (LegacyFetcher.notifySubscribers cfg h file s1 =
            (forEach_ends outcome k file (before ++ [cb]), s2)) as Hends.
  { unfold s2, exec. rewrite Hn, legacy_forEach_invoke. cbn [snd].
    by rewrite Hc, Hcalled, Hsubs. }
  assert (s2 = LegacyFetcher.with_called
                 (λ c, c ++ ((λ cb, (cb, file))
                               <$> reached outcome k file (before ++ [cb]))) s')
    as Hs2.
  { unfold s2, exec. rewrite Hn, legacy_forEach_invoke. cbn [snd].
    by rewrite Hc, Hcalled, Hsubs. }
  clearbody s1 s2. split_and!.
  - done.
  - done.
  - done.
  - intros Hnone. destruct (reached_all outcome k file (before ++ [cb]) Hnone) as [Hr He].
    by rewrite Hends, Hcalled2, Hr, He.
  - intros j c message Hj Hm Hbefore.
    destruct (reached_first_throw outcome file message (before ++ [cb]) k j c Hj Hm Hbefore)
      as [Hr He].
    by rewrite Hends, Hcalled2, Hr, He.
  - rewrite Hs2. unfold obj_has. cbn. by rewrite Hs.
  - rewrite Hs2. unfold obj_has. cbn. by rewrite Ht.
  - intros file'. unfold LegacyFetcher.notifySubscribers, obj_has.
    unfold mbind, JS_bind, get_state. rewrite Hs2. cbn. by rewrite Hs.
Qed.

Lemma X15_witness :
  let s := LegacyFetcher.new_SourceFetcher legacy_throwing_cfg 0 in
  let s1 := exec (LegacyFetcher.subscribe 1 QmA 7) s in
  let s2 := exec (LegacyFetcher.notifySubscribers legacy_throwing_cfg "ipfs:QmA" "file")
              (exec (LegacyFetcher.subscribe 2 QmA 8) s1) in
  LegacyFetcher.notifySubscribers legacy_throwing_cfg "ipfs:QmA" "file"
    (exec (LegacyFetcher.subscribe 2 QmA 8) s1) = (Throw "callback failed", s2) ∧
  LegacyFetcher.called s2 = LegacyFetcher.called s1 ++ [(7, "file")].
Proof.
  refine (proj1 (proj2 (proj2 (proj2 (proj2
            (X15_older_subscribe_then_notify legacy_throwing_cfg 2 QmA 8 "file"
               (exec (LegacyFetcher.subscribe 1 QmA 7)
                  (LegacyFetcher.new_SourceFetcher legacy_throwing_cfg 0)))))))
            0 7 "callback failed" _ _ _).
  - reflexivity.
  - reflexivity.
  - intros j' c' Hlt. lia.
Defined.

(** ** One [subscribe] call, and the work one block causes *)

Lemma wf_one_key_per_object s h h' l :
  wf s → obj_get h (subscriptions s) = Some l → obj_get h' (subscriptions s) = Some l →
  h = h'.
Proof.
  intros Hwf Hl Hl'. apply obj_get_Some_elem in Hl, Hl'.
  pose proof (wf_locs s Hwf) as Hnd.
  apply list_elem_of_lookup in Hl as [i Hi], Hl' as [j Hj].
  assert (i = j) as ->.
  { eapply (NoDup_lookup _ i j l Hnd); by rewrite list_lookup_fmap, ?Hi, ?Hj. }
  rewrite Hi in Hj. by injection Hj.
Qed.

(** X16.  In every state the fetcher can reach, a [subscribe] call touches
    only the key of its own address: every other key keeps its
    subscription object, with its subscribers and its flag, and its
    timestamp; no request is sent, no timer set and no callback called. *)
Theorem X16_subscribe_leaves_other_keys_alone
    (cfg : Config) (now0 : Z) (evs : list Event)
    (now : Z) (sa : SourceAddress) (cb : FetchedFileCallback) (h : string) :
  let s := run cfg (new_SourceFetcher cfg now0) evs in
  let s' := step cfg s (CallSubscribe now sa cb) in
  h ≠ getUniqueIdentifier sa →
  obj_get h (subscriptions s') = obj_get h (subscriptions s) ∧
  obj_get h (timestamps s') = obj_get h (timestamps s) ∧
  (∀ l, obj_get h (subscriptions s) = Some l → heap s' !! l = heap s !! l) ∧
  requests s' = requests s ∧ timers s' = timers s ∧ called s' = called s.
Proof.
  intros s s' Hne. destruct (reachable_wf cfg now0 evs) as [Hwf _]. fold s in Hwf.
  unfold s'. clearbody s. cbn [step]. unfold exec.
  destruct (find_gateway (gateways cfg) (origin sa)) as [g|] eqn:Hg.
  2:{ by rewrite (subscribe_throws cfg now sa cb s Hg). }
  destruct (obj_get (getUniqueIdentifier sa) (subscriptions s)) as [l0|] eqn:Hl0.
  - destruct (wf_lookup s _ l0 Hwf Hl0) as [o0 Ho0].
    rewrite (subscribe_existing cfg now sa cb g l0 o0 s Hg Hl0 Ho0).
    cbn -[obj_get obj_set]. split_and!; [done| |..|done|done|done].
    + by rewrite obj_get_set_ne.
    + intros l Hl. rewrite list_lookup_alter_ne; [done|].
      intros <-. apply Hne. by eapply wf_one_key_per_object.
  - rewrite (subscribe_new cfg now sa cb g s Hg Hl0).
    cbn -[obj_get obj_set]. split_and!; [| |..|done|done|done].
    + rewrite <- (obj_set_fresh _ (length (heap s)) _ Hl0).
      by rewrite obj_get_set_ne.
    + by rewrite obj_get_set_ne.
    + intros l Hl. destruct (wf_lookup s h l Hwf Hl) as [o Ho].
      rewrite lookup_app_l; [done|]. by eapply lookup_lt_Some.
Qed.

Lemma X16_witness :
  let s := run default_cfg (new_SourceFetcher default_cfg 0) stale_trace in
  let s' := step default_cfg s (CallSubscribe 9 QmB 8) in
  obj_get "ipfs:QmA" (subscriptions s') = obj_get "ipfs:QmA" (subscriptions s) ∧
  obj_get "ipfs:QmA" (timestamps s') = obj_get "ipfs:QmA" (timestamps s) ∧
  (∀ l, obj_get "ipfs:QmA" (subscriptions s) = Some l → heap s' !! l = heap s !! l) ∧
  requests s' = requests s ∧ timers s' = timers s ∧ called s' = called s.
Proof.
  refine (X16_subscribe_leaves_other_keys_alone default_cfg 0 stale_trace 9 QmB 8
            "ipfs:QmA" _).
  vm_compute. discriminate.
Defined.

Section block_work.
Import ChainMonitor MonitorLoop.
Variable cfg : Config.
Variable hexToBytes : string → option (list Z).
Variable readMetadata : list Z → option SourceAddress.
Variable assemble_throws : SourceAddress → bool.

Lemma started_getCode_bounded (answers : string → nat → CodeOutcome)
    (calls : list (string * Z)) (tries : Z) :
  Forall (λ call, call.2 = tries) calls →
  length (filter (λ e, is_GetCode e = true)
            (calls ≫= λ call,
               processBytecode cfg hexToBytes readMetadata assemble_throws
                 (answers call.1) 0 call.1 call.2))
    ≤ length calls * Z.to_nat tries.
Proof.
  induction calls as [|[a t] calls IH]; intros Hall; [done|].
  apply Forall_cons in Hall as [Ht Hall]. cbn in Ht. subst t.
  rewrite bind_cons, filter_app, length_app. cbn [length fst snd].
  pose proof (getCode_calls_bounded cfg hexToBytes readMetadata assemble_throws
                (Z.to_nat tries) (answers a) 0 a tries eq_refl) as H1.
  specialize (IH Hall). lia.
Qed.
End block_work.

